(** * Request orchestration and result correlation of the TravelTime
      platform QGIS plugin

    A shallow embedding of [algorithms.py] (the batching engine
    [AdvancedAlgorithmBase.processAlgorithm] with its usage guard, the
    payload remixes and the output stages of [TimeMapAlgorithm] and
    [TimeFilterAlgorithm]) and of [algorithms/base.py]
    ([AlgorithmBase.processAlgorithmMakeRequest]); then of the
    parameters [initAlgorithm] declares in [algorithms.py], of its two
    simplified algorithms, and of the helpers of [AlgorithmBase] in
    [algorithms/base.py] ([addParameter], [has_param], [eval_expr],
    [processAlgorithmConfigureParams], [shortHelpString]).

    Conventions of the embedding:
    - Python dictionaries with a fixed set of known keys are records;
      a key that may be absent is an [option] field, and subscripting an
      absent key raises [KeyError].
    - The persisted [QSettings] store is a [gmap] from key to value,
      read with a default as [QSettings.value] does.
    - Side effects ([feedback], the message log, [time.sleep], the HTTP
      session, [QSettings.setValue]) are threaded by a small monad that
      carries the store, emits a chronological trace of events and may
      raise a Python exception.
    - What lies outside the two source files is an explicit parameter:
      the HTTP session with its cache, the operator who may edit the
      settings while the engine sleeps, [json.dumps] and [json.loads];
      for the simplified algorithms [processing.run], and for the
      helpers of [AlgorithmBase] the accessors of QGIS.
      Expression evaluation and reprojection are done by the host: a
      feature arrives with its expressions evaluated and its point in
      EPSG:4326. Floating-point coordinates are only carried around, and
      are represented by rationals. *)

From Stdlib Require Import ZArith QArith_base Lia.
From stdpp Require Import base list strings gmap pretty.

Open Scope string_scope.
Open Scope list_scope.
Open Scope nat_scope.

(** ** Data model *)

Record Coords := { lat : Q; lng : Q }.

Record Transportation := {
  trnspt_type : string;
  pt_change_delay : Z;
  walking_time : Z;
  driving_time_to_station : Z;
  parking_time : Z;
  boarding_time : Z;
}.

(** One feature of a searches layer, as the host hands it over: the
    value of every [INPUT_<DEPARR>_*] expression on it and its point
    reprojected to EPSG:4326. *)
Record SearchFeature := {
  INPUT_ID : string;
  point : Coords;
  INPUT_TRNSPT_TYPE : string;
  INPUT_TRNSPT_PT_CHANGE_DELAY : Z;
  INPUT_TRNSPT_WALKING_TIME : Z;
  INPUT_TRNSPT_DRIVING_TIME_TO_STATION : Z;
  INPUT_TRNSPT_PARKING_TIME : Z;
  INPUT_TRNSPT_BOARDING_TIME : Z;
  INPUT_TIME : string;
  INPUT_TRAVEL_TIME : Z;
}.

(** One feature of the locations layer: the value of
    [INPUT_LOCATIONS_ID] on it, its reprojected point, and the geometry
    and attributes it has in its own layer. *)
Record LocationFeature := {
  INPUT_LOCATIONS_ID : string;
  location_point : Coords;
  geometry : string;
  attributes : list string;
}.

(** A search dictionary. [sd_time] is the entry [departure_time] or
    [arrival_time], according to the list the search sits in. *)
Record Search := {
  sd_id : string;
  sd_coords : option Coords;
  sd_transportation : Transportation;
  sd_time : string;
  sd_travel_time : Z;
  sd_properties : list string;
  departure_location_id : option string;
  arrival_location_ids : option (list string);
  arrival_location_id : option string;
  departure_location_ids : option (list string);
}.

Record Location := { loc_id : string; loc_coords : Coords }.

Record Aggregation := { agg_id : string; search_ids : list string }.

(** The [data] dictionary of one request. *)
Record Data := {
  departure_searches : option (list Search);
  arrival_searches : option (list Search);
  locations : option (list Location);
  unions : option (list Aggregation);
  intersections : option (list Aggregation);
}.

(** One element of [results] in a response. [properties] is kept as
    the JSON text [json.dumps] gives for it. *)
Record LocationResult := { lr_id : string; lr_properties : option string }.

Record ApiResult := {
  search_id : string;
  shape : option string;
  properties : option string;
  res_locations : option (list LocationResult);
  unreachable : option (list string);
}.

(** The object [json.loads] returns for a response body; scalar entries
    are held as [str] renders them, and an entry is [None] when the
    object has no such key. The record stands for the bodies that
    decode to a JSON object whose [results], when present, is a list
    of result objects and whose [additional_info], when present, is an
    object. A body that decodes to another JSON value (a list, a
    string, a number, [null]), on which the subscripts of the code
    raise [TypeError], and an [additional_info] without [items], on
    which the handler raises [AttributeError], have no counterpart
    here: what is proved of a decoded body is proved of these objects. *)
Record ResponseData := {
  results : option (list ApiResult);
  error_code : option string;
  description : option string;
  documentation_link : option string;
  additional_info : option (list (string * string));
}.

Record Request := {
  rq_method : string;
  rq_url : string;
  rq_headers : list (string * string);
  rq_params : list (string * string);
  rq_data : string;
  rq_verify : bool;
}.

Record Response := {
  from_cache : bool;
  status_code : Z;
  reason : string;
  text : string;
}.

(** ** Python exceptions and observable events *)

Inductive exn :=
| QgsProcessingException (msg : string)
| RequestException (msg : string)
| KeyError (key : string)
| AssertionError.

Inductive event :=
| pushDebugInfo (msg : string)
| pushInfo (msg : string)
| reportError (msg : string) (fatalError : bool)
| logMessage (msg : string)
| time_sleep (seconds : Z)
| session_request (rq : Request)
| output_stage (merged : list ApiResult).

(** ** The settings store *)

Inductive qvariant := QBool (b : bool) | QInt (z : Z).

Definition py_bool (v : qvariant) : bool :=
  match v with QBool b => b | QInt z => negb (z =? 0)%Z end.

Definition py_int (v : qvariant) : Z :=
  match v with QBool b => if b then 1%Z else 0%Z | QInt z => z end.

Definition value (s : gmap string qvariant) (key : string) (default_value : qvariant) : qvariant :=
  default default_value (s !! key).

Definition setValue (key : string) (v : qvariant) (s : gmap string qvariant) : gmap string qvariant :=
  <[key := v]> s.

(** ** The environment and the effect monad *)

(** [session n rq] is what the cached session does on the call number
    [n]: it raises a transport exception or returns a response, fresh
    or from its cache. [operator k s] is the store after the sleep
    number [k], which somebody may have used to edit the settings. *)
Record Env := {
  session : nat → Request → string + Response;
  operator : nat → gmap string qvariant → gmap string qvariant;
  json_dumps : Data → string;
  json_loads : string → string + ResponseData;
}.

Record World := {
  settings : gmap string qvariant;
  slept : nat;
  requested : nat;
}.

Definition M (A : Type) : Type := Env → World → (exn + A) * World * list event.

Definition ret {A} (a : A) : M A := λ _ w, (inr a, w, []).

Definition raise {A} (e : exn) : M A := λ _ w, (inl e, w, []).

Definition bind {A B} (m : M A) (f : A → M B) : M B :=
  λ env w,
    match m env w with
    | (inl e, w1, t1) => (inl e, w1, t1)
    | (inr a, w1, t1) =>
        match f a env w1 with
        | (r, w2, t2) => (r, w2, t1 ++ t2)
        end
    end.

Notation "'let*' x ':=' m 'in' k" := (bind m (λ x, k))
  (at level 10, x name, m at level 100, k at level 200, only parsing).
Notation "m >> k" := (bind m (λ _, k))
  (at level 100, k at level 200, right associativity, only parsing).

Definition emit (e : event) : M unit := λ _ w, (inr tt, w, [e]).

Definition ask : M Env := λ env w, (inr env, w, []).

Definition QSettings : M (gmap string qvariant) := λ _ w, (inr (settings w), w, []).

Definition QSettings_setValue (key : string) (v : qvariant) : M unit :=
  λ _ w, (inr tt,
          {| settings := setValue key v (settings w);
             slept := slept w; requested := requested w |}, []).

(** The world after one more sleep: the operator may have acted. *)
Definition after_sleep (env : Env) (w : World) : World :=
  {| settings := operator env (slept w) (settings w);
     slept := S (slept w); requested := requested w |}.

(** [time.sleep]: the calling thread blocks. *)
Definition sleep (seconds : Z) : M unit :=
  λ env w, (inr tt, after_sleep env w, [time_sleep seconds]).

(** The cached session: [inl] is the message of the
    [requests.exceptions.RequestException] it raised. *)
Definition cached_requests (rq : Request) : M (string + Response) :=
  λ env w, (inr (session env (requested w) rq),
            {| settings := settings w; slept := slept w;
               requested := S (requested w) |},
            [session_request rq]).

(** [Response.raise_for_status] of the requests library: an
    [HTTPError] for a status from 400 to 599, with this message. *)
Definition raise_for_status (url : string) (r : Response) : option string :=
  if (400 <=? status_code r)%Z && (status_code r <? 500)%Z then
    Some (pretty (status_code r) +:+ " Client Error: " +:+ reason r +:+ " for url: " +:+ url)
  else if (500 <=? status_code r)%Z && (status_code r <? 600)%Z then
    Some (pretty (status_code r) +:+ " Server Error: " +:+ reason r +:+ " for url: " +:+ url)
  else None.

(** [str] of a dictionary of strings; characters that [repr] would
    escape are not treated. *)
Definition py_str_dict (d : list (string * string)) : string :=
  "{" +:+ String.concat ", "
            (map (λ kv, "'" +:+ kv.1 +:+ "': '" +:+ kv.2 +:+ "'") d) +:+ "}".

(** ** Slicing and payload construction ([processAlgorithm], lines 230-287) *)

Definition slicing_size : nat := 10.

(** [math.ceil(n / d)] on feature counts; the float quotient of two
    counts is exact enough for the ceiling to be the integer one. *)
Definition math_ceil_div (n d : nat) : nat :=
  if n `mod` d =? 0 then n `div` d else S (n `div` d).

(** [source.featureCount() if source else 0]: a source that is given
    reports the number of features it yields. *)
Definition featureCount (source : option (list SearchFeature)) : nat :=
  match source with Some features => length features | None => 0 end.

(** Line 234. *)
Definition slicing_count (source_departure source_arrival : option (list SearchFeature)) : nat :=
  math_ceil_div (featureCount source_departure `max` featureCount source_arrival) slicing_size.

(** Lines 269-287: the dictionary appended for one feature. *)
Definition search_of_feature (feature : SearchFeature) : Search :=
  {| sd_id := INPUT_ID feature;
     sd_coords := Some (point feature);
     sd_transportation :=
       {| trnspt_type := INPUT_TRNSPT_TYPE feature;
          pt_change_delay := INPUT_TRNSPT_PT_CHANGE_DELAY feature;
          walking_time := INPUT_TRNSPT_WALKING_TIME feature;
          driving_time_to_station := INPUT_TRNSPT_DRIVING_TIME_TO_STATION feature;
          parking_time := INPUT_TRNSPT_PARKING_TIME feature;
          boarding_time := INPUT_TRNSPT_BOARDING_TIME feature |};
     sd_time := INPUT_TIME feature;
     sd_travel_time := INPUT_TRAVEL_TIME feature;
     sd_properties := [];
     departure_location_id := None;
     arrival_location_ids := None;
     arrival_location_id := None;
     departure_location_ids := None |}.

(** The loop [for i, feature in enumerate(source.getFeatures())], from
    position [i] on: a feature outside the slice is skipped, one inside
    is appended. Each feature that is kept comes with the position it
    has in the source. *)
Fixpoint load_features (slicing_start slicing_end i : nat)
    (features : list SearchFeature) : list (nat * SearchFeature) :=
  match features with
  | [] => []
  | feature :: rest =>
      if (i <? slicing_start) || (slicing_end <=? i)
      then load_features slicing_start slicing_end (S i) rest
      else (i, feature) :: load_features slicing_start slicing_end (S i) rest
  end.

(** The list [data[deparr+'_searches']] of one side. *)
Definition load_searches (slicing_start slicing_end : nat)
    (features : list SearchFeature) : list Search :=
  map (λ p, search_of_feature p.2) (load_features slicing_start slicing_end 0 features).

(** Lines 242-287: the [data] of the slice [slicing_i]; a side
    without a source has no entry. *)
Definition prepare_data (source_departure source_arrival : option (list SearchFeature))
    (slicing_i : nat) : Data :=
  let slicing_start := slicing_i * slicing_size in
  let slicing_end := (slicing_i + 1) * slicing_size in
  {| departure_searches := load_searches slicing_start slicing_end <$> source_departure;
     arrival_searches := load_searches slicing_start slicing_end <$> source_arrival;
     locations := None;
     unions := None;
     intersections := None |}.

(** The positions of the source that slice [slicing_i] loads. *)
Definition slice_positions (slicing_i : nat) (features : list SearchFeature) : list nat :=
  map fst (load_features (slicing_i * slicing_size) ((slicing_i + 1) * slicing_size) 0 features).

(** ** Small Python helpers *)

Definition NL : string := String (Ascii.ascii_of_nat 10) "".
Definition TAB : string := String (Ascii.ascii_of_nat 9) "".

(** [d[key]] on an entry that may be absent. *)
Definition subscript {A} (key : string) (entry : option A) : M A :=
  match entry with
  | Some a => ret a
  | None => raise (KeyError key)
  end.

Definition lift {A} (r : exn + A) : M A :=
  match r with
  | inl e => raise e
  | inr a => ret a
  end.

Definition when (b : bool) (m : M unit) : M unit := if b then m else ret tt.

(** [not s] on a string. *)
Definition py_not (s : string) : bool := (s =? "")%string.

(** ** The engine of [algorithms.py] *)

Module AdvancedAlgorithmBase.

(** What a subclass provides. *)
Record Algorithm (Out : Type) := {
  url : string;
  accept_header : string;
  processAlgorithmRemixData : Data → exn + Data;
  processAlgorithmOutput : list ApiResult → M Out;
}.
Arguments url {Out}.
Arguments accept_header {Out}.
Arguments processAlgorithmRemixData {Out}.
Arguments processAlgorithmOutput {Out}.

Definition retries : nat := 10.

(** Lines 305-323: [for i in range(retries): ... else: ...] over what
    is left of the range. Leaving the function normally is the
    [break]; the empty range is the [else] clause. *)
Fixpoint api_limit_loop (range : list nat) : M unit :=
  match range with
  | [] =>
      emit (reportError "Execution canceled because of API limit warning." true) >>
      raise (QgsProcessingException "API usage limit warning")
  | i :: range' =>
      let* s := QSettings in
      let enabled := py_bool (value s "travel_time_platform/warning_enabled" (QBool true)) in
      let count := (py_int (value s "travel_time_platform/current_count" (QInt 0)) + 1)%Z in
      let limit := (py_int (value s "travel_time_platform/warning_limit" (QInt 10)) + 1)%Z in
      if enabled && (limit <=? count)%Z then
        when (i =? 0)
          (emit (reportError "WARNING : API usage warning limit reached !" false) >>
           emit (reportError "To continue, disable or increase the limit in the plugin settings, or reset the queries counter. Now is your chance to do the changes." false)) >>
        emit (reportError ("Execution will resume in 10 seconds (retry " +:+ pretty (i + 1)
                           +:+ " out of " +:+ pretty retries +:+ ")") false) >>
        sleep 10 >>
        api_limit_loop range'
      else
        (if enabled
         then emit (pushInfo ("API usage warning limit not reached yet (" +:+ pretty (limit - count)%Z
                              +:+ " queries remaining)..."))
         else emit (pushInfo "API usage warning limit disabled..."))
  end.

(** The handlers of the [try] statement (lines 353-366). *)
Definition except_HTTPError {A} (response : Response) (response_data : ResponseData)
    (e : string) : M A :=
  let* info := subscript "additional_info" (additional_info response_data) in
  let nice_info := String.concat NL (map (λ kv, TAB +:+ kv.1 +:+ ":" +:+ TAB +:+ kv.2) info) in
  let* code := subscript "error_code" (error_code response_data) in
  let* descr := subscript "description" (description response_data) in
  let* link := subscript "documentation_link" (documentation_link response_data) in
  emit (reportError ("Recieved error from the API." +:+ NL +:+ "Error code : " +:+ code +:+ NL
                     +:+ "Description : " +:+ descr +:+ NL +:+ "See : " +:+ link +:+ NL
                     +:+ "Addtionnal info :" +:+ NL +:+ nice_info) true) >>
  emit (reportError "See log for more details." true) >>
  emit (logMessage e) >>
  raise (QgsProcessingException ("Got error " +:+ pretty (status_code response) +:+ " form API")).

Definition except_RequestException {A} (e : string) : M A :=
  emit (reportError "Could not connect to the API. See log for more details." true) >>
  emit (logMessage e) >>
  raise (QgsProcessingException "Could not connect to API").

Definition except_ValueError {A} (e : string) : M A :=
  emit (reportError "Could not decode response. See log for more details." true) >>
  emit (logMessage e) >>
  raise (QgsProcessingException "Could not decode response").

Definition headers {Out} (alg : Algorithm Out) (APP_ID API_KEY : string) : list (string * string) :=
  [("Content-type", "application/json");
   ("Accept", accept_header alg);
   ("X-Application-Id", APP_ID);
   ("X-Api-Key", API_KEY)].

(** Lines 325-366: the request of one slice. It returns
    [response_data['results']]; each handler is placed where its
    exception is raised. *)
Definition make_request {Out} (alg : Algorithm Out) (APP_ID API_KEY data : string)
    : M (list ApiResult) :=
  emit (pushDebugInfo "Making request to API endpoint...") >>
  let* s := QSettings in
  let print_query := py_bool (value s "travel_time_platform/log_calls" (QBool false)) in
  when print_query
    (emit (logMessage "Making request") >>
     emit (logMessage ("url: " +:+ url alg)) >>
     emit (logMessage ("headers: " +:+ py_str_dict (headers alg APP_ID API_KEY))) >>
     emit (logMessage ("data: " +:+ data))) >>
  let* posted := cached_requests
      {| rq_method := "POST"; rq_url := url alg; rq_headers := headers alg APP_ID API_KEY;
         rq_params := []; rq_data := data; rq_verify := true |} in
  match posted with
  | inl e => except_RequestException e
  | inr response =>
      (if from_cache response
       then emit (pushDebugInfo "Got response from cache...")
       else
         emit (pushDebugInfo "Got response from API endpoint...") >>
         let* s := QSettings in
         QSettings_setValue "travel_time_platform/current_count"
           (QInt (py_int (value s "travel_time_platform/current_count" (QInt 0)) + 1))) >>
      when print_query
        (emit (logMessage "Got response") >>
         emit (logMessage ("status: " +:+ pretty (status_code response))) >>
         emit (logMessage ("reason: " +:+ reason response)) >>
         emit (logMessage ("text: " +:+ text response))) >>
      let* env := ask in
      match json_loads env (text response) with
      | inl e => except_ValueError e
      | inr response_data =>
          match raise_for_status (url alg) response with
          | Some e => except_HTTPError response response_data e
          | None => subscript "results" (results response_data)
          end
      end
  end.

(** Lines 242-366: the body of [for slicing_i in range(slicing_count)]. *)
Definition slice_cycle {Out} (alg : Algorithm Out)
    (source_departure source_arrival : option (list SearchFeature))
    (APP_ID API_KEY : string) (slicing_i : nat) : M (list ApiResult) :=
  when (bool_decide (is_Some source_departure))
    (emit (pushDebugInfo "Loading departure searches features...")) >>
  when (bool_decide (is_Some source_arrival))
    (emit (pushDebugInfo "Loading arrival searches features...")) >>
  let data := prepare_data source_departure source_arrival slicing_i in
  let* remixed := lift (processAlgorithmRemixData alg data) in
  let* env := ask in
  let data := json_dumps env remixed in
  emit (pushDebugInfo "Checking API limit warnings...") >>
  api_limit_loop (seq 0 retries) >>
  make_request alg APP_ID API_KEY data.

(** The slices loop over what is left of [range(slicing_count)];
    [results += response_data['results']]. *)
Fixpoint slices_loop {Out} (alg : Algorithm Out)
    (source_departure source_arrival : option (list SearchFeature))
    (APP_ID API_KEY : string) (range : list nat) (results : list ApiResult)
    : M (list ApiResult) :=
  match range with
  | [] => ret results
  | slicing_i :: range' =>
      let* response_results :=
        slice_cycle alg source_departure source_arrival APP_ID API_KEY slicing_i in
      slices_loop alg source_departure source_arrival APP_ID API_KEY range'
        (results ++ response_results)
  end.

(** Lines 209-371. [credentials] is what
    [auth.get_app_id_and_api_key()] returns. *)
Definition processAlgorithm {Out} (alg : Algorithm Out) (credentials : string * string)
    (source_departure source_arrival : option (list SearchFeature)) : M Out :=
  emit (pushDebugInfo "Starting TimeMapAlgorithm...") >>
  let '(APP_ID, API_KEY) := credentials in
  if py_not APP_ID || py_not API_KEY then
    emit (reportError ("You need a Travel Time Platform API key to make requests. Please head to "
                       +:+ "http://docs.traveltimeplatform.com/overview/getting-keys/"
                       +:+ " to obtain one, and enter it in the plugin's setting dialog.") true) >>
    raise (QgsProcessingException "App ID or api key not set")
  else
    let slicing_count := slicing_count source_departure source_arrival in
    when (1 <? slicing_count)
      (emit (pushInfo ("Input layers have more than " +:+ pretty slicing_size
                       +:+ " features. The query will be executed in " +:+ pretty slicing_count
                       +:+ " queries. This may have unexpected consequences on some parameters. Keep an eye on your API usage !"))) >>
    let* results := slices_loop alg source_departure source_arrival APP_ID API_KEY
                      (seq 0 slicing_count) [] in
    emit (pushDebugInfo "Loading response to layer...") >>
    emit (output_stage results) >>
    processAlgorithmOutput alg results.

(** The methods a subclass inherits when it does not override them
    (lines 373-379). *)
Definition default_algorithm (url accept_header : string) : Algorithm unit :=
  {| url := url; accept_header := accept_header;
     processAlgorithmRemixData := λ data, inr data;
     processAlgorithmOutput := λ _, ret tt |}.

End AdvancedAlgorithmBase.

(** ** Output features *)

(** A [QgsFeature] of an output layer; [None] is an unset geometry or
    a NULL attribute. *)
Record QgsFeature := {
  ft_geometry : option string;
  ft_attributes : list (option string);
}.

(** [QgsFeature(fields)]: one NULL attribute per field. *)
Definition new_feature (n_fields : nat) : QgsFeature :=
  {| ft_geometry := None; ft_attributes := replicate n_fields None |}.

Definition setAttribute (i : nat) (v : option string) (feature : QgsFeature) : QgsFeature :=
  {| ft_geometry := ft_geometry feature; ft_attributes := <[i := v]> (ft_attributes feature) |}.

Definition setGeometry (g : string) (feature : QgsFeature) : QgsFeature :=
  {| ft_geometry := Some g; ft_attributes := ft_attributes feature |}.

(** [QgsFields.append] on the names of the fields: a field whose name
    is already there is refused, and the fields stay as they are. *)
Definition QgsFields_append (name : string) (fields : list string) : list string :=
  if bool_decide (name ∈ fields) then fields else fields ++ [name].

(** ** The time-map endpoint *)

Module TimeMapAlgorithm.

Record Sinks := {
  OUTPUT_SEARCHES : list QgsFeature;
  OUTPUT_UNION : list QgsFeature;
  OUTPUT_INTER : list QgsFeature;
}.

Definition ids_of (searches : option (list Search)) : list string :=
  match searches with
  | Some l => map sd_id l
  | None => []
  end.

(** Lines 430-447. *)
Definition processAlgorithmRemixData (compute_union compute_inter : bool) (data : Data)
    : exn + Data :=
  if compute_union || compute_inter then
    let search_ids := ids_of (departure_searches data) ++ ids_of (arrival_searches data) in
    let data :=
      if compute_union then
        {| departure_searches := departure_searches data;
           arrival_searches := arrival_searches data;
           locations := locations data;
           unions := Some [{| agg_id := "union_all"; search_ids := search_ids |}];
           intersections := intersections data |}
      else data in
    let data :=
      if compute_inter then
        {| departure_searches := departure_searches data;
           arrival_searches := arrival_searches data;
           locations := locations data;
           unions := unions data;
           intersections := Some [{| agg_id := "intersection_all"; search_ids := search_ids |}] |}
      else data in
    inr data
  else inr data.

(** Lines 459-462: the feature built for one result. *)
Definition feature_of_result (result : ApiResult) : exn + QgsFeature :=
  let feature := new_feature 2 in
  let feature := setAttribute 0 (Some (search_id result)) feature in
  match properties result with
  | None => inl (KeyError "properties")
  | Some props =>
      let feature := setAttribute 1 (Some props) feature in
      match shape result with
      | None => inl (KeyError "shape")
      | Some wkt => inr (setGeometry wkt feature)
      end
  end.

(** Lines 458-470: the loop over the results, with the three sinks
    as they stand. *)
Fixpoint add_features (results : list ApiResult) (sinks : Sinks) : exn + Sinks :=
  match results with
  | [] => inr sinks
  | result :: rest =>
      match feature_of_result result with
      | inl e => inl e
      | inr feature =>
          if (search_id result =? "union_all")%string then
            add_features rest
              {| OUTPUT_SEARCHES := OUTPUT_SEARCHES sinks;
                 OUTPUT_UNION := OUTPUT_UNION sinks ++ [feature];
                 OUTPUT_INTER := OUTPUT_INTER sinks |}
          else if (search_id result =? "intersection_all")%string then
            add_features rest
              {| OUTPUT_SEARCHES := OUTPUT_SEARCHES sinks;
                 OUTPUT_UNION := OUTPUT_UNION sinks;
                 OUTPUT_INTER := OUTPUT_INTER sinks ++ [feature] |}
          else
            add_features rest
              {| OUTPUT_SEARCHES := OUTPUT_SEARCHES sinks ++ [feature];
                 OUTPUT_UNION := OUTPUT_UNION sinks;
                 OUTPUT_INTER := OUTPUT_INTER sinks |}
      end
  end.

Definition empty_sinks : Sinks :=
  {| OUTPUT_SEARCHES := []; OUTPUT_UNION := []; OUTPUT_INTER := [] |}.

(** Lines 449-483. *)
Definition processAlgorithmOutput (results : list ApiResult) : M Sinks :=
  let* sinks := lift (add_features results empty_sinks) in
  emit (pushDebugInfo "TimeMapAlgorithm done !") >>
  ret sinks.

Definition algorithm (compute_union compute_inter : bool)
    : AdvancedAlgorithmBase.Algorithm Sinks :=
  {| AdvancedAlgorithmBase.url := "https://api.traveltimeapp.com/v4/time-map";
     AdvancedAlgorithmBase.accept_header := "application/vnd.wkt+json";
     AdvancedAlgorithmBase.processAlgorithmRemixData :=
       processAlgorithmRemixData compute_union compute_inter;
     AdvancedAlgorithmBase.processAlgorithmOutput := processAlgorithmOutput |}.

End TimeMapAlgorithm.

(** ** The time-filter endpoint *)

Module TimeFilterAlgorithm.

Record Sinks := {
  OUTPUT_RESULTS : list QgsFeature;
  OUTPUT_UNREACHABLE : list QgsFeature;
}.

(** The locations source: its fields and its features. *)
Record Source := {
  fields : list string;
  getFeatures : list LocationFeature;
}.

(** Lines 563-569: one pass of the loop over the departure searches;
    the search is returned as the pass leaves it. *)
Definition remix_departure_search (all_locations_ids : list string)
    (departure_search : Search) : exn + (Location * Search) :=
  match sd_coords departure_search with
  | None => inl (KeyError "coords")
  | Some c =>
      inr ({| loc_id := sd_id departure_search; loc_coords := c |},
           {| sd_id := sd_id departure_search;
              sd_coords := None;
              sd_transportation := sd_transportation departure_search;
              sd_time := sd_time departure_search;
              sd_travel_time := sd_travel_time departure_search;
              sd_properties := sd_properties departure_search;
              departure_location_id := Some (sd_id departure_search);
              arrival_location_ids := Some all_locations_ids;
              arrival_location_id := arrival_location_id departure_search;
              departure_location_ids := departure_location_ids departure_search |})
  end.

(** Lines 572-578, for an arrival search. *)
Definition remix_arrival_search (all_locations_ids : list string)
    (arrival_search : Search) : exn + (Location * Search) :=
  match sd_coords arrival_search with
  | None => inl (KeyError "coords")
  | Some c =>
      inr ({| loc_id := sd_id arrival_search; loc_coords := c |},
           {| sd_id := sd_id arrival_search;
              sd_coords := None;
              sd_transportation := sd_transportation arrival_search;
              sd_time := sd_time arrival_search;
              sd_travel_time := sd_travel_time arrival_search;
              sd_properties := sd_properties arrival_search;
              departure_location_id := departure_location_id arrival_search;
              arrival_location_ids := arrival_location_ids arrival_search;
              arrival_location_id := Some (sd_id arrival_search);
              departure_location_ids := Some all_locations_ids |})
  end.

(** A loop [for search in searches] that appends to
    [data['locations']] and edits the search in place. *)
Fixpoint remix_searches (pass : Search → exn + (Location * Search))
    (data_locations : list Location) (searches : list Search)
    : exn + (list Location * list Search) :=
  match searches with
  | [] => inr (data_locations, [])
  | search :: rest =>
      match pass search with
      | inl e => inl e
      | inr (location, search') =>
          match remix_searches pass (data_locations ++ [location]) rest with
          | inl e => inl e
          | inr (data_locations', rest') => inr (data_locations', search' :: rest')
          end
      end
  end.

Definition remix_side (pass : Search → exn + (Location * Search))
    (data_locations : list Location) (searches : option (list Search))
    : exn + (list Location * option (list Search)) :=
  match searches with
  | None => inr (data_locations, None)
  | Some l =>
      match remix_searches pass data_locations l with
      | inl e => inl e
      | inr (data_locations', l') => inr (data_locations', Some l')
      end
  end.

(** Lines 540-580. *)
Definition processAlgorithmRemixData (locations_source : Source) (data : Data)
    : exn + Data :=
  let data_locations :=
    map (λ feature, {| loc_id := INPUT_LOCATIONS_ID feature;
                       loc_coords := location_point feature |})
        (getFeatures locations_source) in
  let all_locations_ids := map loc_id data_locations in
  match remix_side (remix_departure_search all_locations_ids) data_locations
          (departure_searches data) with
  | inl e => inl e
  | inr (data_locations, departures) =>
      match remix_side (remix_arrival_search all_locations_ids) data_locations
              (arrival_searches data) with
      | inl e => inl e
      | inr (data_locations, arrivals) =>
          inr {| departure_searches := departures;
                 arrival_searches := arrivals;
                 locations := Some data_locations;
                 unions := unions data;
                 intersections := intersections data |}
      end
  end.

(** What the lookup takes from QGIS: [id_expr] is the text of the
    parameter [INPUT_LOCATIONS_ID], and [yields text f] is whether a
    request on the locations layer with the filter expression [text]
    yields the feature [f]; a text that is not an expression yields
    no feature. *)
Record Lookup := {
  id_expr : string;
  yields : string → LocationFeature → bool;
}.

(** Lines 601-608: the id is put between quotes as it is in the text
    of the filter expression, and the first feature the request
    yields is returned, or [None]. *)
Definition get_location_feature (lookup : Lookup) (locations_source : Source) (id_ : string)
    : option LocationFeature :=
  let expression := id_expr lookup +:+ " = '" +:+ id_ +:+ "'" in
  find (yields lookup expression) (getFeatures locations_source).

(** Lines 616-617 and 626-627: [for i in range(len(locations.fields()))]. *)
Definition copy_attributes (locations_source : Source) (base_ft : LocationFeature)
    (feature : QgsFeature) : QgsFeature :=
  foldl (λ feature i, setAttribute i (attributes base_ft !! i) feature)
        feature (seq 0 (length (fields locations_source))).

(** Lines 585-590: the fields of the two sinks. [locations.fields()]
    is a copy at each call; the fields [search_id] and [properties]
    are appended to it, unless the layer has a field of that name
    already. *)
Definition output_rslts_fields (locations_source : Source) : list string :=
  QgsFields_append "properties" (QgsFields_append "search_id" (fields locations_source)).

Definition output_unrch_fields (locations_source : Source) : list string :=
  QgsFields_append "search_id" (fields locations_source).

(** Lines 612-620: one reached location of a result. *)
Definition reached_feature (lookup : Lookup) (locations_source : Source) (result : ApiResult)
    (location : LocationResult) : exn + QgsFeature :=
  let n := length (output_rslts_fields locations_source) in
  let feature := new_feature n in
  match get_location_feature lookup locations_source (lr_id location) with
  | None => inl AssertionError
  | Some base_ft =>
      let feature := setGeometry (geometry base_ft) feature in
      let feature := copy_attributes locations_source base_ft feature in
      let feature := setAttribute (n - 2) (Some (search_id result)) feature in
      match lr_properties location with
      | None => inl (KeyError "properties")
      | Some props => inr (setAttribute (n - 1) (Some props) feature)
      end
  end.

(** Lines 622-629: one unreachable id of a result. *)
Definition unreachable_feature (lookup : Lookup) (locations_source : Source)
    (result : ApiResult) (id_ : string) : exn + QgsFeature :=
  let n := length (output_unrch_fields locations_source) in
  let feature := new_feature n in
  match get_location_feature lookup locations_source id_ with
  | None => inl AssertionError
  | Some base_ft =>
      let feature := setGeometry (geometry base_ft) feature in
      let feature := copy_attributes locations_source base_ft feature in
      inr (setAttribute (n - 1) (Some (search_id result)) feature)
  end.

(** A loop that adds one feature per element to a sink. *)
Fixpoint add_each {A} (make : A → exn + QgsFeature) (l : list A) (sink : list QgsFeature)
    : exn + list QgsFeature :=
  match l with
  | [] => inr sink
  | a :: rest =>
      match make a with
      | inl e => inl e
      | inr feature => add_each make rest (sink ++ [feature])
      end
  end.

(** Lines 610-629. *)
Fixpoint add_features (lookup : Lookup) (locations_source : Source)
    (results : list ApiResult) (sinks : Sinks) : exn + Sinks :=
  match results with
  | [] => inr sinks
  | result :: rest =>
      match res_locations result with
      | None => inl (KeyError "locations")
      | Some result_locations =>
          match add_each (reached_feature lookup locations_source result) result_locations
                  (OUTPUT_RESULTS sinks) with
          | inl e => inl e
          | inr sink =>
              match unreachable result with
              | None => inl (KeyError "unreachable")
              | Some ids =>
                  match add_each (unreachable_feature lookup locations_source result) ids
                          (OUTPUT_UNREACHABLE sinks) with
                  | inl e => inl e
                  | inr unreachable_sink =>
                      add_features lookup locations_source rest
                        {| OUTPUT_RESULTS := sink; OUTPUT_UNREACHABLE := unreachable_sink |}
                  end
              end
          end
      end
  end.

Definition empty_sinks : Sinks := {| OUTPUT_RESULTS := []; OUTPUT_UNREACHABLE := [] |}.

(** Lines 582-640. *)
Definition processAlgorithmOutput (lookup : Lookup) (locations_source : Source)
    (results : list ApiResult) : M Sinks :=
  let* sinks := lift (add_features lookup locations_source results empty_sinks) in
  emit (pushDebugInfo "TimeFilterAlgorithm done !") >>
  ret sinks.

Definition algorithm (lookup : Lookup) (locations_source : Source)
    : AdvancedAlgorithmBase.Algorithm Sinks :=
  {| AdvancedAlgorithmBase.url := "https://api.traveltimeapp.com/v4/time-filter";
     AdvancedAlgorithmBase.accept_header := "application/json";
     AdvancedAlgorithmBase.processAlgorithmRemixData :=
       processAlgorithmRemixData locations_source;
     AdvancedAlgorithmBase.processAlgorithmOutput :=
       processAlgorithmOutput lookup locations_source |}.

End TimeFilterAlgorithm.

(** ** The request helper of [algorithms/base.py] *)

Module AlgorithmBase.

(** The class attributes of the algorithm, and what the function
    takes from modules outside the source: the constants of
    [constants], the QGIS version and the value of the setting
    [traveltime_platform/custom_endpoint] (a string, with
    [constants.DEFAULT_ENDPOINT] as its default). *)
Record Config := {
  method : string;
  url : string;
  accept_header : string;
  QGIS_VERSION_INT : Z;
  TTP_VERSION : string;
  endpoint : string;
}.

Definition headers (cfg : Config) (APP_ID API_KEY : string) : list (string * string) :=
  [("Content-type", "application/json");
   ("Accept", accept_header cfg);
   ("User-Agent", "QGIS / " +:+ pretty (QGIS_VERSION_INT cfg) +:+ " / " +:+ TTP_VERSION cfg);
   ("X-Application-Id", APP_ID);
   ("X-Api-Key", API_KEY)].

(** [d[key]] on a dictionary of strings that holds [key]. *)
Fixpoint dict_get (key : string) (d : list (string * string)) : string :=
  match d with
  | [] => ""
  | (k, v) :: rest => if (k =? key)%string then v else dict_get key rest
  end.

(** [d[key] = v] on a dictionary that holds [key]: the entry keeps
    its place. *)
Fixpoint dict_set (key v : string) (d : list (string * string)) : list (string * string) :=
  match d with
  | [] => [(key, v)]
  | (k, v0) :: rest =>
      if (k =? key)%string then (k, v) :: rest else (k, v0) :: dict_set key v rest
  end.

(** Lines 182-186: [dict(headers)] is a copy, so the edits leave
    [headers] as it is. *)
Definition headers_for_logs (headers : list (string * string)) : list (string * string) :=
  let headers_for_logs := headers in
  let headers_for_logs :=
    if negb (py_not (dict_get "X-Application-Id" headers_for_logs))
    then dict_set "X-Application-Id" "*hidden*" headers_for_logs
    else headers_for_logs in
  if negb (py_not (dict_get "X-Api-Key" headers_for_logs))
  then dict_set "X-Api-Key" "*hidden*" headers_for_logs
  else headers_for_logs.

(** The handler of [json.loads] (lines 215-221). *)
Definition except_ValueError {A} (e : string) : M A :=
  emit (reportError "Could not decode response. See log for more details." true) >>
  emit (logMessage e) >>
  raise (QgsProcessingException "Could not decode response").

(** The handler of [raise_for_status] (lines 225-246). *)
Definition except_HTTPError {A} (response : Response) (response_data : ResponseData)
    (e : string) : M A :=
  let* info := subscript "additional_info" (additional_info response_data) in
  let nice_info := String.concat NL (map (λ kv, TAB +:+ kv.1 +:+ ":" +:+ TAB +:+ kv.2) info) in
  let* code := subscript "error_code" (error_code response_data) in
  let* descr := subscript "description" (description response_data) in
  let* link := subscript "documentation_link" (documentation_link response_data) in
  emit (reportError ("Received error from the API." +:+ NL +:+ "Error code : " +:+ code +:+ NL
                     +:+ "Description : " +:+ descr +:+ NL +:+ "See : " +:+ link +:+ NL
                     +:+ "Addtionnal info :" +:+ NL +:+ nice_info) true) >>
  emit (reportError "See log for more details." true) >>
  emit (logMessage e) >>
  raise (QgsProcessingException ("Got error " +:+ pretty (status_code response) +:+ " from API")).

(** Lines 146-281. [credentials] is what
    [auth.get_app_id_and_api_key()] returns; [data] is [None] or a
    payload. The session is called outside any [try], so its
    exception leaves the function as it is; the two last handlers of
    the [try] around [raise_for_status] can never run. *)
Definition processAlgorithmMakeRequest (cfg : Config) (credentials : string * string)
    (data : option Data) (params : list (string * string)) : M ResponseData :=
  let* env := ask in
  let json_data := match data with Some d => json_dumps env d | None => "null" end in
  let '(APP_ID, API_KEY) := credentials in
  if py_not APP_ID || py_not API_KEY then
    emit (reportError ("You need a TravelTime platform API key to make requests. Please head to "
                       +:+ "http://docs.traveltimeplatform.com/overview/getting-keys/"
                       +:+ " to obtain one, and enter it in the plugin's setting dialog.") true) >>
    raise (QgsProcessingException "App ID or api key not set")
  else
    let headers := headers cfg APP_ID API_KEY in
    let full_url := endpoint cfg +:+ url cfg in
    emit (pushDebugInfo "Making request to API endpoint...") >>
    let* s := QSettings in
    let print_query := py_bool (value s "traveltime_platform/log_calls" (QBool false)) in
    when print_query
      (emit (logMessage "Making request") >>
       emit (logMessage ("url: " +:+ full_url)) >>
       emit (logMessage ("headers: " +:+ py_str_dict (headers_for_logs headers))) >>
       emit (logMessage ("params: " +:+ py_str_dict params)) >>
       emit (logMessage ("data: " +:+ json_data))) >>
    let* s := QSettings in
    let disable_https := py_bool (value s "traveltime_platform/disable_https" (QBool false)) in
    when disable_https
      (emit (pushInfo "Warning ! HTTPS certificate verification is disabled. This means all data sent to the API can potentially be intercepted by an attacker.")) >>
    let* requested := cached_requests
        {| rq_method := method cfg; rq_url := full_url; rq_headers := headers;
           rq_params := params; rq_data := json_data; rq_verify := negb disable_https |} in
    match requested with
    | inl e => raise (RequestException e)
    | inr response =>
        match json_loads env (text response) with
        | inl e => except_ValueError e
        | inr response_data =>
            match raise_for_status full_url response with
            | Some e => except_HTTPError response response_data e
            | None =>
                (if from_cache response
                 then emit (pushDebugInfo "Got response from cache...")
                 else
                   emit (pushDebugInfo "Got response from API endpoint...") >>
                   let* s := QSettings in
                   QSettings_setValue "traveltime_platform/current_count"
                     (QInt (py_int (value s "traveltime_platform/current_count" (QInt 0)) + 1))) >>
                when print_query
                  (emit (logMessage "Got response") >>
                   emit (logMessage ("status: " +:+ pretty (status_code response))) >>
                   emit (logMessage ("reason: " +:+ reason response)) >>
                   emit (logMessage ("text: " +:+ text response))) >>
                ret response_data
            end
        end
    end.

End AlgorithmBase.

(** ** The parameters the algorithms declare ([initAlgorithm]) *)

(** [str.lower] and [str.title] on ASCII strings. *)
Definition is_upper (c : Ascii.ascii) : bool :=
  (65 <=? Ascii.nat_of_ascii c) && (Ascii.nat_of_ascii c <=? 90).

Definition is_lower (c : Ascii.ascii) : bool :=
  (97 <=? Ascii.nat_of_ascii c) && (Ascii.nat_of_ascii c <=? 122).

Definition to_lower (c : Ascii.ascii) : Ascii.ascii :=
  if is_upper c then Ascii.ascii_of_nat (Ascii.nat_of_ascii c + 32) else c.

Definition to_upper (c : Ascii.ascii) : Ascii.ascii :=
  if is_lower c then Ascii.ascii_of_nat (Ascii.nat_of_ascii c - 32) else c.

Fixpoint str_lower (s : string) : string :=
  match s with
  | EmptyString => EmptyString
  | String c rest => String (to_lower c) (str_lower rest)
  end.

Fixpoint str_title_from (previous_is_cased : bool) (s : string) : string :=
  match s with
  | EmptyString => EmptyString
  | String c rest =>
      if is_lower c then
        String (if previous_is_cased then c else to_upper c) (str_title_from true rest)
      else if is_upper c then
        String (if previous_is_cased then to_lower c else c) (str_title_from true rest)
      else String c (str_title_from false rest)
  end.

Definition str_title (s : string) : string := str_title_from false s.

Module Declarations.

Inductive layer_type := TypeVectorPoint | TypeVectorPolygon | TypeVectorAnyGeometry.

Inductive default_value := DString (s : string) | DBool (b : bool).

(** The QGIS class of a definition, with the arguments that are
    proper to the class. *)
Inductive parameter_class :=
| QgsProcessingParameterFeatureSource (types : list layer_type)
| QgsProcessingParameterExpression (parentLayerParameterName : string)
| QgsProcessingParameterBoolean
| QgsProcessingParameterFeatureSink (type : layer_type).

(** A definition as [initAlgorithm] hands it to [addParameter];
    [FlagAdvanced] is the flag [addAdvancedParamter] sets. *)
Record ParameterDefinition := {
  class : parameter_class;
  name : string;
  description : string;
  optional : bool;
  defaultValue : option default_value;
  FlagAdvanced : bool;
}.

(** [p.type()] for the QGIS classes above. *)
Definition type (p : ParameterDefinition) : string :=
  match class p with
  | QgsProcessingParameterFeatureSource _ => "source"
  | QgsProcessingParameterExpression _ => "expression"
  | QgsProcessingParameterBoolean => "boolean"
  | QgsProcessingParameterFeatureSink _ => "sink"
  end.

(** [addAdvancedParamter] (lines 99-102). *)
Definition addAdvancedParamter (p : ParameterDefinition) : ParameterDefinition :=
  {| class := class p; name := name p; description := description p;
     optional := optional p; defaultValue := defaultValue p; FlagAdvanced := true |}.

Definition expression_parameter (DEPARR suffix label default : string) : ParameterDefinition :=
  {| class := QgsProcessingParameterExpression ("INPUT_" +:+ DEPARR +:+ "_SEARCHES");
     name := "INPUT_" +:+ DEPARR +:+ suffix;
     description := str_title DEPARR +:+ label;
     optional := true;
     defaultValue := Some (DString default);
     FlagAdvanced := false |}.

(** One pass of the loop of [AdvancedAlgorithmBase.initAlgorithm]
    (lines 123-200); [now_iso] is what [utils.now_iso()] returns. *)
Definition searches_parameters (now_iso : string) (DEPARR : string) : list ParameterDefinition :=
  [ {| class := QgsProcessingParameterFeatureSource [TypeVectorPoint];
       name := "INPUT_" +:+ DEPARR +:+ "_SEARCHES";
       description := str_title DEPARR +:+ " / Searches";
       optional := true; defaultValue := None; FlagAdvanced := false |};
    expression_parameter DEPARR "_ID" " / ID" ("'" +:+ str_lower DEPARR +:+ "_searches_' || $id");
    expression_parameter DEPARR "_TRNSPT_TYPE" " / Transportation / type" "'walking'";
    addAdvancedParamter
      (expression_parameter DEPARR "_TRNSPT_PT_CHANGE_DELAY"
         " / Transportation / change delay" "0");
    addAdvancedParamter
      (expression_parameter DEPARR "_TRNSPT_WALKING_TIME"
         " / Transportation / walking time" "900");
    addAdvancedParamter
      (expression_parameter DEPARR "_TRNSPT_DRIVING_TIME_TO_STATION"
         " / Transportation / driving time to station" "1800");
    addAdvancedParamter
      (expression_parameter DEPARR "_TRNSPT_PARKING_TIME"
         " / Transportation / parking time" "300");
    addAdvancedParamter
      (expression_parameter DEPARR "_TRNSPT_BOARDING_TIME"
         " / Transportation / boarding time" "0");
    addAdvancedParamter
      (expression_parameter DEPARR "_RANGE_WIDTH" " / Search range width " "null");
    expression_parameter DEPARR "_TIME" " / Time" ("'" +:+ now_iso +:+ "'");
    expression_parameter DEPARR "_TRAVEL_TIME" " / Travel time" "900" ].

(** The calls of [addParameter] each [initAlgorithm] makes, in order. *)
Definition AdvancedAlgorithmBase_initAlgorithm (now_iso : string) : list ParameterDefinition :=
  concat (map (searches_parameters now_iso) ["DEPARTURE"; "ARRIVAL"]).

Definition sink_parameter (name description : string) (type : layer_type) : ParameterDefinition :=
  {| class := QgsProcessingParameterFeatureSink type;
     name := name; description := description;
     optional := false; defaultValue := None; FlagAdvanced := false |}.

(** Lines 394-428. *)
Definition TimeMapAlgorithm_initAlgorithm (now_iso : string) : list ParameterDefinition :=
  AdvancedAlgorithmBase_initAlgorithm now_iso
  ++ [ {| class := QgsProcessingParameterBoolean;
          name := "INPUT_CALC_UNION"; description := "Compute union aggregation";
          optional := true; defaultValue := Some (DBool false); FlagAdvanced := false |};
       {| class := QgsProcessingParameterBoolean;
          name := "INPUT_CALC_INTER"; description := "Compute intersection aggregation";
          optional := true; defaultValue := Some (DBool false); FlagAdvanced := false |};
       sink_parameter "OUTPUT_SEARCHES" "Output - searches layer" TypeVectorPolygon;
       sink_parameter "OUTPUT_UNION" "Output - union layer" TypeVectorPolygon;
       sink_parameter "OUTPUT_INTER" "Output - intersection layer" TypeVectorPolygon ].

(** Lines 508-538. *)
Definition TimeFilterAlgorithm_initAlgorithm (now_iso : string) : list ParameterDefinition :=
  AdvancedAlgorithmBase_initAlgorithm now_iso
  ++ [ {| class := QgsProcessingParameterFeatureSource [TypeVectorPoint];
          name := "INPUT_LOCATIONS"; description := "Locations";
          optional := false; defaultValue := None; FlagAdvanced := false |};
       {| class := QgsProcessingParameterExpression "INPUT_LOCATIONS";
          name := "INPUT_LOCATIONS_ID"; description := "Locations ID";
          optional := true; defaultValue := Some (DString "'locations_' || $id");
          FlagAdvanced := false |};
       sink_parameter "OUTPUT_RESULTS" "Results" TypeVectorPoint;
       sink_parameter "OUTPUT_UNREACHABLE" "Unreachable" TypeVectorAnyGeometry ].

(** Lines 224-228: the keys of [self.expressions]. *)
Definition expressions (parameterDefinitions : list ParameterDefinition) : list string :=
  map name (filter (λ p, type p = "expression") parameterDefinitions).

(** Lines 269-287: the keys the payload of a side evaluates for each
    feature, in the order of the dictionary. *)
Definition evaluated (DEPARR : string) : list string :=
  map (λ suffix, "INPUT_" +:+ DEPARR +:+ suffix)
      ["_ID"; "_TRNSPT_TYPE"; "_TRNSPT_PT_CHANGE_DELAY"; "_TRNSPT_WALKING_TIME";
       "_TRNSPT_DRIVING_TIME_TO_STATION"; "_TRNSPT_PARKING_TIME"; "_TRNSPT_BOARDING_TIME";
       "_TIME"; "_TRAVEL_TIME"].

End Declarations.

(** ** The simplified algorithms *)

(** [l[i]] on a list: a negative index counts from the end, and
    [None] is the [IndexError] of an index out of range. *)
Definition py_getitem {A} (l : list A) (i : Z) : option A :=
  if (0 <=? i)%Z then l !! Z.to_nat i
  else if (- Z.of_nat (length l) <=? i)%Z then l !! Z.to_nat (Z.of_nat (length l) + i)
  else None.

Definition TRANSPORTATION_TYPES : list string :=
  ["cycling"; "driving"; "driving+train"; "public_transport"; "walking"; "coach"; "bus";
   "train"; "ferry"; "driving+ferry"; "cycling+ferry"].

Module Simplified.

(** What a simplified algorithm ends with when it fails: the
    [IndexError] of one of its three list lookups, or the exception
    the sub-algorithm let out. *)
Inductive failure := IndexError | Raised (e : exn).

(** A value of the [sub_parameters] dictionary. *)
Inductive value (Layer : Type) :=
| VLayer (layer : Layer)
| VStr (s : string)
| VBool (b : bool).
Arguments VLayer {Layer}.
Arguments VStr {Layer}.
Arguments VBool {Layer}.

(** The effects of a simplified algorithm: what it pushes to the
    feedback, and how it ends. *)
Definition F (A : Type) : Type := (failure + A) * list event.

Definition pure {A} (a : A) : F A := (inr a, []).

Definition fail {A} (e : failure) : F A := (inl e, []).

Definition and_then {A B} (m : F A) (k : A → F B) : F B :=
  match m with
  | (inl e, t) => (inl e, t)
  | (inr a, t) => (fst (k a), t ++ snd (k a))
  end.

Definition pushDebugInfo_ (msg : string) : F unit := (inr tt, [pushDebugInfo msg]).

(** The dictionary passes [True] under the key [flag]. *)
Definition passes_true {Layer} (flag : string) (sub : list (string * value Layer)) : bool :=
  existsb (λ kv, (kv.1 =? flag)%string
                 && match kv.2 with VBool b => b | _ => false end) sub.

Definition getitem {A} (l : list A) (i : Z) : F A :=
  match py_getitem l i with
  | Some a => pure a
  | None => fail IndexError
  end.

End Simplified.

Notation "'let+' x := m 'in' k" := (Simplified.and_then m (λ x, k))
  (at level 10, x name, m at level 200, k at level 200, only parsing).
Notation "m >>+ k" := (Simplified.and_then m (λ _, k))
  (at level 62, right associativity, only parsing).

Module TimeMapSimpleAlgorithm.

Import Simplified.

Definition SEARCH_TYPES : list string := ["DEPARTURE"; "ARRIVAL"].
Definition RESULT_TYPE : list string := ["NORMAL"; "UNION"; "INTERSECTION"].

(** What the accessors [parameterAsEnum], [parameterAsSource] (once
    materialized), [parameterAsString] and [parameterAsInt] give for
    the parameters of a run. *)
Record Inputs (Layer : Type) := {
  INPUT_SEARCHES : Layer;
  INPUT_SEARCH_TYPE : Z;
  INPUT_TRNSPT_TYPE : Z;
  INPUT_TIME : string;
  INPUT_TRAVEL_TIME : Z;
  INPUT_RESULT_TYPE : Z;
}.
Arguments INPUT_SEARCHES {Layer}.
Arguments INPUT_SEARCH_TYPE {Layer}.
Arguments INPUT_TRNSPT_TYPE {Layer}.
Arguments INPUT_TIME {Layer}.
Arguments INPUT_TRAVEL_TIME {Layer}.
Arguments INPUT_RESULT_TYPE {Layer}.

(** The dictionary [processing.run] returns for [ttp_v4:time_map]. *)
Record Results (Layer : Type) := {
  OUTPUT_SEARCHES : Layer;
  OUTPUT_UNION : Layer;
  OUTPUT_INTER : Layer;
}.
Arguments OUTPUT_SEARCHES {Layer}.
Arguments OUTPUT_UNION {Layer}.
Arguments OUTPUT_INTER {Layer}.

(** Lines 707-718. *)
Definition sub_parameters {Layer} (parameters : Inputs Layer)
    (mode trnspt_type result_type : string) : list (string * value Layer) :=
  [("INPUT_" +:+ mode +:+ "_SEARCHES", VLayer (INPUT_SEARCHES parameters));
   ("INPUT_" +:+ mode +:+ "_TRNSPT_TYPE", VStr ("'" +:+ trnspt_type +:+ "'"));
   ("INPUT_" +:+ mode +:+ "_TIME", VStr ("'" +:+ INPUT_TIME parameters +:+ "'"));
   ("INPUT_" +:+ mode +:+ "_TRAVEL_TIME", VStr (pretty (INPUT_TRAVEL_TIME parameters * 60)%Z));
   ("INPUT_" +:+ mode +:+ "_TRNSPT_WALKING_TIME",
    VStr (pretty (INPUT_TRAVEL_TIME parameters * 60)%Z));
   ("INPUT_CALC_UNION", VBool (result_type =? "UNION")%string);
   ("INPUT_CALC_INTER", VBool (result_type =? "INTERSECTION")%string);
   ("OUTPUT_SEARCHES", VStr "memory:results");
   ("OUTPUT_UNION", VStr "memory:union");
   ("OUTPUT_INTER", VStr "memory:inter")].

(** Lines 697-748. [processing_run] is [processing.run] with the
    feedback of the caller, and [str] is Python's [str] on the
    dictionary; the layer returned is the one whose features are
    copied to the sink [OUTPUT]. *)
Definition processAlgorithm {Layer}
    (processing_run : string → list (string * value Layer) → (exn + Results Layer) * list event)
    (str : list (string * value Layer) → string)
    (parameters : Inputs Layer) : F Layer :=
  pushDebugInfo_ "Starting TimeMapSimpleAlgorithm..." >>+
  let+ mode := getitem SEARCH_TYPES (INPUT_SEARCH_TYPE parameters) in
  let+ trnspt_type := getitem TRANSPORTATION_TYPES (INPUT_TRNSPT_TYPE parameters) in
  let+ result_type := getitem RESULT_TYPE (INPUT_RESULT_TYPE parameters) in
  let sub_parameters := sub_parameters parameters mode trnspt_type result_type in
  pushDebugInfo_ "Calling subcommand with following parameters..." >>+
  pushDebugInfo_ (str sub_parameters) >>+
  let+ results :=
    match processing_run "ttp_v4:time_map" sub_parameters with
    | (inl e, t) => (inl (Raised e), t)
    | (inr results, t) => (inr results, t)
    end in
  pushDebugInfo_ "Got results fom subcommand..." >>+
  let result_layer :=
    if (result_type =? "UNION")%string then OUTPUT_UNION results
    else if (result_type =? "INTERSECTION")%string then OUTPUT_INTER results
    else OUTPUT_SEARCHES results in
  pushDebugInfo_ "Copying results to layer..." >>+
  pushDebugInfo_ "TimeMapSimpleAlgorithm done !" >>+
  pure result_layer.

End TimeMapSimpleAlgorithm.

Module TimeFilterSimpleAlgorithm.

Import Simplified.

Definition SEARCH_TYPES : list string := ["DEPARTURE"; "ARRIVAL"].

Record Inputs (Layer : Type) := {
  INPUT_SEARCHES : Layer;
  INPUT_SEARCH_TYPE : Z;
  INPUT_TRNSPT_TYPE : Z;
  INPUT_TIME : string;
  INPUT_TRAVEL_TIME : Z;
  INPUT_LOCATIONS : Layer;
}.
Arguments INPUT_SEARCHES {Layer}.
Arguments INPUT_SEARCH_TYPE {Layer}.
Arguments INPUT_TRNSPT_TYPE {Layer}.
Arguments INPUT_TIME {Layer}.
Arguments INPUT_TRAVEL_TIME {Layer}.
Arguments INPUT_LOCATIONS {Layer}.

(** The dictionary [processing.run] returns for [ttp_v4:time_filter]. *)
Record Results (Layer : Type) := {
  OUTPUT_RESULTS : Layer;
  OUTPUT_UNREACHABLE : Layer;
}.
Arguments OUTPUT_RESULTS {Layer}.
Arguments OUTPUT_UNREACHABLE {Layer}.

(** Lines 827-836. *)
Definition sub_parameters {Layer} (parameters : Inputs Layer)
    (mode trnspt_type : string) : list (string * value Layer) :=
  [("INPUT_" +:+ mode +:+ "_SEARCHES", VLayer (INPUT_SEARCHES parameters));
   ("INPUT_" +:+ mode +:+ "_TRNSPT_TYPE", VStr ("'" +:+ trnspt_type +:+ "'"));
   ("INPUT_" +:+ mode +:+ "_TIME", VStr ("'" +:+ INPUT_TIME parameters +:+ "'"));
   ("INPUT_" +:+ mode +:+ "_TRAVEL_TIME", VStr (pretty (INPUT_TRAVEL_TIME parameters * 60)%Z));
   ("INPUT_" +:+ mode +:+ "_TRNSPT_WALKING_TIME",
    VStr (pretty (INPUT_TRAVEL_TIME parameters * 60)%Z));
   ("INPUT_LOCATIONS", VLayer (INPUT_LOCATIONS parameters));
   ("OUTPUT_RESULTS", VStr "memory:results");
   ("OUTPUT_UNREACHABLE", VStr "memory:unreachable")].

(** Lines 817-859. *)
Definition processAlgorithm {Layer}
    (processing_run : string → list (string * value Layer) → (exn + Results Layer) * list event)
    (str : list (string * value Layer) → string)
    (parameters : Inputs Layer) : F Layer :=
  pushDebugInfo_ "Starting TimeFilterSimpleAlgorithm..." >>+
  let+ mode := getitem SEARCH_TYPES (INPUT_SEARCH_TYPE parameters) in
  let+ trnspt_type := getitem TRANSPORTATION_TYPES (INPUT_TRNSPT_TYPE parameters) in
  let sub_parameters := sub_parameters parameters mode trnspt_type in
  pushDebugInfo_ "Calling subcommand with following parameters..." >>+
  pushDebugInfo_ (str sub_parameters) >>+
  let+ results :=
    match processing_run "ttp_v4:time_filter" sub_parameters with
    | (inl e, t) => (inl (Raised e), t)
    | (inr results, t) => (inr results, t)
    end in
  pushDebugInfo_ "Got results fom subcommand..." >>+
  let result_layer := OUTPUT_RESULTS results in
  pushDebugInfo_ "Copying results to layer..." >>+
  pushDebugInfo_ "TimeMapSimpleAlgorithm done !" >>+
  pure result_layer.

End TimeFilterSimpleAlgorithm.

(** ** The helpers of [AlgorithmBase] in [algorithms/base.py] *)

Module AlgorithmBaseHelpers.

(** [d[key] = v] and [d.get(key)] on an ordered dictionary: an entry
    that exists keeps its place, a new one goes to the end. *)
Fixpoint odict_set {V} (key : string) (v : V) (d : list (string * V)) : list (string * V) :=
  match d with
  | [] => [(key, v)]
  | (k, v0) :: rest =>
      if (k =? key)%string then (k, v) :: rest else (k, v0) :: odict_set key v rest
  end.

Fixpoint odict_get {V} (key : string) (d : list (string * V)) : option V :=
  match d with
  | [] => None
  | (k, v) :: rest => if (k =? key)%string then Some v else odict_get key rest
  end.

(** What the helpers read of a [QgsProcessingParameterDefinition]. *)
Record QgsParameter := {
  name : string;
  description : string;
  type : string;
  dataType_is_Integer : bool;
  flags : Z;
}.

Definition setFlags (flags : Z) (p : QgsParameter) : QgsParameter :=
  {| name := name p; description := description p; type := type p;
     dataType_is_Integer := dataType_is_Integer p; flags := flags |}.

(** The accessors of QGIS the type switch calls. *)
Inductive accessor :=
| parameterAsExpression | parameterAsSource | parameterAsEnum | parameterAsBool
| parameterAsString | parameterAsFields | parameterAsPoint | parameterAsInt
| parameterAsDouble.

(** QGIS, as far as the helpers use it, over the values [QVal] it
    hands out: the flag constant, [addParameter] of the parent class
    on the list of definitions, the accessors on the parameter of a
    name, the expression built and prepared from a text, the truth
    value of a point, its transformation to EPSG:4326 from the CRS
    of the parameter, and [evaluate], which only an expression has. *)
Record Qgis (QVal : Type) := {
  FlagAdvanced : Z;
  super_addParameter : list QgsParameter → QgsParameter → bool * list QgsParameter;
  parameterAs : accessor → string → QVal;
  QgsExpression : QVal → QVal;
  truth : QVal → bool;
  transform : string → QVal → QVal;
  evaluate : QVal → option QVal;
}.
Arguments FlagAdvanced {QVal}.
Arguments super_addParameter {QVal}.
Arguments parameterAs {QVal}.
Arguments QgsExpression {QVal}.
Arguments truth {QVal}.
Arguments transform {QVal}.
Arguments evaluate {QVal}.

(** The instance: [params] is unset until the parameters are
    configured. *)
Record Self (QVal : Type) := {
  _shortHelpString : string;
  parameters_help : bool → list (string * option string);
  parameterDefinitions : list QgsParameter;
  params : option (list (string * QVal));
}.
Arguments _shortHelpString {QVal}.
Arguments parameters_help {QVal}.
Arguments parameterDefinitions {QVal}.
Arguments params {QVal}.

Inductive error :=
| Exception (msg : string)
| AttributeError.

(** Lines 53-58. *)
Definition __init__ {QVal} (_shortHelpString : string) : Self QVal :=
  {| _shortHelpString := _shortHelpString;
     parameters_help := λ _, [];
     parameterDefinitions := [];
     params := None |}.

(** Lines 60-68. *)
Definition addParameter {QVal} (qgis : Qgis QVal) (parameter : QgsParameter)
    (advanced : bool) (help_text : option string) (self : Self QVal) : bool * Self QVal :=
  let parameter :=
    if advanced then setFlags (Z.lor (flags parameter) (FlagAdvanced qgis)) parameter
    else parameter in
  let parameters_help :=
    λ b, if Bool.eqb b advanced
         then odict_set (description parameter) help_text (parameters_help self b)
         else parameters_help self b in
  let added := super_addParameter qgis (parameterDefinitions self) parameter in
  (added.1,
   {| _shortHelpString := _shortHelpString self;
      parameters_help := parameters_help;
      parameterDefinitions := added.2;
      params := params self |}).

(** Lines 70-73. *)
Definition has_param {QVal} (key : string) (self : Self QVal) : bool :=
  existsb (λ p, (name p =? key)%string) (parameterDefinitions self).

(** Lines 75-82; [None] is Python's [None]. *)
Definition eval_expr {QVal} (qgis : Qgis QVal) (key : string) (self : Self QVal)
    : error + option QVal :=
  match params self with
  | None => inl AttributeError
  | Some d =>
      match odict_get key d with
      | Some param =>
          match evaluate qgis param with
          | Some v => inr (Some v)
          | None => inl AttributeError
          end
      | None => inr None
      end
  end.

(** Lines 103-142: the value the type switch computes for a
    definition; [inr None] is the [continue] of a sink. *)
Definition configure_param {QVal} (qgis : Qgis QVal) (p : QgsParameter)
    : error + option QVal :=
  if (type p =? "expression")%string then
    inr (Some (QgsExpression qgis (parameterAs qgis parameterAsExpression (name p))))
  else if (type p =? "source")%string then
    inr (Some (parameterAs qgis parameterAsSource (name p)))
  else if (type p =? "enum")%string then
    inr (Some (parameterAs qgis parameterAsEnum (name p)))
  else if (type p =? "boolean")%string then
    inr (Some (parameterAs qgis parameterAsBool (name p)))
  else if (type p =? "string")%string then
    inr (Some (parameterAs qgis parameterAsString (name p)))
  else if (type p =? "ttp_datetime")%string then
    inr (Some (parameterAs qgis parameterAsString (name p)))
  else if (type p =? "field")%string then
    inr (Some (parameterAs qgis parameterAsFields (name p)))
  else if (type p =? "point")%string then
    let param := parameterAs qgis parameterAsPoint (name p) in
    inr (Some (if truth qgis param then transform qgis (name p) param else param))
  else if (type p =? "number")%string then
    if dataType_is_Integer p
    then inr (Some (parameterAs qgis parameterAsInt (name p)))
    else inr (Some (parameterAs qgis parameterAsDouble (name p)))
  else if (type p =? "sink")%string then
    inr None
  else
    inl (Exception ("Parameter type " +:+ type p +:+ " not supported [" +:+ name p +:+ "]")).

(** The loop of lines 102-144 over what is left of the definitions,
    on [self.params] as it stands. *)
Fixpoint configure_loop {QVal} (qgis : Qgis QVal) (definitions : list QgsParameter)
    (params : list (string * QVal)) : (error + unit) * list (string * QVal) :=
  match definitions with
  | [] => (inr tt, params)
  | p :: rest =>
      match configure_param qgis p with
      | inl e => (inl e, params)
      | inr None => configure_loop qgis rest params
      | inr (Some param) => configure_loop qgis rest (odict_set (name p) param params)
      end
  end.

(** Lines 98-144. *)
Definition processAlgorithmConfigureParams {QVal} (qgis : Qgis QVal) (self : Self QVal)
    : (error + unit) * Self QVal :=
  let configured := configure_loop qgis (parameterDefinitions self) [] in
  (configured.1,
   {| _shortHelpString := _shortHelpString self;
      parameters_help := parameters_help self;
      parameterDefinitions := parameterDefinitions self;
      params := Some configured.2 |}).

(** [val or "-"]. *)
Definition or_dash (val : option string) : string :=
  match val with
  | Some v => if py_not v then "-" else v
  | None => "-"
  end.

Definition help_line (entry : string * option string) : string :=
  NL +:+ "<b>" +:+ entry.1 +:+ "</b>: " +:+ or_dash entry.2.

Definition help_section (title : string) (d : list (string * option string)) : string :=
  match d with
  | [] => ""
  | _ => "<h2>" +:+ title +:+ "</h2>" +:+ String.concat "" (map help_line d)
  end.

(** Lines 339-355. *)
Definition shortHelpString {QVal} (self : Self QVal) : string :=
  let help_string := _shortHelpString self in
  let help_string :=
    help_string +:+ help_section "Parameters description" (parameters_help self false) in
  let help_string :=
    help_string
    +:+ help_section "Advanced parameters description" (parameters_help self true) in
  help_string.

(** The calls [initAlgorithm] makes, one after the other. *)
Definition addParameters {QVal} (qgis : Qgis QVal)
    (calls : list (QgsParameter * bool * option string)) (self : Self QVal) : Self QVal :=
  foldl (λ self call, (addParameter qgis call.1.1 call.1.2 call.2 self).2) self calls.

(** The types the switch knows how to read. *)
Definition supported : list string :=
  ["expression"; "source"; "enum"; "boolean"; "string"; "ttp_datetime"; "field"; "point";
   "number"].

End AlgorithmBaseHelpers.

(** ** Reading a run *)

Definition run_result {A} (r : (exn + A) * World * list event) : exn + A := r.1.1.
Definition run_world {A} (r : (exn + A) * World * list event) : World := r.1.2.
Definition run_trace {A} (r : (exn + A) * World * list event) : list event := r.2.

Definition is_request (e : event) : option Request :=
  match e with session_request rq => Some rq | _ => None end.

Definition is_sleep (e : event) : bool :=
  match e with time_sleep _ => true | _ => false end.

Definition is_output (e : event) : bool :=
  match e with output_stage _ => true | _ => false end.

Definition is_log (e : event) : option string :=
  match e with logMessage m => Some m | _ => None end.

(** The requests of a trace, the number of its sleeps, whether the
    output stage was entered, and its log. *)
Definition requests_of (t : list event) : list Request := omap is_request t.
Definition sleeps_of (t : list event) : nat := length (filter (λ e, is_sleep e = true) t).
Definition outputs_of (t : list event) : list event := filter (λ e, is_output e = true) t.
Definition log_of (t : list event) : list string := omap is_log t.

(** The persisted usage counter, under each of the two key names. *)
Definition current_count (w : World) : Z :=
  py_int (value (settings w) "travel_time_platform/current_count" (QInt 0)).

Definition current_count_base (w : World) : Z :=
  py_int (value (settings w) "traveltime_platform/current_count" (QInt 0)).

(** [x] occurs verbatim in [msg]. *)
Definition occurs_in (x msg : string) : Prop := ∃ before after, msg = before +:+ x +:+ after.

(** The world after [k] sleeps in a row. *)
Fixpoint after_sleeps (env : Env) (w : World) (k : nat) : World :=
  match k with
  | 0 => w
  | S k' => after_sleeps env (after_sleep env w) k'
  end.

(** The three settings the guard reads, and its test. *)
Definition warning_enabled (w : World) : bool :=
  py_bool (value (settings w) "travel_time_platform/warning_enabled" (QBool true)).

Definition warning_limit (w : World) : Z :=
  py_int (value (settings w) "travel_time_platform/warning_limit" (QInt 10)).

Definition over_limit (w : World) : bool :=
  warning_enabled w && (warning_limit w + 1 <=? current_count w + 1)%Z.

(** The payloads of a whole operation, slice after slice. *)
Definition batches (source_departure source_arrival : option (list SearchFeature)) : list Data :=
  map (prepare_data source_departure source_arrival)
      (seq 0 (slicing_count source_departure source_arrival)).

(** ** Notions the statements use *)

(** A run whose trace is put after the events [t]. *)
Definition prefix_trace {A} (t : list event) (r : (exn + A) * World * list event)
    : (exn + A) * World * list event :=
  (r.1.1, r.1.2, t ++ r.2).

(** What the guard reports when the limit is reached at the pass [i]. *)
Definition limit_warnings (i : nat) : list event :=
  (if i =? 0
   then [reportError "WARNING : API usage warning limit reached !" false;
         reportError "To continue, disable or increase the limit in the plugin settings, or reset the queries counter. Now is your chance to do the changes." false]
   else [])
  ++ [reportError ("Execution will resume in 10 seconds (retry " +:+ pretty (i + 1)
                   +:+ " out of " +:+ pretty AdvancedAlgorithmBase.retries +:+ ")") false;
      time_sleep 10].

(** What it reports when it lets the request go. *)
Definition limit_passed (w : World) : event :=
  if warning_enabled w
  then pushInfo ("API usage warning limit not reached yet ("
                 +:+ pretty (warning_limit w + 1 - (current_count w + 1))%Z
                 +:+ " queries remaining)...")
  else pushInfo "API usage warning limit disabled...".

(** The verbose-logging setting, as [algorithms.py] reads it. *)
Definition print_query (w : World) : bool :=
  py_bool (value (settings w) "travel_time_platform/log_calls" (QBool false)).

(** The request [make_request] hands to the session. *)
Definition request_of {Out} (alg : AdvancedAlgorithmBase.Algorithm Out)
    (APP_ID API_KEY data : string) : Request :=
  {| rq_method := "POST";
     rq_url := AdvancedAlgorithmBase.url alg;
     rq_headers := AdvancedAlgorithmBase.headers alg APP_ID API_KEY;
     rq_params := []; rq_data := data; rq_verify := true |}.

(** What [make_request] logs before and after the request. *)
Definition request_log {Out} (alg : AdvancedAlgorithmBase.Algorithm Out) (w : World)
    (APP_ID API_KEY data : string) : list event :=
  if print_query w
  then [logMessage "Making request";
        logMessage ("url: " +:+ AdvancedAlgorithmBase.url alg);
        logMessage ("headers: "
                    +:+ py_str_dict (AdvancedAlgorithmBase.headers alg APP_ID API_KEY));
        logMessage ("data: " +:+ data)]
  else [].

Definition response_log (w : World) (response : Response) : list event :=
  if print_query w
  then [logMessage "Got response";
        logMessage ("status: " +:+ pretty (status_code response));
        logMessage ("reason: " +:+ reason response);
        logMessage ("text: " +:+ text response)]
  else [].

(** The world once the session has been called, and once the call
    has been counted. *)
Definition sent (w : World) : World :=
  {| settings := settings w; slept := slept w; requested := S (requested w) |}.

Definition counted (w : World) : World :=
  {| settings := setValue "travel_time_platform/current_count"
                   (QInt (current_count w + 1)) (settings w);
     slept := slept w; requested := requested w |}.

(** The world once [algorithms.py] has taken a response in. *)
Definition received (w : World) (response : Response) : World :=
  if from_cache response then sent w else counted (sent w).

Definition received_events (response : Response) : list event :=
  if from_cache response
  then [pushDebugInfo "Got response from cache..."]
  else [pushDebugInfo "Got response from API endpoint..."].

(** The message of the report of an API error, after the first
    words, which differ by one letter between the two files. *)
Definition api_error_details (code descr link : string) (info : list (string * string))
    : string :=
  NL +:+ "Error code : " +:+ code +:+ NL +:+ "Description : " +:+ descr +:+ NL
  +:+ "See : " +:+ link +:+ NL +:+ "Addtionnal info :" +:+ NL
  +:+ String.concat NL (map (λ kv, TAB +:+ kv.1 +:+ ":" +:+ TAB +:+ kv.2) info).

(** The work of a slice before its request. *)
Definition loading_events (source_departure source_arrival : option (list SearchFeature))
    : list event :=
  (if bool_decide (is_Some source_departure)
   then [pushDebugInfo "Loading departure searches features..."] else [])
  ++ (if bool_decide (is_Some source_arrival)
      then [pushDebugInfo "Loading arrival searches features..."] else []).

(** The request [rq] carries the remixed payload [data]. *)
Definition carries {Out} (alg : AdvancedAlgorithmBase.Algorithm Out)
    (APP_ID API_KEY : string) (env : Env) (rq : Request) (data : Data) : Prop :=
  ∃ remixed,
    AdvancedAlgorithmBase.processAlgorithmRemixData alg data = inr remixed
    ∧ rq = request_of alg APP_ID API_KEY (json_dumps env remixed).

(** The request [rq] carries the remixed payload of the slice [i]. *)
Definition sends {Out} (alg : AdvancedAlgorithmBase.Algorithm Out)
    (source_departure source_arrival : option (list SearchFeature))
    (APP_ID API_KEY : string) (env : Env) (rq : Request) (i : nat) : Prop :=
  carries alg APP_ID API_KEY env rq (prepare_data source_departure source_arrival i).

(** The notice of line 237. *)
Definition slicing_notice (source_departure source_arrival : option (list SearchFeature))
    : list event :=
  if 1 <? slicing_count source_departure source_arrival
  then [pushInfo ("Input layers have more than " +:+ pretty slicing_size
                  +:+ " features. The query will be executed in "
                  +:+ pretty (slicing_count source_departure source_arrival)
                  +:+ " queries. This may have unexpected consequences on some parameters. Keep an eye on your API usage !")]
  else [].

(** The exchange with the service fails: the session raises, or the
    body cannot be decoded, or the status is an HTTP error. *)
Definition exchange_fails (env : Env) (url : string) (posted : string + Response) : bool :=
  match posted with
  | inl _ => true
  | inr response =>
      match json_loads env (text response) with
      | inl _ => true
      | inr _ => bool_decide (is_Some (raise_for_status url response))
      end
  end.

(** The location the time-filter remix adds for a search. *)
Definition location_of_search (s : Search) : option Location :=
  (λ c, {| loc_id := sd_id s; loc_coords := c |}) <$> sd_coords s.

(** The searches of a side of the payload, none when the side is absent. *)
Definition searches_of (side : option (list Search)) : list Search := default [] side.

(** The search still embeds its coordinates. *)
Definition has_coords (s : Search) : Prop := is_Some (sd_coords s).

(** A search after the remix, next to what it was: its coordinates are
    gone, the entry [own] holds its id, the entry [counterpart] holds
    [ids], and the rest is as before. *)
Definition remixed_from (own : Search → option string)
    (counterpart : Search → option (list string)) (ids : list string)
    (s s' : Search) : Prop :=
  sd_id s' = sd_id s
  ∧ sd_coords s' = None
  ∧ own s' = Some (sd_id s)
  ∧ counterpart s' = Some ids
  ∧ sd_transportation s' = sd_transportation s
  ∧ sd_time s' = sd_time s
  ∧ sd_travel_time s' = sd_travel_time s
  ∧ sd_properties s' = sd_properties s.

(** The counterpart list as the claim words it: every id of the
    merged locations list but the search's own. *)
Definition all_other_location_ids (remixed : Data) (s' : Search) : list string :=
  filter (λ x, x ≠ sd_id s') (map loc_id (default [] (locations remixed))).

(** The settings [base.py] reads, the body and the address it sends. *)
Definition base_print_query (w : World) : bool :=
  py_bool (value (settings w) "traveltime_platform/log_calls" (QBool false)).

Definition disable_https (w : World) : bool :=
  py_bool (value (settings w) "traveltime_platform/disable_https" (QBool false)).

Definition json_data_of (env : Env) (data : option Data) : string :=
  match data with Some d => json_dumps env d | None => "null" end.

Definition full_url (cfg : AlgorithmBase.Config) : string :=
  AlgorithmBase.endpoint cfg +:+ AlgorithmBase.url cfg.

(** The request the helper hands to the session. *)
Definition base_request_of (cfg : AlgorithmBase.Config) (APP_ID API_KEY : string) (env : Env)
    (w : World) (data : option Data) (params : list (string * string)) : Request :=
  {| rq_method := AlgorithmBase.method cfg; rq_url := full_url cfg;
     rq_headers := AlgorithmBase.headers cfg APP_ID API_KEY;
     rq_params := params; rq_data := json_data_of env data;
     rq_verify := negb (disable_https w) |}.

(** What the helper logs before the request: no credential occurs
    in it. *)
Definition base_request_log (cfg : AlgorithmBase.Config) (env : Env) (w : World)
    (data : option Data) (params : list (string * string)) : list event :=
  if base_print_query w
  then [logMessage "Making request";
        logMessage ("url: " +:+ full_url cfg);
        logMessage ("headers: "
                    +:+ py_str_dict (AlgorithmBase.headers cfg "*hidden*" "*hidden*"));
        logMessage ("params: " +:+ py_str_dict params);
        logMessage ("data: " +:+ json_data_of env data)]
  else [].

(** What the helper of [base.py] emits around the request. *)
Definition https_notice (w : World) : list event :=
  if disable_https w
  then [pushInfo "Warning ! HTTPS certificate verification is disabled. This means all data sent to the API can potentially be intercepted by an attacker."]
  else [].

Definition base_response_log (w : World) (response : Response) : list event :=
  if base_print_query w
  then [logMessage "Got response";
        logMessage ("status: " +:+ pretty (status_code response));
        logMessage ("reason: " +:+ reason response);
        logMessage ("text: " +:+ text response)]
  else [].

(** The world once [base.py] has counted a call, and once it has
    taken a good response in. *)
Definition base_counted (w : World) : World :=
  {| settings := setValue "traveltime_platform/current_count"
                   (QInt (current_count_base w + 1)) (settings w);
     slept := slept w; requested := requested w |}.

Definition base_received (w : World) (response : Response) : World :=
  if from_cache response then sent w else base_counted (sent w).

(** The trace reports an API error to the user, as fatal, in a
    message that shows the code, the description, the documentation
    link and every entry of the additional information. *)
Definition reports_api_error (t : list event) (code descr link : string)
    (info : list (string * string)) : Prop :=
  ∃ msg,
    reportError msg true ∈ t
    ∧ occurs_in code msg ∧ occurs_in descr msg ∧ occurs_in link msg
    ∧ ∀ k v, (k, v) ∈ info → occurs_in k msg ∧ occurs_in v msg.

(** A result of the time-map endpoint: it carries a geometry. *)
Definition carries_geometry (r : ApiResult) : Prop :=
  is_Some (shape r) ∧ is_Some (properties r).

(** The feature of a result that carries a geometry. *)
Definition geometry_feature (r : ApiResult) : QgsFeature :=
  {| ft_geometry := shape r; ft_attributes := [Some (search_id r); properties r] |}.

(** A result of the time-filter endpoint: locations with their
    properties, and unreachable ids. *)
Definition location_shaped (r : ApiResult) : Prop :=
  is_Some (res_locations r) ∧ is_Some (unreachable r)
  ∧ Forall (λ l, is_Some (lr_properties l)) (default [] (res_locations r)).

(** The per-location entries of the results, and their unreachable
    ids, each with its result, in the order of the response. *)
Definition reached_entries (results : list ApiResult) : list (ApiResult * LocationResult) :=
  concat (map (λ r, map (pair r) (default [] (res_locations r))) results).

Definition unreachable_entries (results : list ApiResult) : list (ApiResult * string) :=
  concat (map (λ r, map (pair r) (default [] (unreachable r))) results).

(** The record [base_ft] of the locations layer, with [extra] after
    its attributes. *)
Definition joined (locations_source : TimeFilterAlgorithm.Source) (base_ft : LocationFeature)
    (extra : list (option string)) : QgsFeature :=
  {| ft_geometry := Some (geometry base_ft);
     ft_attributes :=
       map (λ i, attributes base_ft !! i)
           (seq 0 (length (TimeFilterAlgorithm.fields locations_source)))
       ++ extra |}.

(** The feature of a reached location, and that of an unreachable id. *)
Definition is_reached (lookup : TimeFilterAlgorithm.Lookup)
    (locations_source : TimeFilterAlgorithm.Source)
    (entry : ApiResult * LocationResult) (feature : QgsFeature) : Prop :=
  ∃ base_ft,
    TimeFilterAlgorithm.get_location_feature lookup locations_source (lr_id entry.2)
    = Some base_ft
    ∧ feature = joined locations_source base_ft
                  [Some (search_id entry.1); lr_properties entry.2].

Definition is_unreachable (lookup : TimeFilterAlgorithm.Lookup)
    (locations_source : TimeFilterAlgorithm.Source)
    (entry : ApiResult * string) (feature : QgsFeature) : Prop :=
  ∃ base_ft,
    TimeFilterAlgorithm.get_location_feature lookup locations_source entry.2 = Some base_ft
    ∧ feature = joined locations_source base_ft [Some (search_id entry.1)].

(** The lookup finds a record for the id. *)
Definition found (lookup : TimeFilterAlgorithm.Lookup)
    (locations_source : TimeFilterAlgorithm.Source) (id_ : string) : Prop :=
  is_Some (TimeFilterAlgorithm.get_location_feature lookup locations_source id_).

(** The text of the filter expression the lookup builds for an id. *)
Definition filter_text (lookup : TimeFilterAlgorithm.Lookup) (id_ : string) : string :=
  TimeFilterAlgorithm.id_expr lookup +:+ " = '" +:+ id_ +:+ "'".

(** On the id [id_] the request compares ids as they are: with the
    text built for [id_] it yields the features of the layer whose
    id is [id_]. This is what QGIS does when the id, put between
    quotes, is a string literal that stands for itself. *)
Definition plain_lookup (lookup : TimeFilterAlgorithm.Lookup)
    (locations_source : TimeFilterAlgorithm.Source) (id_ : string) : Prop :=
  ∀ f, f ∈ TimeFilterAlgorithm.getFeatures locations_source →
       TimeFilterAlgorithm.yields lookup (filter_text lookup id_) f
       = (INPUT_LOCATIONS_ID f =? id_)%string.

(** The locations layer has no field named as one of the two fields
    the output stage appends. *)
Definition free_names (locations_source : TimeFilterAlgorithm.Source) : Prop :=
  ("search_id" ∉ TimeFilterAlgorithm.fields locations_source)
  ∧ ("properties" ∉ TimeFilterAlgorithm.fields locations_source).

(** The ids one result refers to. *)
Definition refers_to (r : ApiResult) : list string :=
  map lr_id (default [] (res_locations r)) ++ default [] (unreachable r).

(** ** Concrete inputs *)

Module Demo.

Definition feature (name : string) : SearchFeature :=
  {| INPUT_ID := name;
     point := {| lat := 52 # 1; lng := 13 # 1 |};
     INPUT_TRNSPT_TYPE := "walking";
     INPUT_TRNSPT_PT_CHANGE_DELAY := 0;
     INPUT_TRNSPT_WALKING_TIME := 900;
     INPUT_TRNSPT_DRIVING_TIME_TO_STATION := 1800;
     INPUT_TRNSPT_PARKING_TIME := 300;
     INPUT_TRNSPT_BOARDING_TIME := 0;
     INPUT_TIME := "2020-01-01T12:00:00Z";
     INPUT_TRAVEL_TIME := 900 |}.

(** Twelve departure features: two slices. *)
Definition twelve : list SearchFeature :=
  map (λ i : nat, feature ("departure_searches_" +:+ pretty i)) (seq 0 12).

Definition shape_result (name : string) : ApiResult :=
  {| search_id := name; shape := Some "MULTIPOLYGON EMPTY"; properties := Some "{}";
     res_locations := None; unreachable := None |}.

Definition ok_body : ResponseData :=
  {| results := Some [shape_result "a"]; error_code := None; description := None;
     documentation_link := None; additional_info := None |}.

Definition error_body : ResponseData :=
  {| results := None; error_code := Some "X"; description := Some "Y";
     documentation_link := Some "Z"; additional_info := Some [("field", "wrong")] |}.

(** A body is held by a one-word text. *)
Definition loads (body : string) : string + ResponseData :=
  if (body =? "ok")%string then inr ok_body
  else if (body =? "error")%string then inr error_body
  else inl "Expecting value: line 1 column 1 (char 0)".

Definition env_of (session : nat → Request → string + Response) : Env :=
  {| session := session;
     operator := λ _ s, s;
     json_dumps := λ _, "{}";
     json_loads := loads |}.

Definition fresh (status : Z) (reason body : string) : Response :=
  {| from_cache := false; status_code := status; reason := reason; text := body |}.

(** A service that answers every request with a fresh 200. *)
Definition serving : Env := env_of (λ _ _, inr (fresh 200 "OK" "ok")).

(** A service that answers every request with a fresh 400 and the
    structured error body. *)
Definition refusing : Env := env_of (λ _ _, inr (fresh 400 "Bad Request" "error")).

Definition world_of (s : gmap string qvariant) : World :=
  {| settings := s; slept := 0; requested := 0 |}.

Definition time_map := TimeMapAlgorithm.algorithm false false.

Definition limits (enabled : bool) (limit count : Z) : gmap string qvariant :=
  <["travel_time_platform/warning_enabled" := QBool enabled]>
    (<["travel_time_platform/warning_limit" := QInt limit]>
       (<["travel_time_platform/current_count" := QInt count]> ∅)).

(** A service that answers the first request and refuses the next. *)
Definition flaky : Env :=
  env_of (λ n _, if n =? 0 then inr (fresh 200 "OK" "ok")
                      else inr (fresh 400 "Bad Request" "error")).

Definition config : AlgorithmBase.Config :=
  {| AlgorithmBase.method := "POST";
     AlgorithmBase.url := "/v4/time-map";
     AlgorithmBase.accept_header := "application/json";
     AlgorithmBase.QGIS_VERSION_INT := 31600;
     AlgorithmBase.TTP_VERSION := "1.0";
     AlgorithmBase.endpoint := "https://api.traveltimeapp.com" |}.

Definition locations : TimeFilterAlgorithm.Source :=
  {| TimeFilterAlgorithm.fields := ["name"];
     TimeFilterAlgorithm.getFeatures :=
       [{| INPUT_LOCATIONS_ID := "l"; location_point := {| lat := 1; lng := 2 |};
           geometry := "POINT (2 1)"; attributes := ["L"] |};
        {| INPUT_LOCATIONS_ID := "m"; location_point := {| lat := 3; lng := 4 |};
           geometry := "POINT (4 3)"; attributes := ["M"] |}] |}.

Definition filter_result (reached_id unreachable_id : string) : ApiResult :=
  {| search_id := "a"; shape := None; properties := None;
     res_locations := Some [{| lr_id := reached_id; lr_properties := Some "{}" |}];
     unreachable := Some [unreachable_id] |}.

(** The literal of a text [id_expr = 'literal']. *)
Definition literal_of (id_expr text : string) : option string :=
  let head := id_expr +:+ " = '" in
  if String.prefix head text then
    let rest :=
      String.substring (String.length head) (String.length text - String.length head) text in
    match String.length rest with
    | 0 => None
    | S n =>
        if (String.substring n 1 rest =? "'")%string
        then Some (String.substring 0 n rest) else None
    end
  else None.

(** No apostrophe and no backslash. *)
Definition plain (s : string) : bool :=
  forallb (λ c, negb (Ascii.eqb c (Ascii.ascii_of_nat 39))
                && negb (Ascii.eqb c (Ascii.ascii_of_nat 92)))
          (String.list_ascii_of_string s).

(** A lookup on the field [id] that reads comparisons with a
    literal only: a literal without apostrophe or backslash selects
    the features with that id, and a text whose literal has one in it
    yields nothing, as happens in QGIS when the apostrophe of an id
    ends the literal early and the text is no expression. (Texts that
    QGIS would read as another expression do not occur below.) *)
Definition lookup : TimeFilterAlgorithm.Lookup :=
  {| TimeFilterAlgorithm.id_expr := "id";
     TimeFilterAlgorithm.yields :=
       λ text f, match literal_of "id" text with
                 | Some literal => plain literal && (INPUT_LOCATIONS_ID f =? literal)%string
                 | None => false
                 end |}.

(** A locations layer whose one record has an apostrophe in its id. *)
Definition quoted_location : LocationFeature :=
  {| INPUT_LOCATIONS_ID := "O'Brien"; location_point := {| lat := 1; lng := 2 |};
     geometry := "POINT (2 1)"; attributes := ["pub"] |}.

Definition quoted : TimeFilterAlgorithm.Source :=
  {| TimeFilterAlgorithm.fields := ["name"];
     TimeFilterAlgorithm.getFeatures := [quoted_location] |}.

End Demo.

(** ** Further notions *)

(** The events of a trace that report an error to the user. *)
Definition is_report (e : event) : bool :=
  match e with reportError _ _ => true | _ => false end.

Definition reports_of (t : list event) : list event := filter (λ e, is_report e = true) t.

(** The notice of line 237, as a message. *)
Definition slicing_message (slicing_count : nat) : string :=
  "Input layers have more than " +:+ pretty slicing_size
  +:+ " features. The query will be executed in " +:+ pretty slicing_count
  +:+ " queries. This may have unexpected consequences on some parameters. Keep an eye on your API usage !".

(** The first key the handler of an HTTP error finds missing in the
    body: [additional_info] is read first, for [nice_info], then the
    arguments of [format] from left to right. *)
Definition first_missing (d : ResponseData) : option string :=
  match additional_info d, error_code d, description d, documentation_link d with
  | None, _, _, _ => Some "additional_info"
  | _, None, _, _ => Some "error_code"
  | _, _, None, _ => Some "description"
  | _, _, _, None => Some "documentation_link"
  | Some _, Some _, Some _, Some _ => None
  end.

(** The ids of the features slice [i] takes from a source. *)
Definition slice_ids (source : option (list SearchFeature)) (i : nat) : list string :=
  map INPUT_ID (take slicing_size (drop (i * slicing_size) (default [] source))).

(** The number of features in the three sinks of the time-map stage. *)
Definition time_map_sink_count (sinks : TimeMapAlgorithm.Sinks) : nat :=
  length (TimeMapAlgorithm.OUTPUT_SEARCHES sinks)
  + length (TimeMapAlgorithm.OUTPUT_UNION sinks)
  + length (TimeMapAlgorithm.OUTPUT_INTER sinks).

(** The key the time-map stage misses first in a result. *)
Definition missing_entry (r : ApiResult) : option string :=
  match properties r, shape r with
  | None, _ => Some "properties"
  | Some _, None => Some "shape"
  | Some _, Some _ => None
  end.

(** The search refers to locations of [ids] only: to itself through
    [own], to others through [counterpart], and it embeds no
    coordinates. *)
Definition closed_search (own : Search → option string)
    (counterpart : Search → option (list string)) (ids : list string) (s : Search) : Prop :=
  sd_coords s = None
  ∧ own s = Some (sd_id s)
  ∧ sd_id s ∈ ids
  ∧ ∃ others, counterpart s = Some others ∧ others ⊆ ids.

(** The help texts given for a description under a flag, in the
    order of the calls, and the entries the type switch computes for
    a list of definitions. *)
Definition help_texts (calls : list (AlgorithmBaseHelpers.QgsParameter * bool * option string))
    (advanced : bool) (key : string) : list (option string) :=
  omap (λ call : AlgorithmBaseHelpers.QgsParameter * bool * option string,
          if Bool.eqb call.1.2 advanced
             && (AlgorithmBaseHelpers.description call.1.1 =? key)%string
          then Some call.2 else None) calls.

Definition configured {QVal} (qgis : AlgorithmBaseHelpers.Qgis QVal)
    (definitions : list AlgorithmBaseHelpers.QgsParameter) : list (string * QVal) :=
  omap (λ p, match AlgorithmBaseHelpers.configure_param qgis p with
             | inr (Some param) => Some (AlgorithmBaseHelpers.name p, param)
             | _ => None
             end) definitions.

(** The switch reads the definition or skips it as a sink. *)
Definition readable (p : AlgorithmBaseHelpers.QgsParameter) : Prop :=
  AlgorithmBaseHelpers.type p ∈ AlgorithmBaseHelpers.supported
  ∨ AlgorithmBaseHelpers.type p = "sink".

(** ** Further concrete inputs *)

(** A session whose connection fails at every call. *)
Definition unreachable_service : Env :=
  Demo.env_of (λ _ _, inl "Connection refused").

(** A service that answers a fresh error status with a body that is
    not JSON. *)
Definition gateway_error : Env :=
  Demo.env_of (λ _ _, inr (Demo.fresh 502 "Bad Gateway" "<html>")).

(** A service whose error body lacks the documentation link. *)
Definition partial_error : Env :=
  {| session := λ _ _, inr (Demo.fresh 400 "Bad Request" "partial");
     operator := λ _ s, s;
     json_dumps := λ _, "{}";
     json_loads := λ _, inr {| results := None; error_code := Some "X";
                               description := Some "Y"; documentation_link := None;
                               additional_info := Some [] |} |}.

(** A service that answers with a redirection status and a good body. *)
Definition redirecting : Env :=
  Demo.env_of (λ _ _, inr (Demo.fresh 302 "Found" "ok")).

(** A locations layer that has a field named [search_id] already. *)
Definition tagged_locations : TimeFilterAlgorithm.Source :=
  {| TimeFilterAlgorithm.fields := ["name"; "search_id"];
     TimeFilterAlgorithm.getFeatures :=
       [{| INPUT_LOCATIONS_ID := "l"; location_point := {| lat := 1; lng := 2 |};
           geometry := "POINT (2 1)"; attributes := ["L"; "old"] |};
        {| INPUT_LOCATIONS_ID := "m"; location_point := {| lat := 3; lng := 4 |};
           geometry := "POINT (4 3)"; attributes := ["M"; "old"] |}] |}.

(** Settings with the verbose logging of [algorithms.py] enabled. *)
Definition verbose : World :=
  Demo.world_of (<["travel_time_platform/log_calls" := QBool true]> ∅).

(** A QGIS over strings: every accessor gives the name back, an
    expression is marked as prepared, and only a prepared expression
    evaluates. *)
Definition echo : AlgorithmBaseHelpers.Qgis string :=
  {| AlgorithmBaseHelpers.FlagAdvanced := 2;
     AlgorithmBaseHelpers.super_addParameter := λ definitions p, (true, definitions ++ [p]);
     AlgorithmBaseHelpers.parameterAs := λ _ name, name;
     AlgorithmBaseHelpers.QgsExpression := λ text, "=" +:+ text;
     AlgorithmBaseHelpers.truth := λ _, true;
     AlgorithmBaseHelpers.transform := λ _ v, v;
     AlgorithmBaseHelpers.evaluate :=
       λ v, match v with
            | String c text => if Ascii.eqb c (Ascii.ascii_of_nat 61) then Some text else None
            | EmptyString => None
            end |}.

Definition parameter_of (name description type : string) : AlgorithmBaseHelpers.QgsParameter :=
  {| AlgorithmBaseHelpers.name := name; AlgorithmBaseHelpers.description := description;
     AlgorithmBaseHelpers.type := type; AlgorithmBaseHelpers.dataType_is_Integer := true;
     AlgorithmBaseHelpers.flags := 0 |}.

(** An instance with a searches layer, an id expression, a number
    flagged as advanced and an output sink. *)
Definition routes_instance : AlgorithmBaseHelpers.Self string :=
  AlgorithmBaseHelpers.addParameters echo
    [(parameter_of "INPUT_SEARCHES" "Searches" "source", false, Some "The points to start from");
     (parameter_of "INPUT_ID" "Searches ID" "expression", false, Some "");
     (parameter_of "INPUT_TIMEOUT" "Timeout" "number", true, None);
     (parameter_of "OUTPUT" "Output" "sink", false, None)]
    (AlgorithmBaseHelpers.__init__ "Computes routes.").

(** The same with a parameter of a type the switch does not know. *)
Definition matrix_instance : AlgorithmBaseHelpers.Self string :=
  AlgorithmBaseHelpers.addParameters echo
    [(parameter_of "INPUT_SEARCHES" "Searches" "source", false, None);
     (parameter_of "INPUT_MATRIX" "Matrix" "matrix", false, None);
     (parameter_of "INPUT_ID" "Searches ID" "expression", false, None)]
    (AlgorithmBaseHelpers.__init__ "Computes a matrix.").

(** Somebody raises the limit to 50 during the second sleep. *)
Definition raise_limit_later : Env :=
  {| session := λ _ _, inr (Demo.fresh 200 "OK" "ok");
     operator := λ k s, if k =? 1
                        then <["travel_time_platform/warning_limit" := QInt 50]> s else s;
     json_dumps := λ _, "{}";
     json_loads := Demo.loads |}.

(** A sub-run that returns three layers named after their kind. *)
Definition named_layers (algorithm : string) (sub : list (string * Simplified.value string))
    : (exn + TimeMapSimpleAlgorithm.Results string) * list event :=
  (inr {| TimeMapSimpleAlgorithm.OUTPUT_SEARCHES := "searches";
          TimeMapSimpleAlgorithm.OUTPUT_UNION := "union";
          TimeMapSimpleAlgorithm.OUTPUT_INTER := "intersection" |},
   [pushDebugInfo ("Starting " +:+ algorithm)]).

Definition found_layers (algorithm : string) (sub : list (string * Simplified.value string))
    : (exn + TimeFilterSimpleAlgorithm.Results string) * list event :=
  (inr {| TimeFilterSimpleAlgorithm.OUTPUT_RESULTS := "results";
          TimeFilterSimpleAlgorithm.OUTPUT_UNREACHABLE := "unreachable" |}, []).

Definition union_of_arrivals : TimeMapSimpleAlgorithm.Inputs string :=
  {| TimeMapSimpleAlgorithm.INPUT_SEARCHES := "points";
     TimeMapSimpleAlgorithm.INPUT_SEARCH_TYPE := 1;
     TimeMapSimpleAlgorithm.INPUT_TRNSPT_TYPE := 4;
     TimeMapSimpleAlgorithm.INPUT_TIME := "2020-01-01T12:00:00Z";
     TimeMapSimpleAlgorithm.INPUT_TRAVEL_TIME := 15;
     TimeMapSimpleAlgorithm.INPUT_RESULT_TYPE := 1 |}.

Definition filter_of_departures (search_type : Z) : TimeFilterSimpleAlgorithm.Inputs string :=
  {| TimeFilterSimpleAlgorithm.INPUT_SEARCHES := "points";
     TimeFilterSimpleAlgorithm.INPUT_SEARCH_TYPE := search_type;
     TimeFilterSimpleAlgorithm.INPUT_TRNSPT_TYPE := 1;
     TimeFilterSimpleAlgorithm.INPUT_TIME := "2020-01-01T12:00:00Z";
     TimeFilterSimpleAlgorithm.INPUT_TRAVEL_TIME := 30;
     TimeFilterSimpleAlgorithm.INPUT_LOCATIONS := "shops" |}.

(** * Properties *)

(** ** Slicing *)

Section Slicing.

Implicit Types (features : list SearchFeature) (i a b : nat).

Lemma load_features_window features a b i :
  load_features a b i features
  = drop (a - i) (take (b - i) (zip (seq i (length features)) features)).
Proof.
  revert i. induction features as [|f rest IH]; intros i; simpl.
  - by rewrite take_nil, drop_nil.
  - rewrite IH. destruct (Nat.ltb_spec i a) as [Hia|Hia]; simpl.
    + replace (a - i) with (S (a - S i)) by lia.
      destruct (b - i) as [|n] eqn:Hb; simpl.
      * replace (b - S i) with 0 by lia. by rewrite take_0, !drop_nil.
      * by replace (b - S i) with n by lia.
    + destruct (Nat.leb_spec b i) as [Hbi|Hbi]; simpl.
      * replace (b - S i) with 0 by lia. replace (b - i) with 0 by lia.
        by rewrite !take_0, !drop_nil.
      * replace (a - i) with 0 by lia. replace (a - S i) with 0 by lia.
        replace (b - i) with (S (b - S i)) by lia. done.
Qed.

Lemma load_features_snd features a b :
  map snd (load_features a b 0 features) = take (b - a) (drop a features).
Proof.
  rewrite load_features_window, !Nat.sub_0_r.
  change (map snd) with (fmap (M:=list) (@snd nat SearchFeature)).
  rewrite fmap_drop, fmap_take, snd_zip by (rewrite length_seq; lia).
  apply skipn_firstn_comm.
Qed.

Lemma load_features_fst features a b :
  map fst (load_features a b 0 features) = seq a (b `min` length features - a).
Proof.
  rewrite load_features_window, !Nat.sub_0_r.
  change (map fst) with (fmap (M:=list) (@fst nat SearchFeature)).
  rewrite fmap_drop, fmap_take, fst_zip by (rewrite length_seq; lia).
  rewrite take_seq, drop_seq. f_equal.
Qed.

Lemma load_searches_window features a b :
  load_searches a b features = map search_of_feature (take (b - a) (drop a features)).
Proof.
  unfold load_searches. rewrite <- load_features_snd, map_map. done.
Qed.

Lemma slice_positions_seq features i :
  slice_positions i features
  = seq (i * slicing_size) (((i + 1) * slicing_size) `min` length features - i * slicing_size).
Proof. apply load_features_fst. Qed.

Lemma slice_positions_elem features i p :
  p ∈ slice_positions i features
  ↔ i * slicing_size ≤ p < (i + 1) * slicing_size ∧ p < length features.
Proof. rewrite slice_positions_seq, elem_of_seq. unfold slicing_size. lia. Qed.

(** The slices of a source, one after the other, are the source. *)
Lemma slices_concat_positions features n :
  length features ≤ n * slicing_size →
  concat (map (λ i, slice_positions i features) (seq 0 n)) = seq 0 (length features).
Proof.
  intros Hn.
  assert (∀ k, concat (map (λ i, slice_positions i features) (seq 0 k))
               = seq 0 ((k * slicing_size) `min` length features)) as Hk.
  { induction k as [|k IH]; [done|].
    rewrite seq_S, map_app, concat_app, IH.
    cbn [map concat Nat.add]. rewrite app_nil_r, slice_positions_seq.
    unfold slicing_size in *.
    destruct (Nat.le_ge_cases (length features) (k * 10)).
    - replace (Nat.min ((k + 1) * 10) (length features) - k * 10) with 0 by lia.
      cbn [seq]. rewrite app_nil_r. f_equal. lia.
    - replace (Nat.min (k * 10) (length features)) with (k * 10) by lia.
      replace (Nat.min (S k * 10) (length features))
        with (k * 10 + (Nat.min ((k + 1) * 10) (length features) - k * 10)) by lia.
      by rewrite seq_app. }
  rewrite Hk. f_equal. lia.
Qed.

Lemma slices_concat_searches features n :
  length features ≤ n * slicing_size →
  concat (map (λ i, load_searches (i * slicing_size) ((i + 1) * slicing_size) features)
              (seq 0 n))
  = map search_of_feature features.
Proof.
  intros Hn.
  assert (∀ k, concat (map (λ i, load_searches (i * slicing_size) ((i + 1) * slicing_size) features)
                           (seq 0 k))
               = map search_of_feature (take (k * slicing_size) features)) as Hk.
  { induction k as [|k IH]; [done|].
    rewrite seq_S, map_app, concat_app, IH.
    cbn [map concat Nat.add]. rewrite app_nil_r.
    rewrite load_searches_window, <- map_app. f_equal.
    unfold slicing_size.
    replace ((k + 1) * 10 - k * 10) with 10 by lia.
    rewrite take_take_drop. f_equal. lia. }
  rewrite Hk, take_ge by lia. done.
Qed.

(** [math_ceil_div] is the ceiling of the quotient. *)
Lemma math_ceil_div_spec n d k :
  0 < d → (n ≤ k * d ↔ math_ceil_div n d ≤ k).
Proof.
  intros Hd. unfold math_ceil_div.
  pose proof (Nat.div_mod_eq n d) as Hdm.
  pose proof (Nat.mod_upper_bound n d ltac:(lia)) as Hlt.
  destruct (Nat.eqb_spec (n `mod` d) 0) as [H0|H0]; nia.
Qed.

Lemma slicing_count_covers (source_departure source_arrival : option (list SearchFeature)) :
  featureCount source_departure ≤ slicing_count source_departure source_arrival * slicing_size
  ∧ featureCount source_arrival ≤ slicing_count source_departure source_arrival * slicing_size.
Proof.
  unfold slicing_count.
  pose proof (proj2 (math_ceil_div_spec
    (featureCount source_departure `max` featureCount source_arrival) slicing_size
    _ ltac:(unfold slicing_size; lia)) (le_n _)).
  lia.
Qed.

End Slicing.

(** ** Runs of the monad *)

Section Runs.

Context {A B : Type}.
Implicit Types (env : Env) (w : World) (t : list event).

Lemma bind_ok (m : M A) (f : A → M B) env w a w1 t1 :
  m env w = (inr a, w1, t1) → bind m f env w = prefix_trace t1 (f a env w1).
Proof. unfold bind, prefix_trace. intros ->. by destruct (f a env w1) as [[??]?]. Qed.

Lemma bind_fail (m : M A) (f : A → M B) env w e w1 t1 :
  m env w = (inl e, w1, t1) → bind m f env w = (inl e, w1, t1).
Proof. unfold bind. by intros ->. Qed.

Lemma emit_bind (ev : event) (f : unit → M B) env w :
  bind (emit ev) f env w = prefix_trace [ev] (f tt env w).
Proof. unfold bind, emit, prefix_trace. by destruct (f tt env w) as [[??]?]. Qed.

Lemma run_result_prefix t (r : (exn + A) * World * list event) :
  run_result (prefix_trace t r) = run_result r.
Proof. done. Qed.

Lemma run_world_prefix t (r : (exn + A) * World * list event) :
  run_world (prefix_trace t r) = run_world r.
Proof. done. Qed.

Lemma run_trace_prefix t (r : (exn + A) * World * list event) :
  run_trace (prefix_trace t r) = t ++ run_trace r.
Proof. done. Qed.

End Runs.

Lemma requests_of_app t1 t2 : requests_of (t1 ++ t2) = requests_of t1 ++ requests_of t2.
Proof. apply omap_app. Qed.

Lemma sleeps_of_app t1 t2 : sleeps_of (t1 ++ t2) = sleeps_of t1 + sleeps_of t2.
Proof. unfold sleeps_of. by rewrite filter_app, length_app. Qed.

Lemma outputs_of_app t1 t2 : outputs_of (t1 ++ t2) = outputs_of t1 ++ outputs_of t2.
Proof. apply filter_app. Qed.

Lemma log_of_app t1 t2 : log_of (t1 ++ t2) = log_of t1 ++ log_of t2.
Proof. apply omap_app. Qed.

(** ** The usage guard *)

Section Guard.

Import AdvancedAlgorithmBase.
Implicit Types (env : Env) (w : World).

Lemma api_limit_loop_over env w i range' :
  over_limit w = true →
  api_limit_loop (i :: range') env w
  = prefix_trace (limit_warnings i) (api_limit_loop range' env (after_sleep env w)).
Proof.
  unfold over_limit, warning_enabled, warning_limit, current_count. intros Hover.
  cbn [api_limit_loop]. unfold bind at 1. cbn [QSettings]. rewrite Hover.
  unfold limit_warnings, when.
  destruct (i =? 0); unfold bind, emit, sleep, ret, prefix_trace; cbv beta iota;
    by destruct (api_limit_loop range' env (after_sleep env w)) as [[[?|?] ?] ?].
Qed.

Lemma api_limit_loop_pass env w i range' :
  over_limit w = false →
  api_limit_loop (i :: range') env w = (inr tt, w, [limit_passed w]).
Proof.
  unfold over_limit, limit_passed, warning_enabled, warning_limit, current_count.
  intros Hover.
  cbn [api_limit_loop]. unfold bind at 1. cbn [QSettings]. rewrite Hover.
  by destruct (py_bool _).
Qed.

Lemma api_limit_loop_else env w :
  api_limit_loop [] env w
  = (inl (QgsProcessingException "API usage limit warning"), w,
     [reportError "Execution canceled because of API limit warning." true]).
Proof. done. Qed.

Lemma sleeps_of_limit_warnings i : sleeps_of (limit_warnings i) = 1.
Proof. unfold limit_warnings. by destruct (i =? 0). Qed.

Lemma requests_of_limit_warnings i : requests_of (limit_warnings i) = [].
Proof. unfold limit_warnings. by destruct (i =? 0). Qed.

Lemma outputs_of_limit_warnings i : outputs_of (limit_warnings i) = [].
Proof. unfold limit_warnings. by destruct (i =? 0). Qed.

(** The guard makes no request and never enters the output stage. *)
Lemma api_limit_loop_quiet range env w :
  requests_of (run_trace (api_limit_loop range env w)) = []
  ∧ outputs_of (run_trace (api_limit_loop range env w)) = []
  ∧ requested (run_world (api_limit_loop range env w)) = requested w.
Proof.
  revert w. induction range as [|i range' IH]; intros w; [done|].
  destruct (over_limit w) eqn:Hover.
  - rewrite api_limit_loop_over by done.
    rewrite run_trace_prefix, run_world_prefix, requests_of_app, outputs_of_app.
    rewrite requests_of_limit_warnings, outputs_of_limit_warnings.
    destruct (IH (after_sleep env w)) as (-> & -> & ->). done.
  - rewrite api_limit_loop_pass by done. unfold limit_passed.
    by destruct (warning_enabled w).
Qed.

(** Still over the limit at every check: the range is used up. *)
Lemma api_limit_loop_exhausted range env w :
  (∀ k, k < length range → over_limit (after_sleeps env w k) = true) →
  ∃ t, api_limit_loop range env w
       = (inl (QgsProcessingException "API usage limit warning"),
          after_sleeps env w (length range), t)
       ∧ sleeps_of t = length range
       ∧ last t = Some (reportError "Execution canceled because of API limit warning." true).
Proof.
  revert w. induction range as [|i range' IH]; intros w Hover.
  - eexists. split; [apply api_limit_loop_else|done].
  - rewrite api_limit_loop_over by (apply (Hover 0); simpl; lia).
    destruct (IH (after_sleep env w)) as (t & -> & Hs & Hl).
    { intros k Hk. apply (Hover (S k)). simpl. lia. }
    eexists. split; [reflexivity|]. cbn [fst snd length after_sleeps].
    rewrite sleeps_of_app, sleeps_of_limit_warnings, Hs. split; [done|].
    rewrite last_app, Hl. done.
Qed.

End Guard.

(** ** The request of one slice *)

Section LegacyRequest.

Import AdvancedAlgorithmBase.
Context {Out : Type} (alg : Algorithm Out).
Implicit Types (env : Env) (w : World) (APP_ID API_KEY data : string).

(** [make_request], case by case. *)
Lemma make_request_cases APP_ID API_KEY data env w :
  make_request alg APP_ID API_KEY data env w
  = prefix_trace
      ([pushDebugInfo "Making request to API endpoint..."]
         ++ request_log alg w APP_ID API_KEY data
         ++ [session_request (request_of alg APP_ID API_KEY data)])
      match session env (requested w) (request_of alg APP_ID API_KEY data) with
      | inl e => except_RequestException e env (sent w)
      | inr response =>
          prefix_trace (received_events response ++ response_log w response)
            match json_loads env (text response) with
            | inl e => except_ValueError e env (received w response)
            | inr response_data =>
                match raise_for_status (url alg) response with
                | Some e => except_HTTPError response response_data e env (received w response)
                | None => subscript "results" (results response_data) env (received w response)
                end
            end
      end.
Proof.
  unfold make_request, request_log, response_log, received, received_events, print_query.
  fold (request_of alg APP_ID API_KEY data).
  unfold when, bind, emit, ret, cached_requests, ask, QSettings, QSettings_setValue,
    prefix_trace; cbv beta iota.
  destruct (py_bool (value (settings w) "travel_time_platform/log_calls" (QBool false)));
    cbv beta iota; fold (sent w);
    (destruct (session env (requested w) (request_of alg APP_ID API_KEY data)) as [e|response];
     [ by destruct (except_RequestException e env (sent w)) as [[? ?] ?] | ]);
    (destruct (from_cache response); cbv beta iota;
     [ | fold (current_count (sent w)); fold (counted (sent w)) ];
     (destruct (json_loads env (text response)) as [e|response_data];
      [ match goal with
        | |- context [except_ValueError e env ?w'] =>
            by destruct (except_ValueError (A:=list ApiResult) e env w') as [[? ?] ?]
        end | ]);
     (destruct (raise_for_status (url alg) response) as [e|];
      match goal with
      | |- context [except_HTTPError response response_data e env ?w'] =>
          by destruct (except_HTTPError (A:=list ApiResult) response response_data e env w')
               as [[? ?] ?]
      | |- context [subscript "results" (results response_data) env ?w'] =>
          by destruct (subscript "results" (results response_data) env w') as [[? ?] ?]
      end)).
Qed.

End LegacyRequest.

(** ** The handlers *)

Section Handlers.

Import AdvancedAlgorithmBase.
Implicit Types (env : Env) (w : World).

Lemma except_RequestException_run {A} (e : string) env w :
  except_RequestException (A:=A) e env w
  = (inl (QgsProcessingException "Could not connect to API"), w,
     [reportError "Could not connect to the API. See log for more details." true;
      logMessage e]).
Proof. done. Qed.

Lemma except_ValueError_run {A} (e : string) env w :
  except_ValueError (A:=A) e env w
  = (inl (QgsProcessingException "Could not decode response"), w,
     [reportError "Could not decode response. See log for more details." true;
      logMessage e]).
Proof. done. Qed.

Lemma except_HTTPError_run {A} response code descr link info rest e env w :
  except_HTTPError (A:=A) response
    {| results := rest; error_code := Some code; description := Some descr;
       documentation_link := Some link; additional_info := Some info |} e env w
  = (inl (QgsProcessingException ("Got error " +:+ pretty (status_code response) +:+ " form API")),
     w,
     [reportError ("Recieved error from the API." +:+ api_error_details code descr link info) true;
      reportError "See log for more details." true;
      logMessage e]).
Proof. done. Qed.

(** Whatever the body holds, the handler raises, leaves the store
    alone and calls nothing. *)
Lemma except_HTTPError_raises {A} response response_data e env w :
  ∃ x t, except_HTTPError (A:=A) response response_data e env w = (inl x, w, t)
         ∧ requests_of t = [] ∧ outputs_of t = [].
Proof.
  destruct response_data as [rs [code|] [descr|] [link|] [info|]];
    unfold except_HTTPError; cbn; eauto.
Qed.

Lemma subscript_run {A} key (entry : option A) env w :
  subscript key entry env w
  = (match entry with Some a => inr a | None => inl (KeyError key) end, w, []).
Proof. by destruct entry. Qed.

End Handlers.

(** ** One request per slice, in slice order *)

Section Cycles.

Import AdvancedAlgorithmBase.
Context {Out : Type} (alg : Algorithm Out).
Context (source_departure source_arrival : option (list SearchFeature)).
Context (APP_ID API_KEY : string).
Implicit Types (env : Env) (w : World) (data : string).

Lemma requests_of_request_log w data :
  requests_of (request_log alg w APP_ID API_KEY data) = []
  ∧ outputs_of (request_log alg w APP_ID API_KEY data) = [].
Proof. unfold request_log. by destruct (print_query w). Qed.

Lemma requests_of_response_log w response :
  requests_of (received_events response ++ response_log w response) = []
  ∧ outputs_of (received_events response ++ response_log w response) = [].
Proof.
  unfold response_log, received_events.
  by destruct (print_query w), (from_cache response).
Qed.

(** [make_request] calls the session once, whatever comes back. *)
Lemma make_request_once data env w :
  requests_of (run_trace (make_request alg APP_ID API_KEY data env w))
  = [request_of alg APP_ID API_KEY data]
  ∧ outputs_of (run_trace (make_request alg APP_ID API_KEY data env w)) = [].
Proof.
  rewrite make_request_cases, run_trace_prefix.
  rewrite !requests_of_app, !outputs_of_app.
  destruct (requests_of_request_log w data) as [-> ->].
  cbn [requests_of outputs_of omap is_request filter app].
  assert (∀ r : (exn + list ApiResult) * World * list event,
            requests_of (run_trace r) = [] ∧ outputs_of (run_trace r) = [] →
            ([request_of alg APP_ID API_KEY data] ++ requests_of (run_trace r)
             = [request_of alg APP_ID API_KEY data])
            ∧ outputs_of [session_request (request_of alg APP_ID API_KEY data)]
                ++ outputs_of (run_trace r) = []) as Hr.
  { intros r [-> ->]. done. }
  apply Hr.
  destruct (session env (requested w) _) as [e|response]; [done|].
  rewrite run_trace_prefix, requests_of_app, outputs_of_app.
  destruct (requests_of_response_log w response) as [-> ->].
  destruct (json_loads env (text response)) as [e|response_data]; [done|].
  destruct (raise_for_status (url alg) response) as [e|].
  - destruct (except_HTTPError_raises (A:=list ApiResult) response response_data e env
                (received w response)) as (x & t & -> & ? & ?). done.
  - by rewrite subscript_run.
Qed.

Lemma slice_cycle_cases slicing_i env w :
  slice_cycle alg source_departure source_arrival APP_ID API_KEY slicing_i env w
  = match processAlgorithmRemixData alg (prepare_data source_departure source_arrival slicing_i) with
    | inl e => (inl e, w, loading_events source_departure source_arrival)
    | inr remixed =>
        prefix_trace (loading_events source_departure source_arrival
                        ++ [pushDebugInfo "Checking API limit warnings..."])
          (bind (api_limit_loop (seq 0 retries))
             (λ _, make_request alg APP_ID API_KEY (json_dumps env remixed)) env w)
    end.
Proof.
  unfold slice_cycle, loading_events.
  destruct (processAlgorithmRemixData alg _) as [e|remixed];
    destruct (bool_decide (is_Some source_departure)),
             (bool_decide (is_Some source_arrival));
    unfold when, lift, raise, ask, ret, emit; unfold bind at 1 2 3 4 5; cbv beta iota;
    try reflexivity;
    match goal with
    | |- context [bind ?m ?f env w] =>
        unfold prefix_trace; by destruct (bind m f env w) as [[? ?] ?]
    end.
Qed.

(** A slice makes at most one request, that of its payload, and a
    slice that returns has made it. *)
Lemma slice_cycle_requests slicing_i env w :
  outputs_of (run_trace (slice_cycle alg source_departure source_arrival
                           APP_ID API_KEY slicing_i env w)) = []
  ∧ match run_result (slice_cycle alg source_departure source_arrival
                        APP_ID API_KEY slicing_i env w) with
    | inl _ =>
        length (requests_of (run_trace (slice_cycle alg source_departure source_arrival
                                          APP_ID API_KEY slicing_i env w))) ≤ 1
    | inr _ =>
        ∃ remixed,
          processAlgorithmRemixData alg (prepare_data source_departure source_arrival slicing_i)
          = inr remixed
          ∧ requests_of (run_trace (slice_cycle alg source_departure source_arrival
                                      APP_ID API_KEY slicing_i env w))
            = [request_of alg APP_ID API_KEY (json_dumps env remixed)]
    end.
Proof.
  assert (requests_of (loading_events source_departure source_arrival) = [] ∧ outputs_of (loading_events source_departure source_arrival) = []) as [Hlr Hlo].
  { unfold loading_events.
    by destruct (bool_decide (is_Some source_departure)),
                (bool_decide (is_Some source_arrival)). }
  rewrite slice_cycle_cases.
  destruct (processAlgorithmRemixData alg _) as [e|remixed].
  { unfold run_trace, run_result. cbn [fst snd]. rewrite Hlr, Hlo. split; [done|]. simpl. lia. }
  rewrite run_trace_prefix, run_result_prefix, requests_of_app, outputs_of_app.
  rewrite requests_of_app, outputs_of_app, Hlr, Hlo.
  cbn [requests_of outputs_of omap is_request filter app].
  destruct (api_limit_loop_quiet (seq 0 retries) env w) as (Hq & Ho & _).
  destruct (api_limit_loop (seq 0 retries) env w) as [[[e|[]] w1] t1] eqn:Hloop.
  - rewrite (bind_fail _ _ _ _ _ _ _ Hloop).
    unfold run_trace, run_result in *. cbn [fst snd] in *. rewrite Hq, Ho.
    split; [done|]. simpl. lia.
  - rewrite (bind_ok _ _ _ _ _ _ _ Hloop).
    rewrite run_trace_prefix, run_result_prefix, requests_of_app, outputs_of_app.
    unfold run_trace in Hq, Ho. cbn [fst snd] in Hq, Ho. rewrite Hq, Ho.
    destruct (make_request_once (json_dumps env remixed) env w1) as [-> ->].
    split; [done|].
    destruct (run_result _); [simpl; lia|]. by exists remixed.
Qed.

End Cycles.

Section Loop.

Import AdvancedAlgorithmBase.
Context {Out : Type} (alg : Algorithm Out).
Context (source_departure source_arrival : option (list SearchFeature)).
Context (APP_ID API_KEY : string).
Implicit Types (env : Env) (w : World) (range : list nat) (results : list ApiResult).

Local Abbreviation cycle := (slice_cycle alg source_departure source_arrival APP_ID API_KEY).
Local Abbreviation loop := (slices_loop alg source_departure source_arrival APP_ID API_KEY).

Lemma prefix_trace_nil {A} (r : (exn + A) * World * list event) : prefix_trace [] r = r.
Proof. by destruct r as [[??]?]. Qed.

Lemma prefix_trace_prefix {A} t1 t2 (r : (exn + A) * World * list event) :
  prefix_trace t1 (prefix_trace t2 r) = prefix_trace (t1 ++ t2) r.
Proof. unfold prefix_trace. cbn [fst snd]. by rewrite app_assoc. Qed.

Lemma slices_loop_abort i range results env w e w' t :
  cycle i env w = (inl e, w', t) → loop (i :: range) results env w = (inl e, w', t).
Proof. intros H. cbn [slices_loop]. by apply bind_fail. Qed.

Lemma slices_loop_step i range results env w rs w1 t1 :
  cycle i env w = (inr rs, w1, t1) →
  loop (i :: range) results env w = prefix_trace t1 (loop range (results ++ rs) env w1).
Proof.
  intros H. cbn [slices_loop].
  exact (bind_ok _ (λ rs', loop range (results ++ rs')) _ _ _ _ _ H).
Qed.

Lemma slices_loop_app range1 range2 results env w acc w1 t1 :
  loop range1 results env w = (inr acc, w1, t1) →
  loop (range1 ++ range2) results env w = prefix_trace t1 (loop range2 acc env w1).
Proof.
  revert results w t1. induction range1 as [|i range1 IH]; intros results w t1.
  - intros [= -> -> <-]. by rewrite prefix_trace_nil.
  - destruct (cycle i env w) as [[[e|rs] w2] t2] eqn:Hc.
    + rewrite (slices_loop_abort _ _ _ _ _ _ _ _ Hc). done.
    + rewrite (slices_loop_step _ _ _ _ _ _ _ _ Hc). cbn [app].
      rewrite (slices_loop_step _ _ _ _ _ _ _ _ Hc).
      destruct (loop range1 (results ++ rs) env w2) as [[r w3] t3] eqn:Hl.
      intros [= -> -> <-]. rewrite (IH _ _ _ Hl). apply prefix_trace_prefix.
Qed.

(** The loop makes the request of each slice in turn, and only
    those; it never enters the output stage. *)
Lemma slices_loop_requests range results env w :
  outputs_of (run_trace (loop range results env w)) = []
  ∧ match run_result (loop range results env w) with
    | inl _ => length (requests_of (run_trace (loop range results env w))) ≤ length range
    | inr r =>
        Forall2 (sends alg source_departure source_arrival APP_ID API_KEY env) (requests_of (run_trace (loop range results env w))) range
        ∧ ∃ per_slice, r = results ++ concat per_slice ∧ length per_slice = length range
    end.
Proof.
  revert results w. induction range as [|i range IH]; intros results w.
  - cbn. split; [done|]. split; [constructor|]. exists []. by rewrite app_nil_r.
  - pose proof (slice_cycle_requests alg source_departure source_arrival
                  APP_ID API_KEY i env w) as [Ho Hr].
    destruct (cycle i env w) as [[[e|rs] w1] t1] eqn:Hc.
    + rewrite (slices_loop_abort _ _ _ _ _ _ _ _ Hc). split; [done|].
      unfold run_result, run_trace in *. cbn [fst snd length] in *. lia.
    + rewrite (slices_loop_step _ _ _ _ _ _ _ _ Hc).
      rewrite run_trace_prefix, run_result_prefix, outputs_of_app, requests_of_app.
      unfold run_result, run_trace in Ho, Hr. cbn [fst snd] in Ho, Hr.
      destruct Hr as (remixed & Hremix & Hrq). rewrite Ho, Hrq.
      destruct (IH (results ++ rs) w1) as [-> Hrest]. split; [done|].
      destruct (run_result (loop range (results ++ rs) env w1)) as [?|r].
      * cbn [app length]. lia.
      * destruct Hrest as (Hall & per_slice & -> & Hlen). split.
        -- cbn [app]. constructor; [by exists remixed|done].
        -- exists (rs :: per_slice). cbn [concat length].
           by rewrite app_assoc, Hlen.
Qed.

(** [processAlgorithm] with both credentials set. *)
Lemma processAlgorithm_cases env w :
  py_not APP_ID = false → py_not API_KEY = false →
  processAlgorithm alg (APP_ID, API_KEY) source_departure source_arrival env w
  = prefix_trace (pushDebugInfo "Starting TimeMapAlgorithm..."
                    :: slicing_notice source_departure source_arrival)
      match loop (seq 0 (slicing_count source_departure source_arrival)) [] env w with
      | (inl e, w1, t1) => (inl e, w1, t1)
      | (inr results, w1, t1) =>
          prefix_trace (t1 ++ [pushDebugInfo "Loading response to layer...";
                               output_stage results])
            (processAlgorithmOutput alg results env w1)
      end.
Proof.
  intros Hid Hkey. unfold processAlgorithm, slicing_notice. rewrite emit_bind.
  rewrite Hid, Hkey. cbn [orb].
  destruct (1 <? slicing_count source_departure source_arrival);
    unfold when, bind, emit, ret, prefix_trace; cbv beta iota;
    (destruct (loop _ [] env w) as [[[e|results] w1] t1]; [done|]);
    destruct (processAlgorithmOutput alg results env w1) as [[? ?] ?];
    cbn [fst snd app]; by rewrite <- ?app_assoc.
Qed.

End Loop.

(** ** Batching *)

Section NoCredentials.

Import AdvancedAlgorithmBase.

Lemma processAlgorithm_no_credentials {Out} (alg : Algorithm Out) APP_ID API_KEY
    source_departure source_arrival env w :
  py_not APP_ID || py_not API_KEY = true →
  processAlgorithm alg (APP_ID, API_KEY) source_departure source_arrival env w
  = (inl (QgsProcessingException "App ID or api key not set"), w,
     [pushDebugInfo "Starting TimeMapAlgorithm...";
      reportError ("You need a Travel Time Platform API key to make requests. Please head to "
                   +:+ "http://docs.traveltimeplatform.com/overview/getting-keys/"
                   +:+ " to obtain one, and enter it in the plugin's setting dialog.") true]).
Proof. intros H. unfold processAlgorithm. rewrite emit_bind, H. done. Qed.

Lemma prepare_data_departure source_departure source_arrival i :
  departure_searches (prepare_data source_departure source_arrival i)
  = (λ features, map search_of_feature (take slicing_size (drop (i * slicing_size) features)))
      <$> source_departure.
Proof.
  unfold prepare_data. cbn [departure_searches].
  destruct source_departure as [features|]; [|done]. cbn. f_equal.
  rewrite load_searches_window. do 2 f_equal. unfold slicing_size. lia.
Qed.

Lemma prepare_data_arrival source_departure source_arrival i :
  arrival_searches (prepare_data source_departure source_arrival i)
  = (λ features, map search_of_feature (take slicing_size (drop (i * slicing_size) features)))
      <$> source_arrival.
Proof.
  unfold prepare_data. cbn [arrival_searches].
  destruct source_arrival as [features|]; [|done]. cbn. f_equal.
  rewrite load_searches_window. do 2 f_equal. unfold slicing_size. lia.
Qed.

End NoCredentials.

(** C1. With batch size 10, the batcher plans [ceil(max(Nd, Na) / 10)]
    slices (the least number of slices of ten that covers both
    sources). Slice [i] holds, for each side that is given, the
    searches of the records at the positions from [10 i] to
    [10 i + 9] that exist, in their order; every position of a source
    lies in one slice and one only, and the slices in their order give
    the source back. An operation that returns has made one request
    per slice, in slice order, each with the remixed payload of its
    slice, before it enters the output stage. *)
Theorem batching_completeness
    {Out} (alg : AdvancedAlgorithmBase.Algorithm Out)
    (source_departure source_arrival : option (list SearchFeature)) :
  let n := slicing_count source_departure source_arrival in
  (∀ k, Nat.max (featureCount source_departure) (featureCount source_arrival) ≤ k * slicing_size
        ↔ n ≤ k)
  ∧ length (batches source_departure source_arrival) = n
  ∧ (∀ i, i < n → batches source_departure source_arrival !! i
                  = Some (prepare_data source_departure source_arrival i))
  ∧ (∀ i, departure_searches (prepare_data source_departure source_arrival i)
          = (λ features, map search_of_feature
                           (take slicing_size (drop (i * slicing_size) features)))
              <$> source_departure
          ∧ arrival_searches (prepare_data source_departure source_arrival i)
            = (λ features, map search_of_feature
                             (take slicing_size (drop (i * slicing_size) features)))
                <$> source_arrival)
  ∧ (∀ features,
       source_departure = Some features ∨ source_arrival = Some features →
       (∀ i p, p ∈ slice_positions i features
               ↔ i * slicing_size ≤ p < (i + 1) * slicing_size ∧ p < length features)
       ∧ (∀ p, p < length features →
               ∃ i, i < n ∧ p ∈ slice_positions i features
                    ∧ ∀ j, p ∈ slice_positions j features → j = i)
       ∧ concat (map (λ i, slice_positions i features) (seq 0 n)) = seq 0 (length features)
       ∧ concat (map (λ i, load_searches (i * slicing_size) ((i + 1) * slicing_size) features)
                     (seq 0 n))
         = map search_of_feature features)
  ∧ (∀ credentials env w out w' t,
       AdvancedAlgorithmBase.processAlgorithm alg credentials source_departure source_arrival env w
       = (inr out, w', t) →
       ∃ pre merged post,
         t = pre ++ output_stage merged :: post
         ∧ outputs_of pre = []
         ∧ length (requests_of pre) = n
         ∧ Forall2 (carries alg credentials.1 credentials.2 env)
             (requests_of pre) (batches source_departure source_arrival)).
Proof.
  intros n. split; [|split; [|split; [|split; [|split]]]].
  - intros k. apply math_ceil_div_spec. unfold slicing_size. lia.
  - unfold batches. by rewrite length_map, length_seq.
  - intros i Hi. unfold batches.
    change (map ?f ?l) with (f <$> l). rewrite list_lookup_fmap, lookup_seq_lt by done. done.
  - intros i. split; [apply prepare_data_departure|apply prepare_data_arrival].
  - intros features Hside.
    assert (length features ≤ n * slicing_size) as Hcover.
    { pose proof (slicing_count_covers source_departure source_arrival) as [Hd Ha].
      destruct Hside as [->| ->]; [exact Hd|exact Ha]. }
    split; [|split; [|split]].
    + intros i p. apply slice_positions_elem.
    + intros p Hp. exists (p `div` slicing_size).
      unfold slicing_size in *.
      pose proof (Nat.div_mod_eq p 10) as Hdm.
      pose proof (Nat.mod_upper_bound p 10 ltac:(lia)) as Hlt.
      split; [|split].
      * apply Nat.Div0.div_lt_upper_bound. lia.
      * apply slice_positions_elem. unfold slicing_size. lia.
      * intros j Hj. apply slice_positions_elem in Hj. unfold slicing_size in Hj. nia.
    + by apply slices_concat_positions.
    + by apply slices_concat_searches.
  - intros [APP_ID API_KEY] env w out w' t Hrun.
    destruct (py_not APP_ID || py_not API_KEY) eqn:Hcred.
    { by rewrite processAlgorithm_no_credentials in Hrun. }
    apply orb_false_elim in Hcred as [Hid Hkey].
    rewrite processAlgorithm_cases in Hrun by done.
    pose proof (slices_loop_requests alg source_departure source_arrival APP_ID API_KEY
                  (seq 0 n) [] env w) as [Ho Hr].
    fold n in Hrun.
    destruct (AdvancedAlgorithmBase.slices_loop _ _ _ _ _ (seq 0 n) [] env w)
      as [[[e|results] w1] t1]; [done|].
    unfold run_result, run_trace in Ho, Hr. cbn [fst snd] in Ho, Hr.
    destruct Hr as [Hall _].
    destruct (AdvancedAlgorithmBase.processAlgorithmOutput alg results env w1)
      as [[r w2] t2].
    unfold prefix_trace in Hrun. cbn [fst snd] in Hrun.
    injection Hrun as -> -> <-.
    exists (pushDebugInfo "Starting TimeMapAlgorithm..."
              :: slicing_notice source_departure source_arrival ++ t1
              ++ [pushDebugInfo "Loading response to layer..."]),
      results, t2.
    assert (requests_of (slicing_notice source_departure source_arrival) = []
            ∧ outputs_of (slicing_notice source_departure source_arrival) = []) as [Hn1 Hn2].
    { unfold slicing_notice. by destruct (1 <? _). }
    split; [|split; [|split]].
    + cbn [app]. f_equal. rewrite <- !app_assoc. done.
    + change (outputs_of (?x :: ?l)) with (outputs_of ([x] ++ l)).
      rewrite !outputs_of_app, Hn2, Ho. done.
    + change (requests_of (?x :: ?l)) with (requests_of ([x] ++ l)).
      rewrite !requests_of_app, Hn1. cbn. rewrite app_nil_r.
      apply Forall2_length in Hall. by rewrite Hall, length_seq.
    + change (requests_of (?x :: ?l)) with (requests_of ([x] ++ l)).
      rewrite !requests_of_app, Hn1. cbn. rewrite app_nil_r.
      unfold batches. by apply Forall2_fmap_r.
Qed.

Lemma batching_completeness_witness :
  (∃ i, i < 2 ∧ 11 ∈ slice_positions i Demo.twelve)
  ∧ ∃ pre merged post,
      run_trace (AdvancedAlgorithmBase.processAlgorithm Demo.time_map ("app", "key")
                   (Some Demo.twelve) None Demo.serving (Demo.world_of ∅))
      = pre ++ output_stage merged :: post
      ∧ length (requests_of pre) = 2.
Proof.
  destruct (batching_completeness Demo.time_map (Some Demo.twelve) None)
    as (_ & _ & _ & _ & Hside & Hrun).
  split.
  - destruct (Hside Demo.twelve (or_introl eq_refl)) as (_ & Hone & _).
    destruct (Hone 11) as (i & Hi & Hin & _); [vm_compute; lia|].
    exists i. split; [exact Hi|exact Hin].
  - set (r := AdvancedAlgorithmBase.processAlgorithm Demo.time_map ("app", "key")
                (Some Demo.twelve) None Demo.serving (Demo.world_of ∅)).
    assert (∃ out, r = (inr out, run_world r, run_trace r)) as [out Hr].
    { vm_compute. eexists. reflexivity. }
    destruct (Hrun ("app", "key") Demo.serving (Demo.world_of ∅) out _ _ Hr)
      as (pre & merged & post & Ht & _ & Hlen & _).
    exists pre, merged, post. split; [exact Ht|exact Hlen].
Defined.

(** C3. With the warning enabled and the limit at [L]: a counter at
    [L - 1] lets the guard go on at once, with one query remaining and
    no sleep; a counter at [L] makes it warn, sleep ten seconds and
    only then check again, in the world the sleep has left. *)
Theorem rate_guard_threshold (env : Env) (w : World) (L : Z) :
  warning_enabled w = true →
  warning_limit w = L →
  (current_count w = (L - 1)%Z →
   AdvancedAlgorithmBase.api_limit_loop (seq 0 AdvancedAlgorithmBase.retries) env w
   = (inr tt, w,
      [pushInfo "API usage warning limit not reached yet (1 queries remaining)..."]))
  ∧ (current_count w = L →
     AdvancedAlgorithmBase.api_limit_loop (seq 0 AdvancedAlgorithmBase.retries) env w
     = prefix_trace
         [reportError "WARNING : API usage warning limit reached !" false;
          reportError "To continue, disable or increase the limit in the plugin settings, or reset the queries counter. Now is your chance to do the changes." false;
          reportError "Execution will resume in 10 seconds (retry 1 out of 10)" false;
          time_sleep 10]
         (AdvancedAlgorithmBase.api_limit_loop (seq 1 9) env (after_sleep env w))).
Proof.
  intros Hen Hlim. split; intros Hcount.
  - change (seq 0 AdvancedAlgorithmBase.retries) with (0 :: seq 1 9).
    rewrite api_limit_loop_pass.
    + unfold limit_passed. rewrite Hen, Hlim, Hcount.
      replace (L + 1 - (L - 1 + 1))%Z with 1%Z by lia. done.
    + unfold over_limit. rewrite Hen, Hlim, Hcount. cbn [andb]. lia.
  - change (seq 0 AdvancedAlgorithmBase.retries) with (0 :: seq 1 9).
    rewrite api_limit_loop_over; [done|].
    unfold over_limit. rewrite Hen, Hlim, Hcount. cbn [andb]. lia.
Qed.

(** C4. While the guard is enabled and the counter is at or over the
    limit at each of its ten checks, the slice sleeps ten times, then
    reports the fatal usage-limit error and raises: the whole loop of
    slices ends with that exception, whatever was accumulated, and the
    request of the slice is never made. *)
Theorem rate_guard_gives_up
    {Out} (alg : AdvancedAlgorithmBase.Algorithm Out)
    (source_departure source_arrival : option (list SearchFeature))
    (APP_ID API_KEY : string) (i : nat) (range : list nat) (results : list ApiResult)
    (env : Env) (w : World) (remixed : Data) :
  AdvancedAlgorithmBase.processAlgorithmRemixData alg
    (prepare_data source_departure source_arrival i) = inr remixed →
  (∀ k, k < AdvancedAlgorithmBase.retries → over_limit (after_sleeps env w k) = true) →
  ∃ t,
    AdvancedAlgorithmBase.slices_loop alg source_departure source_arrival APP_ID API_KEY
      (i :: range) results env w
    = (inl (QgsProcessingException "API usage limit warning"), after_sleeps env w 10, t)
    ∧ sleeps_of t = 10
    ∧ requests_of t = []
    ∧ outputs_of t = []
    ∧ last t = Some (reportError "Execution canceled because of API limit warning." true).
Proof.
  intros Hremix Hover.
  destruct (api_limit_loop_exhausted (seq 0 AdvancedAlgorithmBase.retries) env w)
    as (t & Hloop & Hsleeps & Hlast).
  { by rewrite length_seq. }
  rewrite length_seq in Hloop, Hsleeps.
  pose proof (api_limit_loop_quiet (seq 0 AdvancedAlgorithmBase.retries) env w)
    as (Hq & Ho & _).
  rewrite Hloop in Hq, Ho. unfold run_trace in Hq, Ho. cbn [snd] in Hq, Ho.
  eexists. split.
  - apply slices_loop_abort. rewrite slice_cycle_cases, Hremix.
    rewrite (bind_fail _ _ _ _ _ _ _ Hloop). reflexivity.
  - cbn [fst snd].
    assert (sleeps_of (loading_events source_departure source_arrival) = 0
            ∧ requests_of (loading_events source_departure source_arrival) = []
            ∧ outputs_of (loading_events source_departure source_arrival) = [])
      as (Hl1 & Hl2 & Hl3).
    { unfold loading_events.
      by destruct (bool_decide (is_Some source_departure)),
                  (bool_decide (is_Some source_arrival)). }
    rewrite !sleeps_of_app, !requests_of_app, !outputs_of_app, Hl1, Hl2, Hl3, Hq, Ho, Hsleeps.
    repeat split; try done.
    rewrite !last_app, Hlast. done.
Qed.

Lemma rate_guard_threshold_witness :
  AdvancedAlgorithmBase.api_limit_loop (seq 0 AdvancedAlgorithmBase.retries) Demo.serving
    (Demo.world_of (Demo.limits true 5 4))
  = (inr tt, Demo.world_of (Demo.limits true 5 4),
     [pushInfo "API usage warning limit not reached yet (1 queries remaining)..."])
  ∧ take 4 (run_trace (AdvancedAlgorithmBase.api_limit_loop
                         (seq 0 AdvancedAlgorithmBase.retries) Demo.serving
                         (Demo.world_of (Demo.limits true 5 5))))
    = [reportError "WARNING : API usage warning limit reached !" false;
       reportError "To continue, disable or increase the limit in the plugin settings, or reset the queries counter. Now is your chance to do the changes." false;
       reportError "Execution will resume in 10 seconds (retry 1 out of 10)" false;
       time_sleep 10].
Proof.
  split.
  - apply (rate_guard_threshold Demo.serving (Demo.world_of (Demo.limits true 5 4)) 5);
      vm_compute; reflexivity.
  - rewrite (proj2 (rate_guard_threshold Demo.serving (Demo.world_of (Demo.limits true 5 5)) 5
                      ltac:(vm_compute; reflexivity) ltac:(vm_compute; reflexivity))
               ltac:(vm_compute; reflexivity)).
    reflexivity.
Defined.

Lemma rate_guard_gives_up_witness :
  ∃ t,
    AdvancedAlgorithmBase.slices_loop Demo.time_map (Some Demo.twelve) None "app" "key"
      [0; 1] [] Demo.serving (Demo.world_of (Demo.limits true 5 5))
    = (inl (QgsProcessingException "API usage limit warning"),
       after_sleeps Demo.serving (Demo.world_of (Demo.limits true 5 5)) 10, t)
    ∧ sleeps_of t = 10 ∧ requests_of t = [].
Proof.
  destruct (rate_guard_gives_up Demo.time_map (Some Demo.twelve) None "app" "key" 0 [1] []
              Demo.serving (Demo.world_of (Demo.limits true 5 5))
              (prepare_data (Some Demo.twelve) None 0))
    as (t & Ht & Hs & Hr & _).
  - reflexivity.
  - intros k Hk.
    do 10 (destruct k as [|k]; [vm_compute; reflexivity|]).
    exfalso. unfold AdvancedAlgorithmBase.retries in Hk. lia.
  - exists t. split; [exact Ht|]. split; [exact Hs|exact Hr].
Defined.

Lemma make_request_fails {Out} (alg : AdvancedAlgorithmBase.Algorithm Out)
    APP_ID API_KEY data env w :
  exchange_fails env (AdvancedAlgorithmBase.url alg)
    (session env (requested w) (request_of alg APP_ID API_KEY data)) = true →
  ∃ e, run_result (AdvancedAlgorithmBase.make_request alg APP_ID API_KEY data env w) = inl e.
Proof.
  unfold exchange_fails. rewrite make_request_cases, run_result_prefix.
  destruct (session env (requested w) _) as [e|response]; [by eexists|].
  rewrite run_result_prefix.
  destruct (json_loads env (text response)) as [e|response_data]; [by eexists|].
  destruct (raise_for_status _ response) as [e|]; [intros _|by intros ?%bool_decide_eq_true%is_Some_None].
  destruct (except_HTTPError_raises (A:=list ApiResult) response response_data e env
              (received w response)) as (x & t & -> & _). by exists x.
Qed.

(** C5. When the cycle of a slice fails after the slices before it
    have succeeded, the operation ends with the exception of that
    cycle: it returns no result, and the results accumulated so far
    are never handed to the output stage. The cycle of a slice fails
    when the guard gives up, and when the exchange with the service
    fails (transport failure, undecodable body, HTTP error status). *)
Theorem failure_discards_results
    {Out} (alg : AdvancedAlgorithmBase.Algorithm Out)
    (source_departure source_arrival : option (list SearchFeature))
    (APP_ID API_KEY : string) (env : Env) :
  py_not APP_ID = false → py_not API_KEY = false →
  (∀ w k acc w_k t_k e w' t',
     k < slicing_count source_departure source_arrival →
     AdvancedAlgorithmBase.slices_loop alg source_departure source_arrival APP_ID API_KEY
       (seq 0 k) [] env w = (inr acc, w_k, t_k) →
     AdvancedAlgorithmBase.slice_cycle alg source_departure source_arrival APP_ID API_KEY
       k env w_k = (inl e, w', t') →
     ∃ t,
       AdvancedAlgorithmBase.processAlgorithm alg (APP_ID, API_KEY)
         source_departure source_arrival env w = (inl e, w', t)
       ∧ outputs_of t = [])
  ∧ (∀ w_k k remixed,
       AdvancedAlgorithmBase.processAlgorithmRemixData alg
         (prepare_data source_departure source_arrival k) = inr remixed →
       ((∀ j, j < AdvancedAlgorithmBase.retries → over_limit (after_sleeps env w_k j) = true)
        ∨ (∃ w1 t1,
             AdvancedAlgorithmBase.api_limit_loop (seq 0 AdvancedAlgorithmBase.retries) env w_k
             = (inr tt, w1, t1)
             ∧ exchange_fails env (AdvancedAlgorithmBase.url alg)
                 (session env (requested w1)
                    (request_of alg APP_ID API_KEY (json_dumps env remixed))) = true)) →
       ∃ e, run_result (AdvancedAlgorithmBase.slice_cycle alg source_departure source_arrival
                          APP_ID API_KEY k env w_k) = inl e).
Proof.
  intros Hid Hkey. split.
  - intros w k acc w_k t_k e w' t' Hk Hbefore Hfail.
    rewrite processAlgorithm_cases by done.
    replace (seq 0 (slicing_count source_departure source_arrival))
      with (seq 0 k ++ k :: seq (S k) (slicing_count source_departure source_arrival - S k)).
    2:{ change (k :: seq (S k) ?m) with (seq k (S m)).
        rewrite <- (seq_app k (S _) 0). f_equal. lia. }
    erewrite slices_loop_app by exact Hbefore.
    erewrite slices_loop_abort by exact Hfail.
    unfold prefix_trace. cbn [fst snd]. eexists. split; [reflexivity|].
    pose proof (slices_loop_requests alg source_departure source_arrival APP_ID API_KEY
                  (seq 0 k) [] env w) as [Ho _].
    pose proof (slice_cycle_requests alg source_departure source_arrival APP_ID API_KEY
                  k env w_k) as [Ho' _].
    rewrite Hbefore in Ho. rewrite Hfail in Ho'. unfold run_trace in Ho, Ho'. cbn [snd] in Ho, Ho'.
    change (outputs_of (?x :: ?l)) with (outputs_of ([x] ++ l)).
    rewrite !outputs_of_app, Ho, Ho'.
    unfold slicing_notice. by destruct (1 <? _).
  - intros w_k k remixed Hremix [Hover|(w1 & t1 & Hloop & Hex)].
    + destruct (api_limit_loop_exhausted (seq 0 AdvancedAlgorithmBase.retries) env w_k)
        as (t & Hloop & _); [by rewrite length_seq|].
      rewrite slice_cycle_cases, Hremix, run_result_prefix.
      rewrite (bind_fail _ _ _ _ _ _ _ Hloop). by eexists.
    + rewrite slice_cycle_cases, Hremix, run_result_prefix.
      rewrite (bind_ok _ _ _ _ _ _ _ Hloop), run_result_prefix.
      by apply make_request_fails.
Qed.

Lemma failure_discards_results_witness :
  (∃ w' t,
     AdvancedAlgorithmBase.processAlgorithm Demo.time_map ("app", "key")
       (Some Demo.twelve) None Demo.flaky (Demo.world_of ∅)
     = (inl (QgsProcessingException "Got error 400 form API"), w', t)
     ∧ outputs_of t = [])
  ∧ ∃ e, run_result (AdvancedAlgorithmBase.slice_cycle Demo.time_map (Some Demo.twelve) None
                       "app" "key" 1 Demo.flaky (sent (Demo.world_of ∅))) = inl e.
Proof.
  destruct (failure_discards_results Demo.time_map (Some Demo.twelve) None "app" "key"
              Demo.flaky eq_refl eq_refl) as [Habort Hkinds].
  split.
  - set (r1 := AdvancedAlgorithmBase.slices_loop Demo.time_map (Some Demo.twelve) None
                 "app" "key" (seq 0 1) [] Demo.flaky (Demo.world_of ∅)).
    assert (r1 = (inr [Demo.shape_result "a"], run_world r1, run_trace r1)) as H1.
    { vm_compute. reflexivity. }
    set (r2 := AdvancedAlgorithmBase.slice_cycle Demo.time_map (Some Demo.twelve) None
                 "app" "key" 1 Demo.flaky (run_world r1)).
    assert (r2 = (inl (QgsProcessingException "Got error 400 form API"),
                  run_world r2, run_trace r2)) as H2.
    { vm_compute. reflexivity. }
    destruct (Habort (Demo.world_of ∅) 1 _ _ _ _ _ _ ltac:(vm_compute; lia) H1 H2)
      as (t & Ht & Ho).
    exists (run_world r2), t. split; [exact Ht|exact Ho].
  - apply (Hkinds (sent (Demo.world_of ∅)) 1 (prepare_data (Some Demo.twelve) None 1) eq_refl).
    right. eexists _, _. split; [vm_compute; reflexivity|vm_compute; reflexivity].
Defined.

(** ** Payload remixes *)


Section TimeFilterRemix.

Import TimeFilterAlgorithm.

Lemma remix_searches_run (R : Search → Search → Prop) pass data_locations searches :
  (∀ s, has_coords s →
        ∃ l s', pass s = inr (l, s') ∧ location_of_search s = Some l ∧ R s s') →
  Forall has_coords searches →
  ∃ searches',
    remix_searches pass data_locations searches
    = inr (data_locations ++ omap location_of_search searches, searches')
    ∧ Forall2 R searches searches'.
Proof.
  intros Hpass Hall. revert data_locations.
  induction Hall as [|s rest Hs Hrest IH]; intros data_locations.
  - exists []. cbn. by rewrite app_nil_r.
  - destruct (Hpass s Hs) as (l & s' & Hp & Hl & HR).
    destruct (IH (data_locations ++ [l])) as (rest' & Hrun & Hall').
    exists (s' :: rest'). cbn [remix_searches]. rewrite Hp, Hrun.
    change (omap location_of_search (s :: rest))
      with (match location_of_search s with
            | Some y => y :: omap location_of_search rest
            | None => omap location_of_search rest
            end).
    rewrite Hl, <- app_assoc. split; [done|by constructor].
Qed.

Lemma remix_side_run (R : Search → Search → Prop) pass data_locations side :
  (∀ s, has_coords s →
        ∃ l s', pass s = inr (l, s') ∧ location_of_search s = Some l ∧ R s s') →
  Forall has_coords (searches_of side) →
  ∃ side',
    remix_side pass data_locations side
    = inr (data_locations ++ omap location_of_search (searches_of side), side')
    ∧ option_Forall2 (Forall2 R) side side'.
Proof.
  intros Hpass Hall. destruct side as [searches|]; cbn.
  - destruct (remix_searches_run R pass data_locations searches Hpass Hall)
      as (searches' & -> & HR).
    exists (Some searches'). split; [done|by constructor].
  - exists None. rewrite app_nil_r. split; [done|constructor].
Qed.

Lemma remix_departure_search_run ids s :
  has_coords s →
  ∃ l s', remix_departure_search ids s = inr (l, s')
          ∧ location_of_search s = Some l
          ∧ remixed_from departure_location_id arrival_location_ids ids s s'.
Proof.
  intros [c Hc]. unfold remix_departure_search, location_of_search. rewrite Hc.
  eexists _, _. split; [reflexivity|]. split; [done|]. by repeat split.
Qed.

Lemma remix_arrival_search_run ids s :
  has_coords s →
  ∃ l s', remix_arrival_search ids s = inr (l, s')
          ∧ location_of_search s = Some l
          ∧ remixed_from arrival_location_id departure_location_ids ids s s'.
Proof.
  intros [c Hc]. unfold remix_arrival_search, location_of_search. rewrite Hc.
  eexists _, _. split; [reflexivity|]. split; [done|]. by repeat split.
Qed.

(** The searches of a slice all carry their coordinates. *)
Lemma prepare_data_has_coords source_departure source_arrival i :
  Forall has_coords (searches_of (departure_searches
                                    (prepare_data source_departure source_arrival i)))
  ∧ Forall has_coords (searches_of (arrival_searches
                                      (prepare_data source_departure source_arrival i))).
Proof.
  unfold prepare_data, load_searches. cbn [departure_searches arrival_searches].
  split; [destruct source_departure|destruct source_arrival]; cbn;
    try apply Forall_nil_2; apply Forall_forall; intros s [p [-> _]]%list_elem_of_fmap;
    by eexists.
Qed.

End TimeFilterRemix.

(** C6, as the code has it. The remix of the time-filter endpoint
    (1) makes one flat [locations] list: the location records of the
    locations input, then one location per departure search and one
    per arrival search, with the id and the coordinates of the search;
    (2) removes [coords] from every departure and arrival search;
    (3) sets [departure_location_id] (resp. [arrival_location_id]) to
    the search's own id; and (4) sets [arrival_location_ids] (resp.
    [departure_location_ids]) to the ids of the location records of
    the locations input, in their order: the ids of the searches, though
    merged into [locations], are not part of it. *)
Theorem location_remix (locations_source : TimeFilterAlgorithm.Source) (data : Data) :
  Forall has_coords (searches_of (departure_searches data)) →
  Forall has_coords (searches_of (arrival_searches data)) →
  let records :=
    map (λ feature, {| loc_id := INPUT_LOCATIONS_ID feature;
                       loc_coords := location_point feature |})
        (TimeFilterAlgorithm.getFeatures locations_source) in
  ∃ remixed,
    TimeFilterAlgorithm.processAlgorithmRemixData locations_source data = inr remixed
    ∧ locations remixed
      = Some (records
                ++ omap location_of_search (searches_of (departure_searches data))
                ++ omap location_of_search (searches_of (arrival_searches data)))
    ∧ length (omap location_of_search (searches_of (departure_searches data)))
      = length (searches_of (departure_searches data))
    ∧ length (omap location_of_search (searches_of (arrival_searches data)))
      = length (searches_of (arrival_searches data))
    ∧ option_Forall2
        (Forall2 (remixed_from departure_location_id arrival_location_ids (map loc_id records)))
        (departure_searches data) (departure_searches remixed)
    ∧ option_Forall2
        (Forall2 (remixed_from arrival_location_id departure_location_ids (map loc_id records)))
        (arrival_searches data) (arrival_searches remixed)
    ∧ unions remixed = unions data
    ∧ intersections remixed = intersections data.
Proof.
  intros Hdep Harr records. unfold TimeFilterAlgorithm.processAlgorithmRemixData.
  fold records.
  destruct (remix_side_run _ _ records (departure_searches data)
              (remix_departure_search_run (map loc_id records)) Hdep)
    as (deps' & -> & Hdeps').
  destruct (remix_side_run _ _
              (records ++ omap location_of_search (searches_of (departure_searches data)))
              (arrival_searches data)
              (remix_arrival_search_run (map loc_id records)) Harr)
    as (arrs' & -> & Harrs').
  assert (∀ l, Forall has_coords l → length (omap location_of_search l) = length l) as Hlen.
  { induction 1 as [|s l [c Hc] _ IH]; [done|].
    cbn. unfold location_of_search at 1. rewrite Hc. cbn. by rewrite IH. }
  eexists. split; [reflexivity|]. cbn.
  rewrite <- app_assoc. repeat split; auto.
Qed.

Lemma location_remix_witness :
  ∃ remixed,
    TimeFilterAlgorithm.processAlgorithmRemixData
      {| TimeFilterAlgorithm.fields := ["name"];
         TimeFilterAlgorithm.getFeatures :=
           [{| INPUT_LOCATIONS_ID := "l"; location_point := {| lat := 1; lng := 2 |};
               geometry := "POINT (2 1)"; attributes := ["L"] |}] |}
      (prepare_data (Some [Demo.feature "a"; Demo.feature "b"]) None 0) = inr remixed
    ∧ map loc_id (default [] (locations remixed)) = ["l"; "a"; "b"]
    ∧ map arrival_location_ids (default [] (departure_searches remixed))
      = [Some ["l"]; Some ["l"]].
Proof.
  destruct (location_remix
              {| TimeFilterAlgorithm.fields := ["name"];
                 TimeFilterAlgorithm.getFeatures :=
                   [{| INPUT_LOCATIONS_ID := "l"; location_point := {| lat := 1; lng := 2 |};
                       geometry := "POINT (2 1)"; attributes := ["L"] |}] |}
              (prepare_data (Some [Demo.feature "a"; Demo.feature "b"]) None 0)
              ltac:(cbn; repeat (constructor; [by eexists|]); constructor)
              ltac:(cbn; constructor))
    as (remixed & Hrun & Hlocs & _).
  exists remixed. split; [exact Hrun|].
  vm_compute in Hrun. injection Hrun as <-. split; reflexivity.
Defined.

(** C6, as it is worded, fails: with one location record ["l"] and
    the departure searches ["a"] and ["b"], the merged list holds the
    ids [l, a, b], so that every id other than its own is [l, b] for
    the search ["a"], whose [arrival_location_ids] is [l]. *)
Lemma location_remix_counterexample :
  ¬ (∀ (locations_source : TimeFilterAlgorithm.Source)
       (source_departure source_arrival : option (list SearchFeature)) (i : nat)
       (remixed : Data) (s' : Search),
       TimeFilterAlgorithm.processAlgorithmRemixData locations_source
         (prepare_data source_departure source_arrival i) = inr remixed →
       s' ∈ searches_of (departure_searches remixed) →
       arrival_location_ids s' = Some (all_other_location_ids remixed s')).
Proof.
  intros Hclaim.
  pose (src := {| TimeFilterAlgorithm.fields := ["name"];
                  TimeFilterAlgorithm.getFeatures :=
                    [{| INPUT_LOCATIONS_ID := "l"; location_point := {| lat := 1; lng := 2 |};
                        geometry := "POINT (2 1)"; attributes := ["L"] |}] |}).
  destruct (TimeFilterAlgorithm.processAlgorithmRemixData src
              (prepare_data (Some [Demo.feature "a"; Demo.feature "b"]) None 0))
    as [e|remixed] eqn:Hrun; [by vm_compute in Hrun|].
  vm_compute in Hrun. injection Hrun as <-.
  specialize (Hclaim src (Some [Demo.feature "a"; Demo.feature "b"]) None 0 _ _ eq_refl
                (list_elem_of_here _ _)).
  vm_compute in Hclaim. discriminate Hclaim.
Qed.

(** ** The request helper of [base.py], case by case *)

Section BaseRequest.

Import AlgorithmBase.
Context (cfg : Config).
Implicit Types (env : Env) (w : World) (APP_ID API_KEY : string)
  (data : option Data) (params : list (string * string)).

Lemma headers_for_logs_hidden APP_ID API_KEY :
  py_not APP_ID = false → py_not API_KEY = false →
  headers_for_logs (headers cfg APP_ID API_KEY) = headers cfg "*hidden*" "*hidden*".
Proof.
  intros Hid Hkey. unfold headers_for_logs, headers.
  cbn [dict_get dict_set String.eqb Ascii.eqb Bool.eqb andb].
  rewrite Hid. cbn [negb dict_get dict_set String.eqb Ascii.eqb Bool.eqb andb].
  rewrite Hkey. reflexivity.
Qed.

Lemma processAlgorithmMakeRequest_cases APP_ID API_KEY data params env w :
  py_not APP_ID = false → py_not API_KEY = false →
  processAlgorithmMakeRequest cfg (APP_ID, API_KEY) data params env w
  = prefix_trace
      ([pushDebugInfo "Making request to API endpoint..."]
         ++ base_request_log cfg env w data params
         ++ https_notice w
         ++ [session_request (base_request_of cfg APP_ID API_KEY env w data params)])
      match session env (requested w) (base_request_of cfg APP_ID API_KEY env w data params) with
      | inl e => (inl (RequestException e), sent w, [])
      | inr response =>
          match json_loads env (text response) with
          | inl e => except_ValueError e env (sent w)
          | inr response_data =>
              match raise_for_status (full_url cfg) response with
              | Some e => except_HTTPError response response_data e env (sent w)
              | None =>
                  (inr response_data, base_received w response,
                   received_events response ++ base_response_log w response)
              end
          end
      end.
Proof.
  intros Hid Hkey.
  unfold processAlgorithmMakeRequest, base_request_log, https_notice, base_response_log,
    base_received, received_events, base_print_query.
  unfold bind at 1. cbn [ask]. rewrite Hid, Hkey. cbn [orb].
  rewrite (headers_for_logs_hidden _ _ Hid Hkey).
  fold (json_data_of env data). fold (full_url cfg).
  unfold when, bind, emit, ret, raise, cached_requests, ask, QSettings, QSettings_setValue,
    prefix_trace, base_request_of, disable_https; cbv beta iota.
  destruct (py_bool (value (settings w) "traveltime_platform/log_calls" (QBool false)));
    destruct (py_bool (value (settings w) "traveltime_platform/disable_https" (QBool false)));
    cbv beta iota; fold (sent w);
    (destruct (session env (requested w) _) as [e|response]; [done|]);
    (destruct (json_loads env (text response)) as [e|response_data];
     [ by destruct (except_ValueError (A:=ResponseData) e env (sent w)) as [[? ?] ?] | ]);
    (destruct (raise_for_status (full_url cfg) response) as [e|];
     [ by destruct (except_HTTPError (A:=ResponseData) response response_data e env (sent w))
            as [[? ?] ?] | ]);
    destruct (from_cache response); cbv beta iota; try done;
    fold (current_count_base (sent w)); fold (base_counted (sent w)); done.
Qed.

End BaseRequest.

(** ** Verbatim occurrence in a message *)

Section Occurs.

Implicit Types (x a b m : string).

Lemma string_app_assoc a b m : (a +:+ b) +:+ m = a +:+ (b +:+ m).
Proof.
  induction a as [|c a IH]; [done|].
  change (String c ((a +:+ b) +:+ m) = String c (a +:+ (b +:+ m))). by f_equal.
Qed.

Lemma string_app_nil_r a : a +:+ "" = a.
Proof.
  induction a as [|c a IH]; [done|].
  change (String c (a +:+ "") = String c a). by f_equal.
Qed.

Lemma occurs_in_here x b : occurs_in x (x +:+ b).
Proof. by exists "", b. Qed.

Lemma occurs_in_refl x : occurs_in x x.
Proof. exists "", "". cbn. by rewrite string_app_nil_r. Qed.

Lemma occurs_in_skip a x m : occurs_in x m → occurs_in x (a +:+ m).
Proof.
  intros (before & after & ->). exists (a +:+ before), after.
  by rewrite string_app_assoc.
Qed.

Lemma occurs_in_trans x m b : occurs_in x m → occurs_in m b → occurs_in x b.
Proof.
  intros (p & q & ->) (p' & q' & ->). exists (p' +:+ p), (q +:+ q').
  by rewrite !string_app_assoc.
Qed.

Lemma occurs_in_concat sep x (l : list string) :
  x ∈ l → occurs_in x (String.concat sep l).
Proof.
  induction l as [|a l IH]; [by intros ?%elem_of_nil|].
  intros [->|Hin]%elem_of_cons.
  - destruct l; [apply occurs_in_refl|apply occurs_in_here].
  - destruct l as [|a' l]; [by apply elem_of_nil in Hin|].
    change (String.concat sep (a :: a' :: l))
      with (a +:+ sep +:+ String.concat sep (a' :: l)).
    by apply occurs_in_skip, occurs_in_skip, IH.
Qed.

(** The details of an API error show the code, the description,
    the link and every entry of the additional information. *)
Lemma api_error_details_show code descr link info :
  occurs_in code (api_error_details code descr link info)
  ∧ occurs_in descr (api_error_details code descr link info)
  ∧ occurs_in link (api_error_details code descr link info)
  ∧ ∀ k v, (k, v) ∈ info →
           occurs_in k (api_error_details code descr link info)
           ∧ occurs_in v (api_error_details code descr link info).
Proof.
  unfold api_error_details. repeat split.
  - do 2 apply occurs_in_skip. apply occurs_in_here.
  - do 5 apply occurs_in_skip. apply occurs_in_here.
  - do 8 apply occurs_in_skip. apply occurs_in_here.
  - do 12 apply occurs_in_skip.
    eapply occurs_in_trans; [|apply occurs_in_concat, list_elem_of_fmap;
                               exists (k, v); split; [reflexivity|done]].
    cbn. apply occurs_in_skip, occurs_in_here.
  - do 12 apply occurs_in_skip.
    eapply occurs_in_trans; [|apply occurs_in_concat, list_elem_of_fmap;
                               exists (k, v); split; [reflexivity|done]].
    cbn. do 4 apply occurs_in_skip. apply occurs_in_refl.
Qed.

End Occurs.

Lemma raise_for_status_error url response :
  (400 ≤ status_code response < 600)%Z → is_Some (raise_for_status url response).
Proof.
  intros H. unfold raise_for_status.
  destruct (Z.leb_spec 400 (status_code response)); [|lia].
  destruct (Z.ltb_spec (status_code response) 500); cbn; [by eexists|].
  destruct (Z.leb_spec 500 (status_code response)); [|lia].
  destruct (Z.ltb_spec (status_code response) 600); cbn; [by eexists|lia].
Qed.

Lemma base_except_HTTPError_run {A} response code descr link info rest e env w :
  AlgorithmBase.except_HTTPError (A:=A) response
    {| results := rest; error_code := Some code; description := Some descr;
       documentation_link := Some link; additional_info := Some info |} e env w
  = (inl (QgsProcessingException ("Got error " +:+ pretty (status_code response) +:+ " from API")),
     w,
     [reportError ("Received error from the API." +:+ api_error_details code descr link info) true;
      reportError "See log for more details." true;
      logMessage e]).
Proof. done. Qed.

Lemma reports_api_error_intro head code descr link info t :
  reportError (head +:+ api_error_details code descr link info) true ∈ t →
  reports_api_error t code descr link info.
Proof.
  intros Hin. eexists. split; [exact Hin|].
  destruct (api_error_details_show code descr link info) as (H1 & H2 & H3 & H4).
  split; [by apply occurs_in_skip|]. split; [by apply occurs_in_skip|].
  split; [by apply occurs_in_skip|].
  intros k v Hkv. destruct (H4 k v Hkv). split; by apply occurs_in_skip.
Qed.

(** C9. A response with an HTTP error status (400 to 599) whose body
    is the structured error object makes the request end with an
    exception, after a fatal report to the user whose message shows the
    error code, the description, the documentation link and every
    entry of the additional information; the session has been called
    once and is not called again. This holds for the request of a
    slice in [algorithms.py] and for the helper of [base.py]. *)
Theorem api_error_reported
    (env : Env) (w : World) (response : Response)
    (code descr link : string) (info : list (string * string)) (rest : option (list ApiResult)) :
  (400 ≤ status_code response < 600)%Z →
  json_loads env (text response)
  = inr {| results := rest; error_code := Some code; description := Some descr;
           documentation_link := Some link; additional_info := Some info |} →
  (∀ Out (alg : AdvancedAlgorithmBase.Algorithm Out) APP_ID API_KEY data,
     session env (requested w) (request_of alg APP_ID API_KEY data) = inr response →
     ∃ t,
       AdvancedAlgorithmBase.make_request alg APP_ID API_KEY data env w
       = (inl (QgsProcessingException
                 ("Got error " +:+ pretty (status_code response) +:+ " form API")),
          received w response, t)
       ∧ reports_api_error t code descr link info
       ∧ requests_of t = [request_of alg APP_ID API_KEY data])
  ∧ (∀ cfg APP_ID API_KEY data params,
       py_not APP_ID = false → py_not API_KEY = false →
       session env (requested w) (base_request_of cfg APP_ID API_KEY env w data params)
       = inr response →
       ∃ t,
         AlgorithmBase.processAlgorithmMakeRequest cfg (APP_ID, API_KEY) data params env w
         = (inl (QgsProcessingException
                   ("Got error " +:+ pretty (status_code response) +:+ " from API")),
            sent w, t)
         ∧ reports_api_error t code descr link info
         ∧ requests_of t = [base_request_of cfg APP_ID API_KEY env w data params]).
Proof.
  intros Hstatus Hbody. split.
  - intros Out alg APP_ID API_KEY data Hsession.
    destruct (raise_for_status_error (AdvancedAlgorithmBase.url alg) response Hstatus)
      as [e He].
    pose proof (make_request_once alg APP_ID API_KEY data env w) as [Hreq _].
    rewrite make_request_cases in Hreq |- *.
    rewrite Hsession, Hbody, He in Hreq |- *. rewrite except_HTTPError_run in Hreq |- *.
    unfold prefix_trace, run_trace in Hreq |- *. cbn [fst snd] in Hreq |- *.
    eexists. split; [reflexivity|]. split; [|exact Hreq].
    eapply reports_api_error_intro.
    apply elem_of_app; right. apply elem_of_app; right. apply list_elem_of_here.
  - intros cfg APP_ID API_KEY data params Hid Hkey Hsession.
    destruct (raise_for_status_error (full_url cfg) response Hstatus) as [e He].
    rewrite processAlgorithmMakeRequest_cases by done.
    rewrite Hsession, Hbody, He, base_except_HTTPError_run.
    unfold prefix_trace. cbn [fst snd].
    eexists. split; [reflexivity|]. split.
    + eapply reports_api_error_intro.
      apply elem_of_app; right. apply list_elem_of_here.
    + rewrite !requests_of_app.
      unfold base_request_log, https_notice.
      by destruct (base_print_query w), (disable_https w).
Qed.

Lemma api_error_reported_witness :
  (∃ t,
     AdvancedAlgorithmBase.make_request Demo.time_map "app" "key" "{}" Demo.refusing
       (Demo.world_of ∅)
     = (inl (QgsProcessingException "Got error 400 form API"),
        received (Demo.world_of ∅) (Demo.fresh 400 "Bad Request" "error"), t)
     ∧ reports_api_error t "X" "Y" "Z" [("field", "wrong")])
  ∧ ∃ t,
      AlgorithmBase.processAlgorithmMakeRequest Demo.config ("app", "key") None []
        Demo.refusing (Demo.world_of ∅)
      = (inl (QgsProcessingException "Got error 400 from API"), sent (Demo.world_of ∅), t)
      ∧ reports_api_error t "X" "Y" "Z" [("field", "wrong")].
Proof.
  destruct (api_error_reported Demo.refusing (Demo.world_of ∅)
              (Demo.fresh 400 "Bad Request" "error") "X" "Y" "Z" [("field", "wrong")] None
              ltac:(cbn; lia) eq_refl) as [Hlegacy Hbase].
  split.
  - destruct (Hlegacy _ Demo.time_map "app" "key" "{}" eq_refl) as (t & Ht & Hrep & _).
    exists t. split; [exact Ht|exact Hrep].
  - destruct (Hbase Demo.config "app" "key" None [] eq_refl eq_refl eq_refl)
      as (t & Ht & Hrep & _).
    exists t. split; [exact Ht|exact Hrep].
Defined.

(** ** The usage counter *)

Section Counter.

Implicit Types (env : Env) (w : World).

Lemma current_count_counted w : current_count (counted w) = (current_count w + 1)%Z.
Proof.
  unfold current_count at 1, counted, value, setValue. cbn [settings].
  by rewrite lookup_insert_eq.
Qed.

Lemma current_count_base_counted w :
  current_count_base (base_counted w) = (current_count_base w + 1)%Z.
Proof.
  unfold current_count_base at 1, base_counted, value, setValue. cbn [settings].
  by rewrite lookup_insert_eq.
Qed.

(** In [algorithms.py] the counter moves as soon as a fresh response
    is there, whatever its body and its status turn out to be. *)
Lemma make_request_counter {Out} (alg : AdvancedAlgorithmBase.Algorithm Out)
    APP_ID API_KEY data env w :
  current_count (run_world (AdvancedAlgorithmBase.make_request alg APP_ID API_KEY data env w))
  = match session env (requested w) (request_of alg APP_ID API_KEY data) with
    | inl _ => current_count w
    | inr response =>
        if from_cache response then current_count w else (current_count w + 1)%Z
    end.
Proof.
  rewrite make_request_cases, run_world_prefix.
  destruct (session env (requested w) _) as [e|response]; [done|].
  rewrite run_world_prefix.
  assert (current_count (received w response)
          = if from_cache response then current_count w else (current_count w + 1)%Z) as Hc.
  { unfold received. destruct (from_cache response); [done|].
    by rewrite current_count_counted. }
  destruct (json_loads env (text response)) as [e|response_data]; [done|].
  destruct (raise_for_status _ response) as [e|].
  - destruct (except_HTTPError_raises (A:=list ApiResult) response response_data e env
                (received w response)) as (x & t & -> & _). done.
  - by rewrite subscript_run.
Qed.

(** In [base.py] the counter moves by one when a fresh response has
    been decoded and has no error status, and in no other case. *)
Lemma processAlgorithmMakeRequest_counter cfg APP_ID API_KEY data params env w :
  current_count_base
    (run_world (AlgorithmBase.processAlgorithmMakeRequest cfg (APP_ID, API_KEY)
                  data params env w))
  = match run_result (AlgorithmBase.processAlgorithmMakeRequest cfg (APP_ID, API_KEY)
                        data params env w),
          session env (requested w) (base_request_of cfg APP_ID API_KEY env w data params) with
    | inr _, inr response =>
        if from_cache response then current_count_base w else (current_count_base w + 1)%Z
    | _, _ => current_count_base w
    end.
Proof.
  destruct (py_not APP_ID || py_not API_KEY) eqn:Hcred.
  { unfold AlgorithmBase.processAlgorithmMakeRequest, bind at 1. cbn [ask].
    rewrite Hcred. done. }
  apply orb_false_elim in Hcred as [Hid Hkey].
  rewrite processAlgorithmMakeRequest_cases by done.
  rewrite run_world_prefix, run_result_prefix.
  destruct (session env (requested w) _) as [e|response]; [done|].
  destruct (json_loads env (text response)) as [e|response_data]; [done|].
  destruct (raise_for_status _ response) as [e|].
  - destruct response_data as [rs [code|] [descr|] [link|] [info|]]; done.
  - unfold base_received, run_world, run_result. cbn [fst snd].
    destruct (from_cache response); [done|]. by rewrite current_count_base_counted.
Qed.

End Counter.

(** C2, at an input where the code departs from it. In
    [algorithms.py], with one departure search and a service that
    answers with a fresh HTTP 400 and the structured error body, the
    operation fails with the exception of the API error, and the
    persisted counter, at 0 before, is at 1 after: the failed request
    has been counted. *)
Theorem usage_counter_counts_failed_request :
  let run :=
    AdvancedAlgorithmBase.processAlgorithm Demo.time_map ("app", "key")
      (Some [Demo.feature "a"]) None Demo.refusing (Demo.world_of ∅) in
  run_result run = inl (QgsProcessingException "Got error 400 form API")
  ∧ current_count (Demo.world_of ∅) = 0%Z
  ∧ current_count (run_world run) = 1%Z.
Proof. vm_compute. done. Qed.

(** On the same service the helper of [base.py] fails and leaves its
    counter at 0. *)
Lemma base_counter_skips_failed_request :
  let run :=
    AlgorithmBase.processAlgorithmMakeRequest Demo.config ("app", "key") None []
      Demo.refusing (Demo.world_of ∅) in
  run_result run = inl (QgsProcessingException "Got error 400 from API")
  ∧ current_count_base (run_world run) = 0%Z.
Proof. vm_compute. done. Qed.

(** ** The request log of [base.py] *)

(** Without both credentials the helper raises at once: nothing is
    logged and the session is not called. *)
Lemma processAlgorithmMakeRequest_no_credentials cfg APP_ID API_KEY data params env w :
  py_not APP_ID || py_not API_KEY = true →
  ∃ t,
    AlgorithmBase.processAlgorithmMakeRequest cfg (APP_ID, API_KEY) data params env w
    = (inl (QgsProcessingException "App ID or api key not set"), w, t)
    ∧ log_of t = [] ∧ requests_of t = [].
Proof.
  intros Hcred. unfold AlgorithmBase.processAlgorithmMakeRequest, bind at 1. cbn [ask].
  rewrite Hcred. by eexists.
Qed.

(** In the request helper of [base.py], with both credentials set:
    the header map that is logged is the header map of the
    request with [X-Application-Id] and [X-Api-Key] replaced by
    [*hidden*]; what is logged before the request is a function of the
    configuration, the payload, the parameters and the settings alone;
    the request handed to the session carries the two credentials as
    they are; and two runs that differ in the credentials only, and get
    the same answer from the session, write the same log. *)
Theorem log_hides_credentials
    (cfg : AlgorithmBase.Config) (APP_ID API_KEY : string) (data : option Data)
    (params : list (string * string)) (env : Env) (w : World) :
  py_not APP_ID = false → py_not API_KEY = false →
  let run := AlgorithmBase.processAlgorithmMakeRequest cfg (APP_ID, API_KEY) data params env w in
  AlgorithmBase.headers_for_logs (AlgorithmBase.headers cfg APP_ID API_KEY)
  = AlgorithmBase.headers cfg "*hidden*" "*hidden*"
  ∧ (∃ post,
       run_trace run
       = [pushDebugInfo "Making request to API endpoint..."]
           ++ base_request_log cfg env w data params
           ++ https_notice w
           ++ session_request (base_request_of cfg APP_ID API_KEY env w data params) :: post)
  ∧ (base_print_query w = true →
     take 5 (log_of (run_trace run))
     = ["Making request";
        "url: " +:+ full_url cfg;
        "headers: " +:+ py_str_dict (AlgorithmBase.headers cfg "*hidden*" "*hidden*");
        "params: " +:+ py_str_dict params;
        "data: " +:+ json_data_of env data])
  ∧ AlgorithmBase.dict_get "X-Application-Id"
      (rq_headers (base_request_of cfg APP_ID API_KEY env w data params)) = APP_ID
  ∧ AlgorithmBase.dict_get "X-Api-Key"
      (rq_headers (base_request_of cfg APP_ID API_KEY env w data params)) = API_KEY
  ∧ (∀ APP_ID' API_KEY',
       py_not APP_ID' = false → py_not API_KEY' = false →
       session env (requested w) (base_request_of cfg APP_ID' API_KEY' env w data params)
       = session env (requested w) (base_request_of cfg APP_ID API_KEY env w data params) →
       log_of (run_trace (AlgorithmBase.processAlgorithmMakeRequest cfg (APP_ID', API_KEY')
                            data params env w))
       = log_of (run_trace run)).
Proof.
  intros Hid Hkey run. subst run.
  split; [by apply headers_for_logs_hidden|].
  split; [|split; [|split; [done|split; [done|]]]].
  - rewrite processAlgorithmMakeRequest_cases, run_trace_prefix by done.
    eexists. rewrite <- !app_assoc. reflexivity.
  - intros Hlog.
    rewrite processAlgorithmMakeRequest_cases, run_trace_prefix by done.
    unfold base_request_log. rewrite Hlog.
    unfold https_notice. by destruct (disable_https w).
  - intros APP_ID' API_KEY' Hid' Hkey' Hsame.
    rewrite !processAlgorithmMakeRequest_cases, !run_trace_prefix by done.
    rewrite Hsame, !log_of_app. f_equal.
Qed.

Lemma log_hides_credentials_witness :
  take 5 (log_of (run_trace
            (AlgorithmBase.processAlgorithmMakeRequest Demo.config ("app", "key") None []
               Demo.serving
               (Demo.world_of (<["traveltime_platform/log_calls" := QBool true]> ∅)))))
  = ["Making request";
     "url: https://api.traveltimeapp.com/v4/time-map";
     "headers: {'Content-type': 'application/json', 'Accept': 'application/json', 'User-Agent': 'QGIS / 31600 / 1.0', 'X-Application-Id': '*hidden*', 'X-Api-Key': '*hidden*'}";
     "params: {}";
     "data: null"]
  ∧ log_of (run_trace
              (AlgorithmBase.processAlgorithmMakeRequest Demo.config ("other", "secret") None []
                 Demo.serving
                 (Demo.world_of (<["traveltime_platform/log_calls" := QBool true]> ∅))))
    = log_of (run_trace
                (AlgorithmBase.processAlgorithmMakeRequest Demo.config ("app", "key") None []
                   Demo.serving
                   (Demo.world_of (<["traveltime_platform/log_calls" := QBool true]> ∅)))).
Proof.
  destruct (log_hides_credentials Demo.config "app" "key" None [] Demo.serving
              (Demo.world_of (<["traveltime_platform/log_calls" := QBool true]> ∅))
              eq_refl eq_refl) as (_ & _ & Hlog & _ & _ & Hsame).
  split.
  - rewrite Hlog by (vm_compute; reflexivity). vm_compute. reflexivity.
  - apply Hsame; reflexivity.
Defined.

(** ** The request log of [algorithms.py] *)

Lemma string_length_app (s t : string) :
  String.length (s +:+ t) = String.length s + String.length t.
Proof. induction s as [|c s IH]; [done|]. simpl. by f_equal. Qed.

Lemma string_app_inj_r (s1 s2 t : string) : s1 +:+ t = s2 +:+ t → s1 = s2.
Proof.
  revert s2. induction s1 as [|c s1 IH]; intros [|c' s2]; simpl; intros Heq.
  - done.
  - apply (f_equal String.length) in Heq. rewrite ?string_length_app in Heq.
    simpl in Heq. rewrite ?string_length_app in Heq. lia.
  - apply (f_equal String.length) in Heq. rewrite ?string_length_app in Heq.
    simpl in Heq. rewrite ?string_length_app in Heq. lia.
  - injection Heq as -> Heq. by rewrite (IH _ Heq).
Qed.

(** [str] of the header map of [algorithms.py] tells the API keys
    apart. *)
Lemma legacy_headers_text_inj {Out} (alg : AdvancedAlgorithmBase.Algorithm Out)
    (APP_ID API_KEY API_KEY' : string) :
  py_str_dict (AdvancedAlgorithmBase.headers alg APP_ID API_KEY')
  = py_str_dict (AdvancedAlgorithmBase.headers alg APP_ID API_KEY) →
  API_KEY' = API_KEY.
Proof.
  unfold py_str_dict, AdvancedAlgorithmBase.headers. cbn [map String.concat fst snd].
  intros Heq.
  apply (inj (String.app _)), string_app_inj_r in Heq.
  do 9 apply (inj (String.app _)) in Heq.
  by apply string_app_inj_r in Heq.
Qed.

(** The older engine of [algorithms.py] logs the header map as it is
    sent. *)
Remark legacy_log_shows_headers :
  "headers: {'Content-type': 'application/json', 'Accept': 'application/vnd.wkt+json', 'X-Application-Id': 'app', 'X-Api-Key': 'key'}"
  ∈ log_of (run_trace
              (AdvancedAlgorithmBase.make_request Demo.time_map "app" "key" "{}" Demo.serving
                 (Demo.world_of (<["travel_time_platform/log_calls" := QBool true]> ∅)))).
Proof. vm_compute. apply list_elem_of_further, list_elem_of_further, list_elem_of_here. Qed.

(** C10, at an input where the code departs from it. In
    [algorithms.py] (lines 326-331), with verbose logging enabled,
    the request of a slice writes to the log the header map it sends:
    the first four messages are the announcement, the URL, [str] of
    the headers with [X-Application-Id] and [X-Api-Key] holding the
    credentials as they are, not [*hidden*], and the payload; two
    runs that differ in the API key only never write the same log. *)
Theorem legacy_log_writes_credentials {Out} (alg : AdvancedAlgorithmBase.Algorithm Out)
    (APP_ID API_KEY data : string) (env : Env) (w : World) :
  print_query w = true →
  let run key := AdvancedAlgorithmBase.make_request alg APP_ID key data env w in
  take 4 (log_of (run_trace (run API_KEY)))
  = ["Making request";
     "url: " +:+ AdvancedAlgorithmBase.url alg;
     "headers: " +:+ py_str_dict [("Content-type", "application/json");
                                  ("Accept", AdvancedAlgorithmBase.accept_header alg);
                                  ("X-Application-Id", APP_ID);
                                  ("X-Api-Key", API_KEY)];
     "data: " +:+ data]
  ∧ rq_headers (request_of alg APP_ID API_KEY data)
    = [("Content-type", "application/json");
       ("Accept", AdvancedAlgorithmBase.accept_header alg);
       ("X-Application-Id", APP_ID);
       ("X-Api-Key", API_KEY)]
  ∧ (∀ API_KEY', API_KEY' ≠ API_KEY →
       log_of (run_trace (run API_KEY')) ≠ log_of (run_trace (run API_KEY))).
Proof.
  intros Hlog run.
  assert (∀ key, ∃ rest,
            log_of (run_trace (run key))
            = ["Making request";
               "url: " +:+ AdvancedAlgorithmBase.url alg;
               "headers: " +:+ py_str_dict (AdvancedAlgorithmBase.headers alg APP_ID key);
               "data: " +:+ data] ++ rest) as Hshape.
  { intros key. subst run. cbv beta.
    rewrite make_request_cases, run_trace_prefix, !log_of_app.
    unfold request_log. rewrite Hlog. eexists. reflexivity. }
  split; [|split; [done|]].
  - destruct (Hshape API_KEY) as [rest ->]. done.
  - intros key Hne Heq. destruct (Hshape key) as [rest' Hkey].
    destruct (Hshape API_KEY) as [rest Hgiven]. rewrite Hkey, Hgiven in Heq.
    apply (f_equal (λ l, nth 2 l "")) in Heq. cbn [nth app] in Heq.
    apply (inj (String.app _)) in Heq. by apply legacy_headers_text_inj in Heq.
Qed.

Lemma legacy_log_writes_credentials_witness :
  take 4 (log_of (run_trace
            (AdvancedAlgorithmBase.make_request Demo.time_map "app" "key" "{}" Demo.serving
               verbose)))
  = ["Making request";
     "url: https://api.traveltimeapp.com/v4/time-map";
     "headers: {'Content-type': 'application/json', 'Accept': 'application/vnd.wkt+json', 'X-Application-Id': 'app', 'X-Api-Key': 'key'}";
     "data: {}"]
  ∧ log_of (run_trace
              (AdvancedAlgorithmBase.make_request Demo.time_map "app" "other" "{}"
                 Demo.serving verbose))
    ≠ log_of (run_trace
                (AdvancedAlgorithmBase.make_request Demo.time_map "app" "key" "{}"
                   Demo.serving verbose))
  ∧ "headers: {'Content-type': 'application/json', 'Accept': 'application/vnd.wkt+json', 'X-Application-Id': 'app', 'X-Api-Key': 'key'}"
    ∈ log_of (run_trace
                (AdvancedAlgorithmBase.processAlgorithm Demo.time_map ("app", "key")
                   (Some [Demo.feature "a"]) None Demo.serving verbose)).
Proof.
  destruct (legacy_log_writes_credentials Demo.time_map "app" "key" "{}" Demo.serving verbose
              eq_refl) as (Hlog & _ & Hdiffer).
  split; [exact Hlog|]. split; [by apply Hdiffer|].
  vm_compute. repeat first [apply list_elem_of_here | apply list_elem_of_further].
Defined.

(** ** Correlation of the results *)

Section TimeMapOutput.

Import TimeMapAlgorithm.

Lemma feature_of_result_run r :
  carries_geometry r → feature_of_result r = inr (geometry_feature r).
Proof.
  intros [[wkt Hs] [props Hp]]. unfold feature_of_result, geometry_feature.
  by rewrite Hs, Hp.
Qed.

Lemma time_map_add_features_run results sinks :
  Forall carries_geometry results →
  add_features results sinks
  = inr {| OUTPUT_SEARCHES :=
             OUTPUT_SEARCHES sinks
             ++ map geometry_feature
                  (filter (λ r, search_id r ≠ "union_all"
                                ∧ search_id r ≠ "intersection_all") results);
           OUTPUT_UNION :=
             OUTPUT_UNION sinks
             ++ map geometry_feature (filter (λ r, search_id r = "union_all") results);
           OUTPUT_INTER :=
             OUTPUT_INTER sinks
             ++ map geometry_feature
                  (filter (λ r, search_id r = "intersection_all") results) |}.
Proof.
  intros Hall. revert sinks. induction Hall as [|r rest Hr _ IH]; intros sinks.
  - cbn. rewrite !app_nil_r. by destruct sinks.
  - cbn [add_features]. rewrite (feature_of_result_run r Hr), !filter_cons.
    destruct (String.eqb_spec (search_id r) "union_all") as [Hu|Hu];
      [|destruct (String.eqb_spec (search_id r) "intersection_all") as [Hi|Hi]];
      rewrite IH; cbn [OUTPUT_SEARCHES OUTPUT_UNION OUTPUT_INTER];
      repeat case_decide;
      try (exfalso; intuition congruence);
      cbn [map]; by rewrite <- ?app_assoc.
Qed.

End TimeMapOutput.

Section TimeFilterOutput.

Import TimeFilterAlgorithm.
Context (lookup : Lookup) (locations_source : Source).
Implicit Types (result : ApiResult) (location : LocationResult).

Lemma find_agree {A} (p q : A → bool) (l : list A) :
  (∀ a, a ∈ l → p a = q a) → find p l = find q l.
Proof.
  induction l as [|a l IH]; [done|]. intros Hpq. cbn [find].
  rewrite (Hpq a) by left. destruct (q a); [done|].
  apply IH. intros b Hb. apply Hpq. by right.
Qed.

(** Where the request compares the ids as they are, the lookup is
    the search of the first record with the id. *)
Lemma get_location_feature_plain id_ :
  plain_lookup lookup locations_source id_ →
  get_location_feature lookup locations_source id_
  = find (λ f, (INPUT_LOCATIONS_ID f =? id_)%string) (getFeatures locations_source).
Proof. intros Hplain. unfold get_location_feature. by apply find_agree. Qed.

Lemma output_fields_free :
  free_names locations_source →
  output_rslts_fields locations_source = fields locations_source ++ ["search_id"; "properties"]
  ∧ output_unrch_fields locations_source = fields locations_source ++ ["search_id"].
Proof.
  intros [Hs Hp]. unfold output_rslts_fields, output_unrch_fields, QgsFields_append.
  rewrite (bool_decide_eq_false_2 _ Hs).
  rewrite bool_decide_eq_false_2.
  - by rewrite <- app_assoc.
  - intros [?|Hin]%elem_of_app; [done|]. by apply list_elem_of_singleton in Hin.
Qed.

Lemma get_location_feature_None id_ :
  plain_lookup lookup locations_source id_ →
  get_location_feature lookup locations_source id_ = None
  ↔ ∀ f, f ∈ getFeatures locations_source → INPUT_LOCATIONS_ID f ≠ id_.
Proof.
  intros Hplain. rewrite (get_location_feature_plain _ Hplain). split.
  - intros Hnone f Hf%list_elem_of_In.
    pose proof (find_none _ _ Hnone f Hf) as Hneq. cbn in Hneq.
    by apply String.eqb_neq.
  - intros Hall. induction (getFeatures locations_source) as [|f l IH]; [done|].
    cbn. destruct (String.eqb_spec (INPUT_LOCATIONS_ID f) id_) as [Heq|Hneq].
    + exfalso. apply (Hall f); [left|done].
    + apply IH. intros g Hg. apply Hall. by right.
Qed.

Lemma get_location_feature_Some id_ base_ft :
  plain_lookup lookup locations_source id_ →
  get_location_feature lookup locations_source id_ = Some base_ft →
  base_ft ∈ getFeatures locations_source ∧ INPUT_LOCATIONS_ID base_ft = id_.
Proof.
  intros Hplain. rewrite (get_location_feature_plain _ Hplain). intros [Hin Heq]%find_some.
  split; [by apply list_elem_of_In|by apply String.eqb_eq].
Qed.

Lemma get_location_feature_unique f :
  plain_lookup lookup locations_source (INPUT_LOCATIONS_ID f) →
  NoDup (map INPUT_LOCATIONS_ID (getFeatures locations_source)) →
  f ∈ getFeatures locations_source →
  get_location_feature lookup locations_source (INPUT_LOCATIONS_ID f) = Some f.
Proof.
  intros Hplain. rewrite (get_location_feature_plain _ Hplain).
  induction (getFeatures locations_source) as [|g l IH]; cbn [map find].
  - by intros _ ?%elem_of_nil.
  - intros [Hnotin Hnodup]%NoDup_cons [->|Hin]%elem_of_cons.
    + by rewrite String.eqb_refl.
    + destruct (String.eqb_spec (INPUT_LOCATIONS_ID g) (INPUT_LOCATIONS_ID f)) as [Heq|_].
      * exfalso. apply Hnotin. rewrite Heq. apply list_elem_of_fmap. by exists f.
      * by apply IH.
Qed.

(** The loop over the fields copies the attributes of the record. *)
Lemma copy_attributes_run base_ft g (l : list (option string)) n :
  n ≤ length l →
  foldl (λ feature i, setAttribute i (attributes base_ft !! i) feature)
        {| ft_geometry := g; ft_attributes := l |} (seq 0 n)
  = {| ft_geometry := g;
       ft_attributes := map (λ i, attributes base_ft !! i) (seq 0 n) ++ drop n l |}.
Proof.
  induction n as [|n IH]; intros Hn; [done|].
  rewrite seq_S, foldl_app, IH by lia. cbn [foldl Nat.add].
  unfold setAttribute. cbn [ft_geometry ft_attributes]. f_equal.
  rewrite map_app. cbn [map]. rewrite <- app_assoc.
  rewrite insert_app_r_alt by (rewrite length_map, length_seq; lia).
  rewrite length_map, length_seq, Nat.sub_diag.
  destruct (drop n l) as [|x rest] eqn:Hdrop.
  { apply (f_equal length) in Hdrop. rewrite length_drop in Hdrop. simpl in Hdrop. lia. }
  cbn. f_equal. f_equal.
  change (S n) with (1 + n). rewrite Nat.add_comm, <- drop_drop, Hdrop. done.
Qed.

Lemma reached_feature_run result location base_ft :
  free_names locations_source →
  get_location_feature lookup locations_source (lr_id location) = Some base_ft →
  is_Some (lr_properties location) →
  reached_feature lookup locations_source result location
  = inr (joined locations_source base_ft [Some (search_id result); lr_properties location]).
Proof.
  intros [Hfields _]%output_fields_free Hget [props Hprops].
  unfold reached_feature, joined. rewrite Hget, Hprops, Hfields, length_app.
  cbn [length].
  unfold copy_attributes, setGeometry, new_feature. cbn [ft_geometry ft_attributes].
  rewrite copy_attributes_run by (rewrite length_replicate; lia).
  unfold setAttribute. cbn [ft_geometry ft_attributes]. do 2 f_equal.
  set (n := length (fields locations_source)).
  set (copied := map (λ i, attributes base_ft !! i) (seq 0 n)).
  assert (length copied = n) as Hlen by (subst copied; by rewrite length_map, length_seq).
  rewrite drop_replicate. replace (n + 2 - n) with 2 by lia. cbn [replicate].
  replace (n + 2 - 2) with n by lia. replace (n + 2 - 1) with (S n) by lia.
  rewrite (insert_app_r_alt copied _ n) by lia.
  rewrite Hlen, Nat.sub_diag. cbn [insert list_insert].
  rewrite (insert_app_r_alt copied _ (S n)) by lia.
  rewrite Hlen. replace (S n - n) with 1 by lia. done.
Qed.

Lemma unreachable_feature_run result id_ base_ft :
  free_names locations_source →
  get_location_feature lookup locations_source id_ = Some base_ft →
  unreachable_feature lookup locations_source result id_
  = inr (joined locations_source base_ft [Some (search_id result)]).
Proof.
  intros [_ Hfields]%output_fields_free Hget.
  unfold unreachable_feature, joined. rewrite Hget, Hfields, length_app.
  cbn [length].
  unfold copy_attributes, setGeometry, new_feature. cbn [ft_geometry ft_attributes].
  rewrite copy_attributes_run by (rewrite length_replicate; lia).
  unfold setAttribute. cbn [ft_geometry ft_attributes]. do 2 f_equal.
  set (n := length (fields locations_source)).
  set (copied := map (λ i, attributes base_ft !! i) (seq 0 n)).
  assert (length copied = n) as Hlen by (subst copied; by rewrite length_map, length_seq).
  rewrite drop_replicate. replace (n + 1 - n) with 1 by lia. cbn [replicate].
  replace (n + 1 - 1) with n by lia.
  rewrite (insert_app_r_alt copied _ n) by lia.
  rewrite Hlen, Nat.sub_diag. done.
Qed.

(** A loop over elements that are joined or fail the assertion. *)
Lemma add_each_run {A} (make : A → exn + QgsFeature) (id_of : A → string)
    (J : A → QgsFeature → Prop) (l : list A) (sink : list QgsFeature) :
  (∀ a base_ft, a ∈ l →
                get_location_feature lookup locations_source (id_of a) = Some base_ft →
                ∃ f, make a = inr f ∧ J a f) →
  (∀ a, a ∈ l → get_location_feature lookup locations_source (id_of a) = None →
        make a = inl AssertionError) →
  (Forall (λ a, found lookup locations_source (id_of a)) l ∧
   ∃ fs, add_each make l sink = inr (sink ++ fs) ∧ Forall2 J l fs)
  ∨ (Exists (λ a, get_location_feature lookup locations_source (id_of a) = None) l
     ∧ add_each make l sink = inl AssertionError).
Proof.
  revert sink. induction l as [|a l IH]; intros sink Hsome Hnone.
  - left. split; [constructor|]. exists []. cbn. rewrite app_nil_r. split; [done|constructor].
  - destruct (get_location_feature lookup locations_source (id_of a)) as [base_ft|] eqn:Hget.
    + destruct (Hsome a base_ft ltac:(left) Hget) as (f & Hf & HJ).
      destruct (IH (sink ++ [f])) as [(Hall & fs & Hrun & HJs)|(Hex & Hrun)].
      * intros a' b Ha'. apply Hsome. by right.
      * intros a' Ha'. apply Hnone. by right.
      * left. split; [constructor; [by eexists|done]|].
        exists (f :: fs). cbn [add_each]. rewrite Hf, Hrun, <- app_assoc.
        split; [done|by constructor].
      * right. split; [by apply Exists_cons_tl|]. cbn [add_each]. by rewrite Hf, Hrun.
    + right. split; [by apply Exists_cons_hd|]. cbn [add_each].
      by rewrite (Hnone a ltac:(left) Hget).
Qed.

End TimeFilterOutput.

Section TimeFilterLoop.

Import TimeFilterAlgorithm.
Context (lookup : Lookup) (locations_source : Source).
Hypothesis names_are_free : free_names locations_source.

Lemma time_filter_add_features_run results sinks :
  Forall location_shaped results →
  (Forall (λ r, Forall (found lookup locations_source) (refers_to r)) results
   ∧ ∃ fs us,
       add_features lookup locations_source results sinks
       = inr {| OUTPUT_RESULTS := OUTPUT_RESULTS sinks ++ fs;
                OUTPUT_UNREACHABLE := OUTPUT_UNREACHABLE sinks ++ us |}
       ∧ Forall2 (is_reached lookup locations_source) (reached_entries results) fs
       ∧ Forall2 (is_unreachable lookup locations_source) (unreachable_entries results) us)
  ∨ (Exists (λ r, Exists (λ id_, get_location_feature lookup locations_source id_ = None)
                    (refers_to r)) results
     ∧ add_features lookup locations_source results sinks = inl AssertionError).
Proof.
  intros Hshaped. revert sinks.
  induction Hshaped as [|r rest ([ls Hl] & [us Hu] & Hprops) _ IH]; intros sinks.
  { left. split; [constructor|]. exists [], []. cbn. rewrite !app_nil_r.
    split; [by destruct sinks|]. split; constructor. }
  rewrite Hl in Hprops. cbn [default from_option id] in Hprops.
  cbn [add_features]. rewrite Hl.
  destruct (add_each_run lookup locations_source
              (reached_feature lookup locations_source r) lr_id
              (λ l f, is_reached lookup locations_source (r, l) f) ls (OUTPUT_RESULTS sinks))
    as [(Hfound1 & fs1 & -> & HJ1)|(Hex1 & ->)].
  { intros l base_ft Hin Hget. eexists. split.
    - apply reached_feature_run; [done|exact Hget|].
      by apply (proj1 (Forall_forall _ _) Hprops).
    - by exists base_ft. }
  { intros l Hin Hget. unfold reached_feature. by rewrite Hget. }
  2:{ right. split; [|done]. apply Exists_cons_hd. unfold refers_to. rewrite Hl.
      apply Exists_app. left. cbn. by apply Exists_fmap. }
  rewrite Hu.
  destruct (add_each_run lookup locations_source
              (unreachable_feature lookup locations_source r) (λ x, x)
              (λ x f, is_unreachable lookup locations_source (r, x) f) us
              (OUTPUT_UNREACHABLE sinks))
    as [(Hfound2 & us2 & -> & HJ2)|(Hex2 & ->)].
  { intros x base_ft Hin Hget. eexists. split.
    - by apply unreachable_feature_run.
    - by exists base_ft. }
  { intros x Hin Hget. unfold unreachable_feature. by rewrite Hget. }
  2:{ right. split; [|done]. apply Exists_cons_hd. unfold refers_to. rewrite Hu.
      apply Exists_app. by right. }
  destruct (IH {| OUTPUT_RESULTS := OUTPUT_RESULTS sinks ++ fs1;
                  OUTPUT_UNREACHABLE := OUTPUT_UNREACHABLE sinks ++ us2 |})
    as [(Hfound & fs & us' & -> & HJ & HJ')|(Hex & ->)].
  - left. split.
    + constructor; [|done]. unfold refers_to. rewrite Hl, Hu. apply Forall_app.
      split; [by apply Forall_fmap|done].
    + exists (fs1 ++ fs), (us2 ++ us'). cbn [OUTPUT_RESULTS OUTPUT_UNREACHABLE].
      rewrite <- !app_assoc. split; [done|].
      unfold reached_entries, unreachable_entries. cbn [map concat]. rewrite Hl, Hu.
      split; (apply Forall2_app; [by apply Forall2_fmap_l|done]).
  - right. split; [by apply Exists_cons_tl|done].
Qed.

End TimeFilterLoop.

(** The correlators, where they do what is expected of them. The
    correlator of the time-map endpoint puts every result that carries
    a geometry into the union sink when its [search_id] is
    [union_all], into the intersection sink when it is
    [intersection_all], and into the searches sink otherwise, in the
    order of the response. The correlator of the time-filter endpoint,
    on a locations layer without a field named [search_id] or
    [properties], joins each per-location entry, and each unreachable
    id, to the record its lookup returns: the output has the geometry
    and the attributes of that record, then the [search_id] (and the
    properties of a reached location). An id for which the lookup
    returns nothing fails the assertion: the stage ends with
    [AssertionError], which is not one of the exceptions the engine
    reports. For an id on which the request compares ids as they are,
    the lookup returns a record of the layer with that id, nothing
    exactly when no record has it, and the one record that has it
    when the ids of the layer are distinct. *)
Lemma correlation_on_plain_ids :
  (∀ results env w,
     Forall carries_geometry results →
     TimeMapAlgorithm.processAlgorithmOutput results env w
     = (inr {| TimeMapAlgorithm.OUTPUT_SEARCHES :=
                 map geometry_feature
                   (filter (λ r, search_id r ≠ "union_all"
                                 ∧ search_id r ≠ "intersection_all") results);
               TimeMapAlgorithm.OUTPUT_UNION :=
                 map geometry_feature (filter (λ r, search_id r = "union_all") results);
               TimeMapAlgorithm.OUTPUT_INTER :=
                 map geometry_feature
                   (filter (λ r, search_id r = "intersection_all") results) |},
        w, [pushDebugInfo "TimeMapAlgorithm done !"]))
  ∧ (∀ lookup locations_source results env w,
       free_names locations_source →
       Forall location_shaped results →
       ((∀ r id_, r ∈ results → id_ ∈ refers_to r →
                  is_Some (TimeFilterAlgorithm.get_location_feature lookup
                             locations_source id_)) →
        ∃ sinks,
          TimeFilterAlgorithm.processAlgorithmOutput lookup locations_source results env w
          = (inr sinks, w, [pushDebugInfo "TimeFilterAlgorithm done !"])
          ∧ Forall2 (is_reached lookup locations_source) (reached_entries results)
              (TimeFilterAlgorithm.OUTPUT_RESULTS sinks)
          ∧ Forall2 (is_unreachable lookup locations_source) (unreachable_entries results)
              (TimeFilterAlgorithm.OUTPUT_UNREACHABLE sinks))
       ∧ ((∃ r id_, r ∈ results ∧ id_ ∈ refers_to r
                    ∧ TimeFilterAlgorithm.get_location_feature lookup locations_source id_
                      = None) →
          TimeFilterAlgorithm.processAlgorithmOutput lookup locations_source results env w
          = (inl AssertionError, w, [])))
  ∧ (∀ lookup locations_source id_,
       plain_lookup lookup locations_source id_ →
       (TimeFilterAlgorithm.get_location_feature lookup locations_source id_ = None
        ↔ ∀ f, f ∈ TimeFilterAlgorithm.getFeatures locations_source →
               INPUT_LOCATIONS_ID f ≠ id_)
       ∧ (∀ base_ft,
            TimeFilterAlgorithm.get_location_feature lookup locations_source id_
            = Some base_ft →
            base_ft ∈ TimeFilterAlgorithm.getFeatures locations_source
            ∧ INPUT_LOCATIONS_ID base_ft = id_)
       ∧ (NoDup (map INPUT_LOCATIONS_ID (TimeFilterAlgorithm.getFeatures locations_source)) →
          ∀ f, f ∈ TimeFilterAlgorithm.getFeatures locations_source →
               INPUT_LOCATIONS_ID f = id_ →
               TimeFilterAlgorithm.get_location_feature lookup locations_source id_
               = Some f)).
Proof.
  split; [|split].
  - intros results env w Hall. unfold TimeMapAlgorithm.processAlgorithmOutput.
    erewrite bind_ok; [|unfold lift; rewrite (time_map_add_features_run _ _ Hall);
                        reflexivity].
    reflexivity.
  - intros lookup locations_source results env w Hfree Hshaped.
    destruct (time_filter_add_features_run lookup locations_source Hfree results
                TimeFilterAlgorithm.empty_sinks Hshaped)
      as [(Hfound & fs & us & Hrun & HJ & HJ')|(Hex & Hrun)].
    + split.
      * intros _. eexists. unfold TimeFilterAlgorithm.processAlgorithmOutput.
        erewrite bind_ok; [|unfold lift; rewrite Hrun; reflexivity].
        split; [reflexivity|]. by split.
      * intros (r & id_ & Hr & Hid & Hnone). exfalso.
        pose proof (proj1 (Forall_forall _ _) Hfound r Hr) as Hr'.
        pose proof (proj1 (Forall_forall _ _) Hr' id_ Hid) as [? Hsome]. congruence.
    + split.
      * intros Hall. exfalso.
        apply Exists_exists in Hex as (r & Hr & Hex).
        apply Exists_exists in Hex as (id_ & Hid & Hnone).
        destruct (Hall r id_ Hr Hid) as [? Hsome]. congruence.
      * intros _. unfold TimeFilterAlgorithm.processAlgorithmOutput.
        erewrite bind_fail; [reflexivity|]. unfold lift. by rewrite Hrun.
  - intros lookup locations_source id_ Hplain. split; [|split].
    + by apply get_location_feature_None.
    + intros base_ft. by apply get_location_feature_Some.
    + intros Hnodup f Hf <-. by apply get_location_feature_unique.
Qed.

Lemma demo_lookup_plain (locations_source : TimeFilterAlgorithm.Source) (id_ : string) :
  Demo.plain id_ = true →
  Demo.literal_of "id" (filter_text Demo.lookup id_) = Some id_ →
  plain_lookup Demo.lookup locations_source id_.
Proof.
  intros Hplain Hliteral f _. unfold Demo.lookup at 1. cbn [TimeFilterAlgorithm.yields].
  by rewrite Hliteral, Hplain.
Qed.

Lemma correlation_on_plain_ids_witness :
  (∃ sinks,
     run_result (TimeFilterAlgorithm.processAlgorithmOutput Demo.lookup Demo.locations
                   [Demo.filter_result "l" "m"] Demo.serving (Demo.world_of ∅))
     = inr sinks
     ∧ length (TimeFilterAlgorithm.OUTPUT_RESULTS sinks) = 1)
  ∧ run_result (TimeFilterAlgorithm.processAlgorithmOutput Demo.lookup Demo.locations
                  [Demo.filter_result "l" "zz"] Demo.serving (Demo.world_of ∅))
    = inl AssertionError
  ∧ TimeFilterAlgorithm.get_location_feature Demo.lookup Demo.locations "m"
    = Some {| INPUT_LOCATIONS_ID := "m"; location_point := {| lat := 3; lng := 4 |};
              geometry := "POINT (4 3)"; attributes := ["M"] |}.
Proof.
  destruct correlation_on_plain_ids as (_ & Hfilter & Hlookup).
  assert (free_names Demo.locations) as Hfree.
  { split; intros Hin; apply list_elem_of_singleton in Hin; discriminate. }
  split; [|split].
  - destruct (Hfilter Demo.lookup Demo.locations [Demo.filter_result "l" "m"] Demo.serving
                (Demo.world_of ∅) Hfree) as [Hfound _].
    { repeat constructor; by eexists. }
    destruct Hfound as (sinks & Hrun & Hreached & _).
    { intros r id_ ->%list_elem_of_singleton Hid. cbn in Hid.
      apply elem_of_cons in Hid as [->|Hid]; [by eexists|].
      apply list_elem_of_singleton in Hid as ->. by eexists. }
    exists sinks. rewrite Hrun. split; [reflexivity|].
    apply Forall2_length in Hreached. by rewrite <- Hreached.
  - destruct (Hfilter Demo.lookup Demo.locations [Demo.filter_result "l" "zz"] Demo.serving
                (Demo.world_of ∅) Hfree) as [_ Hmissing].
    { repeat constructor; by eexists. }
    rewrite Hmissing; [reflexivity|].
    exists (Demo.filter_result "l" "zz"), "zz".
    split; [apply list_elem_of_here|]. split; [|reflexivity].
    cbn. apply list_elem_of_further, list_elem_of_here.
  - destruct (Hlookup Demo.lookup Demo.locations "m"
                (demo_lookup_plain Demo.locations "m" eq_refl eq_refl)) as (_ & _ & Hunique).
    apply Hunique.
    + cbn. apply NoDup_cons. split; [by intros ?%list_elem_of_singleton|apply NoDup_singleton].
    + apply list_elem_of_further, list_elem_of_here.
    + reflexivity.
Defined.

(** C8, at an input where the code departs from it. The lookup of
    the time-filter correlator puts the id between quotes, as it is,
    into the text of a filter expression. Whenever the request yields
    no feature for the text built from the id of a record of the
    locations layer, a per-location entry with that id is not joined
    to its record, though the record is there: the stage fails the
    assertion, as it does for an id the request never sent, and
    returns nothing. So it is with the id [O'Brien], whose apostrophe
    ends the literal early: [id = 'O'Brien'] is no expression. *)
Theorem correlation_misses_quoted_id
    (lookup : TimeFilterAlgorithm.Lookup) (locations_source : TimeFilterAlgorithm.Source)
    (f : LocationFeature) (result : ApiResult) (location : LocationResult)
    (others : list LocationResult) (results : list ApiResult) (env : Env) (w : World) :
  f ∈ TimeFilterAlgorithm.getFeatures locations_source →
  (∀ g, g ∈ TimeFilterAlgorithm.getFeatures locations_source →
        TimeFilterAlgorithm.yields lookup (filter_text lookup (INPUT_LOCATIONS_ID f)) g
        = false) →
  res_locations result = Some (location :: others) →
  lr_id location = INPUT_LOCATIONS_ID f →
  TimeFilterAlgorithm.get_location_feature lookup locations_source (INPUT_LOCATIONS_ID f)
  = None
  ∧ TimeFilterAlgorithm.processAlgorithmOutput lookup locations_source (result :: results)
      env w
    = (inl AssertionError, w, []).
Proof.
  intros _ Hnone Hlocations Hid.
  assert (TimeFilterAlgorithm.get_location_feature lookup locations_source
            (INPUT_LOCATIONS_ID f) = None) as Hget.
  { unfold TimeFilterAlgorithm.get_location_feature. fold (filter_text lookup (INPUT_LOCATIONS_ID f)).
    induction (TimeFilterAlgorithm.getFeatures locations_source) as [|g l IH]; [done|].
    cbn [find]. rewrite (Hnone g) by left. apply IH. intros g' Hg'. apply Hnone. by right. }
  split; [done|].
  unfold TimeFilterAlgorithm.processAlgorithmOutput.
  erewrite bind_fail; [reflexivity|].
  unfold lift. cbn [TimeFilterAlgorithm.add_features]. rewrite Hlocations.
  cbn [TimeFilterAlgorithm.add_each]. unfold TimeFilterAlgorithm.reached_feature.
  by rewrite Hid, Hget.
Qed.

Lemma correlation_misses_quoted_id_witness :
  Demo.quoted_location ∈ TimeFilterAlgorithm.getFeatures Demo.quoted
  ∧ INPUT_LOCATIONS_ID Demo.quoted_location = "O'Brien"
  ∧ TimeFilterAlgorithm.processAlgorithmOutput Demo.lookup Demo.quoted
      [Demo.filter_result "O'Brien" "O'Brien"] Demo.serving (Demo.world_of ∅)
    = (inl AssertionError, Demo.world_of ∅, []).
Proof.
  split; [apply list_elem_of_here|]. split; [reflexivity|].
  apply (correlation_misses_quoted_id Demo.lookup Demo.quoted Demo.quoted_location
           (Demo.filter_result "O'Brien" "O'Brien")
           {| lr_id := "O'Brien"; lr_properties := Some "{}" |} [] []
           Demo.serving (Demo.world_of ∅)).
  - apply list_elem_of_here.
  - intros g Hg. apply list_elem_of_singleton in Hg as ->. vm_compute. reflexivity.
  - reflexivity.
  - reflexivity.
Defined.

(** * Further properties *)

(** Membership in a list that is written out, and the flag found
    under a key of such a list. *)
Ltac in_list := repeat (first [apply list_elem_of_here | apply list_elem_of_further]).

Ltac flag_of H :=
  repeat (apply elem_of_cons in H as [H|H]; [try discriminate H|]);
  try (by apply elem_of_nil in H); by injection H.

(** ** Preconditions and empty input *)

Lemma reports_of_app t1 t2 : reports_of (t1 ++ t2) = reports_of t1 ++ reports_of t2.
Proof. apply filter_app. Qed.

(** X1. When a credential is missing, the engine of [algorithms.py]
    and the helper of [base.py] both stop at once with the exception
    [App ID or api key not set], after one fatal report to the user:
    the session is not called, nothing sleeps, the output stage is not
    entered and the settings are left as they are, whatever the
    sources hold. *)
Theorem missing_credentials_stop
    {Out} (alg : AdvancedAlgorithmBase.Algorithm Out) (cfg : AlgorithmBase.Config)
    (APP_ID API_KEY : string)
    (source_departure source_arrival : option (list SearchFeature))
    (data : option Data) (params : list (string * string)) (env : Env) (w : World) :
  py_not APP_ID || py_not API_KEY = true →
  (∃ t msg,
     AdvancedAlgorithmBase.processAlgorithm alg (APP_ID, API_KEY)
       source_departure source_arrival env w
     = (inl (QgsProcessingException "App ID or api key not set"), w, t)
     ∧ reports_of t = [reportError msg true]
     ∧ requests_of t = [] ∧ sleeps_of t = 0 ∧ outputs_of t = [])
  ∧ (∃ t msg,
       AlgorithmBase.processAlgorithmMakeRequest cfg (APP_ID, API_KEY) data params env w
       = (inl (QgsProcessingException "App ID or api key not set"), w, t)
       ∧ reports_of t = [reportError msg true]
       ∧ requests_of t = [] ∧ log_of t = []).
Proof.
  intros Hcred. split.
  - rewrite processAlgorithm_no_credentials by done. by eexists _, _.
  - unfold AlgorithmBase.processAlgorithmMakeRequest, bind at 1. cbn [ask].
    rewrite Hcred. by eexists _, _.
Qed.

Lemma missing_credentials_stop_witness :
  run_result (AdvancedAlgorithmBase.processAlgorithm Demo.time_map ("app", "")
                (Some Demo.twelve) None Demo.serving (Demo.world_of ∅))
  = inl (QgsProcessingException "App ID or api key not set")
  ∧ run_result (AlgorithmBase.processAlgorithmMakeRequest Demo.config ("", "key") None []
                  Demo.serving (Demo.world_of ∅))
    = inl (QgsProcessingException "App ID or api key not set").
Proof.
  destruct (missing_credentials_stop Demo.time_map Demo.config "app" "" (Some Demo.twelve) None
              None [] Demo.serving (Demo.world_of ∅) eq_refl)
    as [(t & msg & -> & _) _].
  destruct (missing_credentials_stop Demo.time_map Demo.config "" "key" (Some Demo.twelve) None
              None [] Demo.serving (Demo.world_of ∅) eq_refl)
    as [_ (t' & msg' & -> & _)].
  split; reflexivity.
Defined.

(** X2. When no source holds a feature (each is absent or empty), the
    engine plans no slice: it never reads the usage settings, never
    sleeps and never calls the session, and it hands the empty list of
    results to the output stage in the world it started in. *)
Theorem empty_input_makes_no_request
    {Out} (alg : AdvancedAlgorithmBase.Algorithm Out) (APP_ID API_KEY : string)
    (source_departure source_arrival : option (list SearchFeature)) (env : Env) (w : World) :
  py_not APP_ID = false → py_not API_KEY = false →
  featureCount source_departure = 0 → featureCount source_arrival = 0 →
  AdvancedAlgorithmBase.processAlgorithm alg (APP_ID, API_KEY)
    source_departure source_arrival env w
  = prefix_trace [pushDebugInfo "Starting TimeMapAlgorithm...";
                  pushDebugInfo "Loading response to layer...";
                  output_stage []]
      (AdvancedAlgorithmBase.processAlgorithmOutput alg [] env w).
Proof.
  intros Hid Hkey Hd Ha. rewrite processAlgorithm_cases by done.
  unfold slicing_notice, slicing_count. rewrite Hd, Ha. cbn.
  by rewrite prefix_trace_prefix.
Qed.

Lemma empty_input_makes_no_request_witness :
  AdvancedAlgorithmBase.processAlgorithm Demo.time_map ("app", "key") (Some []) None
    Demo.refusing (Demo.world_of ∅)
  = (inr TimeMapAlgorithm.empty_sinks, Demo.world_of ∅,
     [pushDebugInfo "Starting TimeMapAlgorithm...";
      pushDebugInfo "Loading response to layer...";
      output_stage [];
      pushDebugInfo "TimeMapAlgorithm done !"]).
Proof.
  rewrite (empty_input_makes_no_request Demo.time_map "app" "key" (Some []) None
             Demo.refusing (Demo.world_of ∅) eq_refl eq_refl eq_refl eq_refl).
  reflexivity.
Defined.

Lemma slicing_count_gt_1 (source_departure source_arrival : option (list SearchFeature)) :
  1 < slicing_count source_departure source_arrival
  ↔ slicing_size < Nat.max (featureCount source_departure) (featureCount source_arrival).
Proof.
  pose proof (math_ceil_div_spec
                (Nat.max (featureCount source_departure) (featureCount source_arrival))
                slicing_size 1 ltac:(unfold slicing_size; lia)) as H.
  fold (slicing_count source_departure source_arrival) in H. lia.
Qed.

Lemma slice_cycle_starts {Out} (alg : AdvancedAlgorithmBase.Algorithm Out)
    source_departure source_arrival APP_ID API_KEY slicing_i env w :
  0 < Nat.max (featureCount source_departure) (featureCount source_arrival) →
  ∃ msg t,
    run_trace (AdvancedAlgorithmBase.slice_cycle alg source_departure source_arrival
                 APP_ID API_KEY slicing_i env w)
    = pushDebugInfo msg :: t.
Proof.
  intros Hsome. rewrite slice_cycle_cases.
  assert (∃ msg t, loading_events source_departure source_arrival = pushDebugInfo msg :: t)
    as (msg & t & Hload).
  { unfold loading_events.
    destruct source_departure as [d|], source_arrival as [a|]; cbn in Hsome |- *;
      try lia; by eexists _, _. }
  destruct (AdvancedAlgorithmBase.processAlgorithmRemixData alg _) as [e|remixed].
  - unfold run_trace. cbn [snd]. rewrite Hload. by eexists _, _.
  - rewrite run_trace_prefix, Hload. cbn [app]. by eexists _, _.
Qed.

(** X3. With both credentials set, the trace of an operation begins
    with the start message, followed by the notice that the query
    will be executed in several queries exactly when a source holds
    more than ten features, and then by a debug message of the first
    slice or of the output stage: the notice names the number of
    slices and comes before everything else the operation does. *)
Theorem notice_only_for_several_slices
    {Out} (alg : AdvancedAlgorithmBase.Algorithm Out) (APP_ID API_KEY : string)
    (source_departure source_arrival : option (list SearchFeature)) (env : Env) (w : World) :
  py_not APP_ID = false → py_not API_KEY = false →
  ∃ msg rest,
    run_trace (AdvancedAlgorithmBase.processAlgorithm alg (APP_ID, API_KEY)
                 source_departure source_arrival env w)
    = pushDebugInfo "Starting TimeMapAlgorithm..."
        :: (if bool_decide (10 < Nat.max (featureCount source_departure)
                                         (featureCount source_arrival))
            then [pushInfo (slicing_message (slicing_count source_departure source_arrival))]
            else [])
        ++ pushDebugInfo msg :: rest.
Proof.
  intros Hid Hkey. rewrite processAlgorithm_cases, run_trace_prefix by done.
  assert (slicing_notice source_departure source_arrival
          = if bool_decide (10 < Nat.max (featureCount source_departure)
                                         (featureCount source_arrival))
            then [pushInfo (slicing_message (slicing_count source_departure source_arrival))]
            else []) as ->.
  { unfold slicing_notice.
    destruct (slicing_count_gt_1 source_departure source_arrival) as [Hgt1 Hgt2].
    unfold slicing_size in Hgt1, Hgt2.
    destruct (Nat.ltb_spec 1 (slicing_count source_departure source_arrival));
      case_bool_decide; try reflexivity; exfalso; lia. }
  cbn [app].
  assert (∃ msg rest,
            run_trace
              match AdvancedAlgorithmBase.slices_loop alg source_departure source_arrival
                      APP_ID API_KEY (seq 0 (slicing_count source_departure source_arrival))
                      [] env w with
              | (inl e, w1, t1) => (inl e, w1, t1)
              | (inr results, w1, t1) =>
                  prefix_trace (t1 ++ [pushDebugInfo "Loading response to layer...";
                                       output_stage results])
                    (AdvancedAlgorithmBase.processAlgorithmOutput alg results env w1)
              end
            = pushDebugInfo msg :: rest) as (msg & rest & ->); [|by eexists _, _].
  destruct (slicing_count source_departure source_arrival) as [|n] eqn:Hcount.
  { cbn [seq AdvancedAlgorithmBase.slices_loop]. unfold ret.
    rewrite run_trace_prefix. cbn [app]. by eexists _, _. }
  assert (0 < Nat.max (featureCount source_departure) (featureCount source_arrival)) as Hsome.
  { destruct (Nat.max (featureCount source_departure) (featureCount source_arrival)) eqn:Hmax;
      [|lia].
    unfold slicing_count in Hcount. rewrite Hmax in Hcount. done. }
  cbn [seq].
  destruct (slice_cycle_starts alg source_departure source_arrival APP_ID API_KEY 0 env w
              Hsome) as (msg & t & Hstart).
  destruct (AdvancedAlgorithmBase.slice_cycle alg source_departure source_arrival
              APP_ID API_KEY 0 env w) as [[[e|rs] w1] t1] eqn:Hc;
    unfold run_trace in Hstart; cbn [snd] in Hstart; subst t1.
  - rewrite (slices_loop_abort _ _ _ _ _ _ _ _ _ _ _ _ _ Hc). by eexists _, _.
  - rewrite (slices_loop_step _ _ _ _ _ _ _ _ _ _ _ _ _ Hc).
    destruct (AdvancedAlgorithmBase.slices_loop alg source_departure source_arrival
                APP_ID API_KEY (seq 1 n) ([] ++ rs) env w1) as [[[e|results] w2] t2];
      unfold prefix_trace; cbn [fst snd app]; [by eexists _, _|].
    unfold run_trace. cbn [snd app]. by eexists _, _.
Qed.

Lemma notice_only_for_several_slices_witness :
  take 2 (run_trace (AdvancedAlgorithmBase.processAlgorithm Demo.time_map ("app", "key")
                       (Some Demo.twelve) None Demo.serving (Demo.world_of ∅)))
  = [pushDebugInfo "Starting TimeMapAlgorithm...";
     pushInfo "Input layers have more than 10 features. The query will be executed in 2 queries. This may have unexpected consequences on some parameters. Keep an eye on your API usage !"].
Proof.
  destruct (notice_only_for_several_slices Demo.time_map "app" "key" (Some Demo.twelve) None
              Demo.serving (Demo.world_of ∅) eq_refl eq_refl) as (msg & rest & ->).
  reflexivity.
Defined.

(** ** The slices *)

(** X4. In the payload of any slice, a side has an entry exactly when
    its source is given, and the entry of slice [i] holds
    [min(10, N - 10 i)] searches, where [N] is the number of features
    of the source: never more than ten, and none once the source is
    used up, so that the shorter of two sources goes on as an empty
    list in the later slices. *)
Theorem slice_sizes (source_departure source_arrival : option (list SearchFeature)) (i : nat) :
  (is_Some (departure_searches (prepare_data source_departure source_arrival i))
   ↔ is_Some source_departure)
  ∧ (is_Some (arrival_searches (prepare_data source_departure source_arrival i))
     ↔ is_Some source_arrival)
  ∧ length (searches_of (departure_searches (prepare_data source_departure source_arrival i)))
    = Nat.min slicing_size (featureCount source_departure - slicing_size * i)
  ∧ length (searches_of (arrival_searches (prepare_data source_departure source_arrival i)))
    = Nat.min slicing_size (featureCount source_arrival - slicing_size * i).
Proof.
  rewrite prepare_data_departure, prepare_data_arrival.
  split; [by rewrite fmap_is_Some|]. split; [by rewrite fmap_is_Some|].
  unfold searches_of, featureCount.
  split; [destruct source_departure as [features|]|destruct source_arrival as [features|]];
    cbn [fmap option_fmap option_map default from_option id length];
    rewrite ?length_map, ?length_take, ?length_drop; unfold slicing_size; lia.
Qed.

(** ** The usage guard, further *)

Lemma after_sleeps_S env w k :
  after_sleeps env w (S k) = after_sleep env (after_sleeps env w k).
Proof. revert w. induction k as [|k IH]; intros w; [done|]. cbn. by rewrite <- IH. Qed.

Lemma api_limit_loop_resumes range env w k :
  k < length range →
  (∀ j, j < k → over_limit (after_sleeps env w j) = true) →
  over_limit (after_sleeps env w k) = false →
  ∃ t,
    AdvancedAlgorithmBase.api_limit_loop range env w = (inr tt, after_sleeps env w k, t)
    ∧ sleeps_of t = k
    ∧ last t = Some (limit_passed (after_sleeps env w k)).
Proof.
  revert range w. induction k as [|k IH]; intros [|i range] w Hk Hover Hpass;
    try (simpl in Hk; lia).
  - rewrite api_limit_loop_pass by done. eexists. split; [reflexivity|].
    cbn [after_sleeps]. unfold limit_passed. by destruct (warning_enabled w).
  - rewrite api_limit_loop_over by (apply (Hover 0); lia).
    destruct (IH range (after_sleep env w)) as (t & -> & Hs & Hl).
    + simpl in Hk. lia.
    + intros j Hj. apply (Hover (S j)). lia.
    + done.
    + eexists. split; [reflexivity|]. cbn [fst snd after_sleeps].
      rewrite sleeps_of_app, sleeps_of_limit_warnings, Hs. split; [done|].
      rewrite last_app, Hl. done.
Qed.

(** X5. The guard waits for an intervention and then goes on: when the
    counter is over the limit at the first [k] checks ([k] below ten)
    and no longer at the next one, because in the meantime somebody has
    raised the limit, reset the counter or disabled the warning, the
    guard lets the request go after exactly [k] sleeps of ten seconds,
    in the state the last sleep has left, and its last word is the
    quota that remains (or that the warning is disabled). With [k = 0]
    it does not sleep at all. *)
Theorem rate_guard_resumes (env : Env) (w : World) (k : nat) :
  k < AdvancedAlgorithmBase.retries →
  (∀ j, j < k → over_limit (after_sleeps env w j) = true) →
  over_limit (after_sleeps env w k) = false →
  ∃ t,
    AdvancedAlgorithmBase.api_limit_loop (seq 0 AdvancedAlgorithmBase.retries) env w
    = (inr tt, after_sleeps env w k, t)
    ∧ sleeps_of t = k
    ∧ requests_of t = []
    ∧ last t = Some (limit_passed (after_sleeps env w k)).
Proof.
  intros Hk Hover Hpass.
  destruct (api_limit_loop_resumes (seq 0 AdvancedAlgorithmBase.retries) env w k)
    as (t & Hrun & Hs & Hl); [by rewrite length_seq|done|done|].
  exists t. split; [done|]. split; [done|]. split; [|done].
  pose proof (api_limit_loop_quiet (seq 0 AdvancedAlgorithmBase.retries) env w) as (Hq & _).
  by rewrite Hrun in Hq.
Qed.

Lemma rate_guard_resumes_witness :
  ∃ t,
    AdvancedAlgorithmBase.api_limit_loop (seq 0 AdvancedAlgorithmBase.retries)
      raise_limit_later (Demo.world_of (Demo.limits true 5 5))
    = (inr tt, after_sleeps raise_limit_later (Demo.world_of (Demo.limits true 5 5)) 2, t)
    ∧ sleeps_of t = 2
    ∧ last t = Some (pushInfo "API usage warning limit not reached yet (45 queries remaining)...").
Proof.
  destruct (rate_guard_resumes raise_limit_later (Demo.world_of (Demo.limits true 5 5)) 2)
    as (t & Hrun & Hs & _ & Hl).
  - unfold AdvancedAlgorithmBase.retries. lia.
  - intros j Hj. do 2 (destruct j as [|j]; [vm_compute; reflexivity|]). lia.
  - vm_compute. reflexivity.
  - exists t. split; [exact Hrun|]. split; [exact Hs|]. rewrite Hl. vm_compute. reflexivity.
Defined.

Lemma api_limit_loop_world range env w :
  run_world (AdvancedAlgorithmBase.api_limit_loop range env w)
  = after_sleeps env w (sleeps_of (run_trace (AdvancedAlgorithmBase.api_limit_loop range env w)))
  ∧ sleeps_of (run_trace (AdvancedAlgorithmBase.api_limit_loop range env w)) ≤ length range.
Proof.
  revert w. induction range as [|i range IH]; intros w; [split; [done|vm_compute; lia]|].
  destruct (over_limit w) eqn:Hover.
  - rewrite api_limit_loop_over by done.
    rewrite run_world_prefix, run_trace_prefix, sleeps_of_app, sleeps_of_limit_warnings.
    destruct (IH (after_sleep env w)) as [-> Hle]. split; [done|]. cbn [length]. lia.
  - rewrite api_limit_loop_pass by done. unfold limit_passed.
    destruct (warning_enabled w); (split; [done|vm_compute; lia]).
Qed.

Lemma after_sleeps_settings env w k :
  (∀ k s, operator env k s = s) → settings (after_sleeps env w k) = settings w.
Proof.
  intros Hid. revert w. induction k as [|k IH]; intros w; [done|].
  cbn [after_sleeps]. rewrite IH. unfold after_sleep. cbn [settings]. apply Hid.
Qed.

(** X6. The guard writes nothing: whatever the range of its checks,
    the world it leaves is the one its sleeps have left ([k] sleeps,
    with [k] at most the length of the range), so the settings it reads
    change by the hand of the operator only, and stay as they are when
    nobody touches them. *)
Theorem rate_guard_writes_nothing (range : list nat) (env : Env) (w : World) :
  let run := AdvancedAlgorithmBase.api_limit_loop range env w in
  run_world run = after_sleeps env w (sleeps_of (run_trace run))
  ∧ sleeps_of (run_trace run) ≤ length range
  ∧ ((∀ k s, operator env k s = s) → settings (run_world run) = settings w).
Proof.
  cbn zeta. destruct (api_limit_loop_world range env w) as [Hw Hle].
  split; [done|]. split; [done|].
  intros Hid. rewrite Hw. by apply after_sleeps_settings.
Qed.

(** ** The exchange with the service, further *)

Lemma reports_of_request_log {Out} (alg : AdvancedAlgorithmBase.Algorithm Out) w
    APP_ID API_KEY data :
  reports_of (request_log alg w APP_ID API_KEY data) = [].
Proof. unfold request_log. by destruct (print_query w). Qed.

Lemma reports_of_received_events response : reports_of (received_events response) = [].
Proof. unfold received_events. by destruct (from_cache response). Qed.

Lemma reports_of_response_log w response : reports_of (response_log w response) = [].
Proof. unfold response_log. by destruct (print_query w). Qed.

Lemma reports_of_base_before cfg env w data params rq :
  reports_of ([pushDebugInfo "Making request to API endpoint..."]
                ++ base_request_log cfg env w data params
                ++ https_notice w ++ [session_request rq]) = [].
Proof.
  unfold base_request_log, https_notice. by destruct (base_print_query w), (disable_https w).
Qed.

(** X7. In [algorithms.py], when the session raises a transport
    exception the request step wraps it: it fails with
    [QgsProcessingException('Could not connect to API')], reports one
    fatal error to the user, writes the text of the exception to the
    log, and leaves the settings, the counter among them, as they
    were. *)
Theorem legacy_transport_failure_wrapped
    {Out} (alg : AdvancedAlgorithmBase.Algorithm Out) (APP_ID API_KEY data : string)
    (env : Env) (w : World) (e : string) :
  session env (requested w) (request_of alg APP_ID API_KEY data) = inl e →
  let run := AdvancedAlgorithmBase.make_request alg APP_ID API_KEY data env w in
  run_result run = inl (QgsProcessingException "Could not connect to API")
  ∧ reports_of (run_trace run)
    = [reportError "Could not connect to the API. See log for more details." true]
  ∧ last (log_of (run_trace run)) = Some e
  ∧ settings (run_world run) = settings w.
Proof.
  intros Hs. cbn zeta. rewrite make_request_cases, Hs, except_RequestException_run.
  rewrite run_result_prefix, run_trace_prefix, run_world_prefix.
  split; [done|]. unfold run_trace, run_world. cbn [fst snd].
  rewrite !reports_of_app, reports_of_request_log, !log_of_app, last_app.
  done.
Qed.

Lemma legacy_transport_failure_wrapped_witness :
  let run := AdvancedAlgorithmBase.make_request Demo.time_map "app" "key" "{}"
               unreachable_service (Demo.world_of ∅) in
  run_result run = inl (QgsProcessingException "Could not connect to API")
  ∧ reports_of (run_trace run)
    = [reportError "Could not connect to the API. See log for more details." true]
  ∧ last (log_of (run_trace run)) = Some "Connection refused"
  ∧ settings (run_world run) = ∅.
Proof.
  apply (legacy_transport_failure_wrapped Demo.time_map "app" "key" "{}"
           unreachable_service (Demo.world_of ∅) "Connection refused").
  reflexivity.
Defined.

(** X8. In [base.py] the session is called outside any [try]: when it
    raises a transport exception, the helper lets that very exception
    out, unwrapped, and reports nothing to the user; the handler that
    would have said that the API could not be reached, further down,
    encloses [raise_for_status] only. Neither the settings nor the
    log are written after the request. *)
Theorem base_transport_failure_escapes
    (cfg : AlgorithmBase.Config) (APP_ID API_KEY : string) (data : option Data)
    (params : list (string * string)) (env : Env) (w : World) (e : string) :
  py_not APP_ID = false → py_not API_KEY = false →
  session env (requested w) (base_request_of cfg APP_ID API_KEY env w data params) = inl e →
  let run := AlgorithmBase.processAlgorithmMakeRequest cfg (APP_ID, API_KEY) data params env w in
  run_result run = inl (RequestException e)
  ∧ reports_of (run_trace run) = []
  ∧ last (run_trace run)
    = Some (session_request (base_request_of cfg APP_ID API_KEY env w data params))
  ∧ settings (run_world run) = settings w.
Proof.
  intros Hid Hkey Hs. cbn zeta. rewrite processAlgorithmMakeRequest_cases, Hs by done.
  rewrite run_result_prefix, run_trace_prefix, run_world_prefix.
  split; [done|]. unfold run_trace, run_world. cbn [fst snd].
  rewrite app_nil_r, reports_of_base_before. split; [done|]. split; [|done].
  by rewrite !app_assoc, last_snoc.
Qed.

Lemma base_transport_failure_escapes_witness :
  let run := AlgorithmBase.processAlgorithmMakeRequest Demo.config ("app", "key") None []
               unreachable_service (Demo.world_of ∅) in
  run_result run = inl (RequestException "Connection refused")
  ∧ reports_of (run_trace run) = [].
Proof.
  destruct (base_transport_failure_escapes Demo.config "app" "key" None []
              unreachable_service (Demo.world_of ∅) "Connection refused")
    as (Hr & Hq & _); [reflexivity..|].
  split; [exact Hr|exact Hq].
Defined.

(** X9. The body is decoded before the status is looked at, in both
    files: a response whose body is not JSON ends in
    [QgsProcessingException('Could not decode response')] with one
    fatal report, whatever its status, so an HTTP error with such a
    body is not reported as an API error. *)
Theorem undecodable_body_hides_status
    {Out} (alg : AdvancedAlgorithmBase.Algorithm Out) (cfg : AlgorithmBase.Config)
    (APP_ID API_KEY data : string) (base_data : option Data)
    (params : list (string * string)) (env : Env) (w : World) (response : Response)
    (e : string) :
  py_not APP_ID = false → py_not API_KEY = false →
  json_loads env (text response) = inl e →
  let decode_failure (A : Type) (r : (exn + A) * World * list event) :=
    run_result r = inl (QgsProcessingException "Could not decode response")
    ∧ reports_of (run_trace r)
      = [reportError "Could not decode response. See log for more details." true]
    ∧ last (log_of (run_trace r)) = Some e in
  (session env (requested w) (request_of alg APP_ID API_KEY data) = inr response →
   decode_failure _ (AdvancedAlgorithmBase.make_request alg APP_ID API_KEY data env w))
  ∧ (session env (requested w) (base_request_of cfg APP_ID API_KEY env w base_data params)
     = inr response →
     decode_failure _ (AlgorithmBase.processAlgorithmMakeRequest cfg (APP_ID, API_KEY)
                         base_data params env w)).
Proof.
  intros Hid Hkey Hl. cbn zeta. split; intros Hs.
  - rewrite make_request_cases, Hs, Hl, except_ValueError_run.
    rewrite !run_result_prefix, !run_trace_prefix. split; [done|].
    unfold run_trace. cbn [fst snd].
    rewrite !reports_of_app, reports_of_request_log, reports_of_received_events,
      reports_of_response_log.
    split; [done|]. by rewrite !log_of_app, !last_app.
  - rewrite processAlgorithmMakeRequest_cases, Hs, Hl by done.
    rewrite run_result_prefix, run_trace_prefix. split; [done|].
    unfold run_trace. cbn [fst snd].
    rewrite reports_of_app, reports_of_base_before. split; [done|].
    by rewrite !log_of_app, !last_app.
Qed.

Lemma undecodable_body_hides_status_witness :
  run_result (AdvancedAlgorithmBase.make_request Demo.time_map "app" "key" "{}"
                gateway_error (Demo.world_of ∅))
  = inl (QgsProcessingException "Could not decode response")
  ∧ run_result (AlgorithmBase.processAlgorithmMakeRequest Demo.config ("app", "key") None []
                  gateway_error (Demo.world_of ∅))
    = inl (QgsProcessingException "Could not decode response").
Proof.
  destruct (undecodable_body_hides_status Demo.time_map Demo.config "app" "key" "{}" None []
              gateway_error (Demo.world_of ∅) (Demo.fresh 502 "Bad Gateway" "<html>")
              "Expecting value: line 1 column 1 (char 0)") as [Hlegacy Hbase];
    [reflexivity..|].
  split; [apply Hlegacy|apply Hbase]; reflexivity.
Defined.

Lemma except_HTTPError_missing {A} response response_data e env w key :
  first_missing response_data = Some key →
  AdvancedAlgorithmBase.except_HTTPError (A:=A) response response_data e env w
  = (inl (KeyError key), w, [])
  ∧ AlgorithmBase.except_HTTPError (A:=A) response response_data e env w
    = (inl (KeyError key), w, []).
Proof.
  destruct response_data as [rs [code|] [descr|] [link|] [info|]];
    unfold first_missing; cbn; intros [= <-]; done.
Qed.

(** X10. An HTTP error whose body decodes to a JSON object that lacks
    one of the four entries of the error structure (an
    [additional_info] that is there being an object) is not reported:
    in both files the handler fails with the [KeyError] of the first
    entry it misses ([additional_info], then [error_code],
    [description], [documentation_link]) before it has reported
    anything, so the user gets no message about the API error and the
    exception is not a [QgsProcessingException]. Bodies that decode to
    something else than such an object are not covered. *)
Theorem incomplete_error_body_raises_key_error
    {Out} (alg : AdvancedAlgorithmBase.Algorithm Out) (cfg : AlgorithmBase.Config)
    (APP_ID API_KEY data : string) (base_data : option Data)
    (params : list (string * string)) (env : Env) (w : World) (response : Response)
    (response_data : ResponseData) (key : string) :
  py_not APP_ID = false → py_not API_KEY = false →
  json_loads env (text response) = inr response_data →
  (400 ≤ status_code response < 600)%Z →
  first_missing response_data = Some key →
  let unreported (A : Type) (r : (exn + A) * World * list event) :=
    run_result r = inl (KeyError key) ∧ reports_of (run_trace r) = [] in
  (session env (requested w) (request_of alg APP_ID API_KEY data) = inr response →
   unreported _ (AdvancedAlgorithmBase.make_request alg APP_ID API_KEY data env w))
  ∧ (session env (requested w) (base_request_of cfg APP_ID API_KEY env w base_data params)
     = inr response →
     unreported _ (AlgorithmBase.processAlgorithmMakeRequest cfg (APP_ID, API_KEY)
                     base_data params env w)).
Proof.
  intros Hid Hkey Hl Hstatus Hmiss. cbn zeta. split; intros Hs.
  - rewrite make_request_cases, Hs, Hl.
    destruct (raise_for_status_error (AdvancedAlgorithmBase.url alg) response Hstatus)
      as [e ->].
    destruct (except_HTTPError_missing (A:=list ApiResult) response response_data e env
                (received w response) key Hmiss) as [-> _].
    rewrite !run_result_prefix, !run_trace_prefix. split; [done|].
    unfold run_trace. cbn [fst snd].
    by rewrite !reports_of_app, reports_of_request_log, reports_of_received_events,
      reports_of_response_log.
  - rewrite processAlgorithmMakeRequest_cases, Hs, Hl by done.
    destruct (raise_for_status_error (full_url cfg) response Hstatus) as [e ->].
    destruct (except_HTTPError_missing (A:=ResponseData) response response_data e env
                (sent w) key Hmiss) as [_ ->].
    rewrite run_result_prefix, run_trace_prefix. split; [done|].
    unfold run_trace. cbn [fst snd].
    by rewrite reports_of_app, reports_of_base_before.
Qed.

Lemma incomplete_error_body_raises_key_error_witness :
  run_result (AdvancedAlgorithmBase.make_request Demo.time_map "app" "key" "{}"
                partial_error (Demo.world_of ∅))
  = inl (KeyError "documentation_link")
  ∧ reports_of (run_trace (AlgorithmBase.processAlgorithmMakeRequest Demo.config
                             ("app", "key") None [] partial_error (Demo.world_of ∅)))
    = [].
Proof.
  destruct (incomplete_error_body_raises_key_error Demo.time_map Demo.config "app" "key" "{}"
              None [] partial_error (Demo.world_of ∅)
              (Demo.fresh 400 "Bad Request" "partial")
              {| results := None; error_code := Some "X"; description := Some "Y";
                 documentation_link := None; additional_info := Some [] |}
              "documentation_link") as [Hlegacy Hbase];
    [reflexivity|reflexivity|reflexivity|vm_compute; intuition congruence|reflexivity|].
  split; [apply Hlegacy|apply Hbase]; reflexivity.
Defined.

(** X11. Only the statuses from 400 to 599 are errors. Any other
    status, 1xx and 3xx included, with a body that decodes to a JSON
    object (a [results] that is there being a list of result objects)
    is taken as a success: [algorithms.py] returns the [results] of
    the object, or fails with [KeyError('results')] when the object
    has none, and [base.py] returns the whole object as it is,
    without looking for [results]. Bodies that decode to something
    else than such an object are not covered. *)
Theorem other_statuses_are_successes
    {Out} (alg : AdvancedAlgorithmBase.Algorithm Out) (cfg : AlgorithmBase.Config)
    (APP_ID API_KEY data : string) (base_data : option Data)
    (params : list (string * string)) (env : Env) (w : World) (response : Response)
    (response_data : ResponseData) :
  py_not APP_ID = false → py_not API_KEY = false →
  json_loads env (text response) = inr response_data →
  ¬ (400 ≤ status_code response < 600)%Z →
  (session env (requested w) (request_of alg APP_ID API_KEY data) = inr response →
   run_result (AdvancedAlgorithmBase.make_request alg APP_ID API_KEY data env w)
   = match results response_data with
     | Some rs => inr rs
     | None => inl (KeyError "results")
     end)
  ∧ (session env (requested w) (base_request_of cfg APP_ID API_KEY env w base_data params)
     = inr response →
     run_result (AlgorithmBase.processAlgorithmMakeRequest cfg (APP_ID, API_KEY)
                   base_data params env w)
     = inr response_data).
Proof.
  intros Hid Hkey Hl Hstatus.
  assert (∀ url, raise_for_status url response = None) as Hok.
  { intros url. unfold raise_for_status.
    destruct (Z.leb_spec 400 (status_code response)),
             (Z.ltb_spec (status_code response) 500),
             (Z.leb_spec 500 (status_code response)),
             (Z.ltb_spec (status_code response) 600); cbn; try done; lia. }
  split; intros Hs.
  - rewrite make_request_cases, Hs, Hl, Hok, subscript_run, !run_result_prefix. done.
  - rewrite processAlgorithmMakeRequest_cases, Hs, Hl, Hok by done.
    by rewrite run_result_prefix.
Qed.

Lemma other_statuses_are_successes_witness :
  run_result (AdvancedAlgorithmBase.make_request Demo.time_map "app" "key" "{}"
                redirecting (Demo.world_of ∅))
  = inr [Demo.shape_result "a"]
  ∧ run_result (AlgorithmBase.processAlgorithmMakeRequest Demo.config ("app", "key") None []
                  redirecting (Demo.world_of ∅))
    = inr Demo.ok_body.
Proof.
  destruct (other_statuses_are_successes Demo.time_map Demo.config "app" "key" "{}" None []
              redirecting (Demo.world_of ∅) (Demo.fresh 302 "Found" "ok") Demo.ok_body)
    as [Hlegacy Hbase]; [reflexivity|reflexivity|reflexivity|vm_compute; intuition congruence|].
  split; [apply Hlegacy|apply Hbase]; reflexivity.
Defined.

(** ** The settings a request writes *)

Lemma settings_received w response key :
  key ≠ "travel_time_platform/current_count" →
  settings (received w response) !! key = settings w !! key.
Proof.
  intros Hne. unfold received, counted, sent, setValue.
  destruct (from_cache response); cbn [settings]; [done|].
  by rewrite lookup_insert_ne.
Qed.

Lemma settings_base_received w response key :
  key ≠ "traveltime_platform/current_count" →
  settings (base_received w response) !! key = settings w !! key.
Proof.
  intros Hne. unfold base_received, base_counted, sent, setValue.
  destruct (from_cache response); cbn [settings]; [done|].
  by rewrite lookup_insert_ne.
Qed.

Lemma make_request_world {Out} (alg : AdvancedAlgorithmBase.Algorithm Out)
    APP_ID API_KEY data env w :
  run_world (AdvancedAlgorithmBase.make_request alg APP_ID API_KEY data env w)
  = match session env (requested w) (request_of alg APP_ID API_KEY data) with
    | inl _ => sent w
    | inr response => received w response
    end.
Proof.
  rewrite make_request_cases, run_world_prefix.
  destruct (session env (requested w) _) as [e|response]; [done|].
  rewrite run_world_prefix.
  destruct (json_loads env (text response)) as [e|response_data]; [done|].
  destruct (raise_for_status _ response) as [e|].
  - destruct (except_HTTPError_raises (A:=list ApiResult) response response_data e env
                (received w response)) as (x & t & -> & _). done.
  - by rewrite subscript_run.
Qed.

(** X12. The request step of [algorithms.py] writes one setting at
    most, its counter [travel_time_platform/current_count]: every
    other key of the store reads after the step as it did before, the
    counter of [base.py] among them, and the step calls the session
    exactly once. *)
Theorem legacy_request_writes_its_counter_only
    {Out} (alg : AdvancedAlgorithmBase.Algorithm Out) (APP_ID API_KEY data : string)
    (env : Env) (w : World) (key : string) :
  key ≠ "travel_time_platform/current_count" →
  let run := AdvancedAlgorithmBase.make_request alg APP_ID API_KEY data env w in
  settings (run_world run) !! key = settings w !! key
  ∧ current_count_base (run_world run) = current_count_base w
  ∧ requested (run_world run) = S (requested w)
  ∧ slept (run_world run) = slept w.
Proof.
  intros Hne. cbn zeta. rewrite make_request_world.
  destruct (session env (requested w) _) as [e|response].
  - done.
  - split; [by apply settings_received|].
    split; [unfold current_count_base, value; by rewrite settings_received|].
    unfold received, counted, sent. by destruct (from_cache response).
Qed.

Lemma legacy_request_writes_its_counter_only_witness :
  let run := AdvancedAlgorithmBase.make_request Demo.time_map "app" "key" "{}"
               Demo.serving (Demo.world_of (Demo.limits true 5 2)) in
  settings (run_world run) !! "travel_time_platform/warning_limit" = Some (QInt 5)
  ∧ current_count_base (run_world run) = 0%Z
  ∧ requested (run_world run) = 1
  ∧ slept (run_world run) = 0.
Proof.
  apply (legacy_request_writes_its_counter_only Demo.time_map "app" "key" "{}"
           Demo.serving (Demo.world_of (Demo.limits true 5 2))
           "travel_time_platform/warning_limit").
  vm_compute. intuition congruence.
Defined.

(** X13. The helper of [base.py] has no usage guard: with both
    credentials set it hands its request to the session whatever the
    counters, the limit and the warning switch say, without a sleep,
    and it writes one setting at most, its own counter
    [traveltime_platform/current_count]. The guard of [algorithms.py]
    reads other keys, so its verdict is the same before and after a
    request of [base.py]. *)
Theorem base_helper_has_no_guard
    (cfg : AlgorithmBase.Config) (APP_ID API_KEY : string) (data : option Data)
    (params : list (string * string)) (env : Env) (w : World) :
  py_not APP_ID = false → py_not API_KEY = false →
  let run := AlgorithmBase.processAlgorithmMakeRequest cfg (APP_ID, API_KEY) data params env w in
  requests_of (run_trace run) = [base_request_of cfg APP_ID API_KEY env w data params]
  ∧ sleeps_of (run_trace run) = 0
  ∧ (∀ key, key ≠ "traveltime_platform/current_count" →
            settings (run_world run) !! key = settings w !! key)
  ∧ over_limit (run_world run) = over_limit w.
Proof.
  intros Hid Hkey. cbn zeta.
  assert (∀ key, key ≠ "traveltime_platform/current_count" →
            settings (run_world (AlgorithmBase.processAlgorithmMakeRequest cfg
                                   (APP_ID, API_KEY) data params env w)) !! key
            = settings w !! key) as Hkeys.
  { intros key Hne. rewrite processAlgorithmMakeRequest_cases, run_world_prefix by done.
    destruct (session env (requested w) _) as [e|response]; [done|].
    destruct (json_loads env (text response)) as [e|response_data]; [done|].
    destruct (raise_for_status _ response) as [e|].
    - destruct response_data as [rs [code|] [descr|] [link|] [info|]]; done.
    - by apply settings_base_received. }
  split; [|split; [|split; [exact Hkeys|]]].
  - rewrite processAlgorithmMakeRequest_cases, run_trace_prefix by done.
    rewrite !requests_of_app.
    assert (requests_of (base_request_log cfg env w data params) = []) as ->.
    { unfold base_request_log. by destruct (base_print_query w). }
    assert (requests_of (https_notice w) = []) as ->.
    { unfold https_notice. by destruct (disable_https w). }
    cbn [requests_of omap is_request app]. f_equal.
    destruct (session env (requested w) _) as [e|response]; [done|].
    destruct (json_loads env (text response)) as [e|response_data]; [done|].
    destruct (raise_for_status _ response) as [e|].
    + destruct response_data as [rs [code|] [descr|] [link|] [info|]]; done.
    + unfold run_trace, received_events, base_response_log. cbn [snd].
      by destruct (from_cache response), (base_print_query w).
  - rewrite processAlgorithmMakeRequest_cases, run_trace_prefix by done.
    rewrite !sleeps_of_app.
    assert (sleeps_of (base_request_log cfg env w data params) = 0) as ->.
    { unfold base_request_log. by destruct (base_print_query w). }
    assert (sleeps_of (https_notice w) = 0) as ->.
    { unfold https_notice. by destruct (disable_https w). }
    destruct (session env (requested w) _) as [e|response]; [done|].
    destruct (json_loads env (text response)) as [e|response_data]; [done|].
    destruct (raise_for_status _ response) as [e|].
    + destruct response_data as [rs [code|] [descr|] [link|] [info|]]; done.
    + unfold run_trace, received_events, base_response_log. cbn [snd].
      by destruct (from_cache response), (base_print_query w).
  - unfold over_limit, warning_enabled, warning_limit, current_count, value.
    by rewrite !Hkeys.
Qed.

Lemma base_helper_has_no_guard_witness :
  let w := Demo.world_of (<["traveltime_platform/current_count" := QInt 99]>
                            (Demo.limits true 5 99)) in
  over_limit w = true
  ∧ length (requests_of (run_trace (AlgorithmBase.processAlgorithmMakeRequest Demo.config
                                      ("app", "key") None [] Demo.serving w))) = 1
  ∧ sleeps_of (run_trace (AlgorithmBase.processAlgorithmMakeRequest Demo.config
                            ("app", "key") None [] Demo.serving w)) = 0.
Proof.
  cbn zeta. split; [reflexivity|].
  destruct (base_helper_has_no_guard Demo.config "app" "key" None [] Demo.serving
              (Demo.world_of (<["traveltime_platform/current_count" := QInt 99]>
                                (Demo.limits true 5 99))))
    as (Hrq & Hsl & _); [reflexivity..|].
  split; [by rewrite Hrq|exact Hsl].
Defined.

(** ** The counter over a whole operation *)

Section OperationCounter.

Import AdvancedAlgorithmBase.
Context {Out : Type} (alg : Algorithm Out).
Context (source_departure source_arrival : option (list SearchFeature)).
Context (APP_ID API_KEY : string) (env : Env).
Hypothesis nobody_edits : ∀ k s, operator env k s = s.
Hypothesis all_fresh : ∀ n rq response, session env n rq = inr response →
                                        from_cache response = false.

Lemma slice_cycle_counts slicing_i w rs :
  run_result (slice_cycle alg source_departure source_arrival APP_ID API_KEY slicing_i env w)
  = inr rs →
  current_count (run_world (slice_cycle alg source_departure source_arrival
                              APP_ID API_KEY slicing_i env w))
  = (current_count w + 1)%Z
  ∧ requested (run_world (slice_cycle alg source_departure source_arrival
                            APP_ID API_KEY slicing_i env w))
    = S (requested w).
Proof.
  rewrite slice_cycle_cases.
  destruct (processAlgorithmRemixData alg _) as [e|remixed]; [done|].
  rewrite run_result_prefix, run_world_prefix.
  pose proof (api_limit_loop_world (seq 0 retries) env w) as [Hw _].
  pose proof (api_limit_loop_quiet (seq 0 retries) env w) as (_ & _ & Hrq).
  destruct (api_limit_loop (seq 0 retries) env w) as [[[e|[]] w1] t1] eqn:Hloop.
  { by rewrite (bind_fail _ _ _ _ _ _ _ Hloop). }
  rewrite (bind_ok _ (λ _, make_request alg APP_ID API_KEY (json_dumps env remixed))
             _ _ _ _ _ Hloop).
  rewrite run_result_prefix, run_world_prefix, make_request_world.
  unfold run_world, run_trace in Hw, Hrq. cbn [fst snd] in Hw, Hrq.
  assert (current_count w1 = current_count w) as Hcount.
  { unfold current_count. by rewrite Hw, after_sleeps_settings. }
  rewrite make_request_cases, run_result_prefix.
  destruct (session env (requested w1) _) as [e|response] eqn:Hs; [done|].
  intros _. unfold received. rewrite (all_fresh _ _ _ Hs).
  rewrite current_count_counted. unfold current_count at 1, counted, sent.
  cbn [settings requested]. fold (current_count w1). by rewrite Hcount, Hrq.
Qed.

Lemma slices_loop_counts range results w acc :
  run_result (slices_loop alg source_departure source_arrival APP_ID API_KEY
                range results env w) = inr acc →
  current_count (run_world (slices_loop alg source_departure source_arrival APP_ID API_KEY
                              range results env w))
  = (current_count w + Z.of_nat (length range))%Z
  ∧ requested (run_world (slices_loop alg source_departure source_arrival APP_ID API_KEY
                            range results env w))
    = requested w + length range.
Proof.
  revert results w. induction range as [|i range IH]; intros results w.
  { intros _. cbn. split; lia. }
  pose proof (slice_cycle_counts i w) as Hcycle.
  destruct (slice_cycle alg source_departure source_arrival APP_ID API_KEY i env w)
    as [[[e|rs] w1] t1] eqn:Hc.
  - by rewrite (slices_loop_abort _ _ _ _ _ _ _ _ _ _ _ _ _ Hc).
  - rewrite (slices_loop_step _ _ _ _ _ _ _ _ _ _ _ _ _ Hc).
    rewrite run_result_prefix, run_world_prefix. intros Hrest.
    destruct (IH _ _ Hrest) as [-> ->].
    destruct (Hcycle rs eq_refl) as [Hc1 Hc2].
    unfold run_world in Hc1, Hc2. cbn [fst snd] in Hc1, Hc2. rewrite Hc1, Hc2.
    cbn [length]. split; lia.
Qed.

(** X14. A successful operation counts its slices: when nobody edits
    the settings during the sleeps, no response comes from the cache
    and the output stage leaves the store alone (as the two output
    stages of the file do), an operation that returns has raised the
    counter by the number of its slices, one per request, and has
    called the session that many times. *)
Theorem successful_operation_counts_its_slices (w : World) (out : Out) :
  py_not APP_ID = false → py_not API_KEY = false →
  (∀ results w', run_world (processAlgorithmOutput alg results env w') = w') →
  let run := processAlgorithm alg (APP_ID, API_KEY) source_departure source_arrival env w in
  run_result run = inr out →
  current_count (run_world run)
  = (current_count w + Z.of_nat (slicing_count source_departure source_arrival))%Z
  ∧ requested (run_world run)
    = requested w + slicing_count source_departure source_arrival.
Proof.
  intros Hid Hkey Hout. cbn zeta. rewrite processAlgorithm_cases by done.
  rewrite run_result_prefix, run_world_prefix.
  pose proof (slices_loop_counts (seq 0 (slicing_count source_departure source_arrival))
                [] w) as Hloop.
  destruct (slices_loop alg source_departure source_arrival APP_ID API_KEY _ [] env w)
    as [[[e|results] w1] t1]; [done|].
  rewrite run_world_prefix, Hout. intros _.
  destruct (Hloop results eq_refl) as [H1 H2].
  unfold run_world in H1, H2. cbn [fst snd] in H1, H2.
  by rewrite length_seq in H1, H2.
Qed.

End OperationCounter.

(** The output stages of the two algorithms leave the store alone. *)
Lemma time_map_output_world results env w :
  run_world (TimeMapAlgorithm.processAlgorithmOutput results env w) = w.
Proof.
  unfold TimeMapAlgorithm.processAlgorithmOutput, bind, lift, emit, ret, raise.
  by destruct (TimeMapAlgorithm.add_features results _).
Qed.

Lemma time_filter_output_world lookup locations_source results env w :
  run_world (TimeFilterAlgorithm.processAlgorithmOutput lookup locations_source results env w)
  = w.
Proof.
  unfold TimeFilterAlgorithm.processAlgorithmOutput, bind, lift, emit, ret, raise.
  by destruct (TimeFilterAlgorithm.add_features lookup locations_source results _).
Qed.

Lemma successful_operation_counts_its_slices_witness :
  let run := AdvancedAlgorithmBase.processAlgorithm Demo.time_map ("app", "key")
               (Some Demo.twelve) None Demo.serving (Demo.world_of ∅) in
  current_count (run_world run) = 2%Z ∧ requested (run_world run) = 2.
Proof.
  set (r := AdvancedAlgorithmBase.processAlgorithm Demo.time_map ("app", "key")
              (Some Demo.twelve) None Demo.serving (Demo.world_of ∅)).
  assert (∃ out, run_result r = inr out) as [out Hout] by (vm_compute; eexists; reflexivity).
  cbn zeta.
  apply (successful_operation_counts_its_slices Demo.time_map (Some Demo.twelve) None
           "app" "key" Demo.serving
           (λ _ _, eq_refl)
           (λ n rq response H,
              match H in (_ = y) return
                    match y with inr r => from_cache r = false | inl _ => True end
              with eq_refl => eq_refl end)
           (Demo.world_of ∅) out eq_refl eq_refl
           (λ results w', time_map_output_world results Demo.serving w') Hout).
Defined.

(** ** The remixes over the slices *)

(** X15. In a sliced operation of the time-map endpoint an aggregation
    spans one slice, never the whole input: the descriptor sent with
    slice [i] lists the ids of the features at the positions [10 i] to
    [10 i + 9] of the departure source, then those of the arrival
    source, twenty ids at most; the service is thus asked for one union
    (or intersection) per slice. A payload built by the engine has no
    descriptor when the aggregation is not requested. *)
Theorem aggregation_spans_one_slice (compute_union compute_inter : bool)
    (source_departure source_arrival : option (list SearchFeature)) (i : nat) :
  let ids := slice_ids source_departure i ++ slice_ids source_arrival i in
  ∃ remixed,
    TimeMapAlgorithm.processAlgorithmRemixData compute_union compute_inter
      (prepare_data source_departure source_arrival i) = inr remixed
    ∧ unions remixed
      = (if compute_union then Some [{| agg_id := "union_all"; search_ids := ids |}] else None)
    ∧ intersections remixed
      = (if compute_inter
         then Some [{| agg_id := "intersection_all"; search_ids := ids |}] else None)
    ∧ length ids ≤ 2 * slicing_size.
Proof.
  cbn zeta.
  assert (TimeMapAlgorithm.ids_of
            (departure_searches (prepare_data source_departure source_arrival i))
          = slice_ids source_departure i) as Hdep.
  { rewrite prepare_data_departure. unfold slice_ids.
    destruct source_departure as [features|]; cbn; [|by rewrite drop_nil].
    by rewrite map_map. }
  assert (TimeMapAlgorithm.ids_of
            (arrival_searches (prepare_data source_departure source_arrival i))
          = slice_ids source_arrival i) as Harr.
  { rewrite prepare_data_arrival. unfold slice_ids.
    destruct source_arrival as [features|]; cbn; [|by rewrite drop_nil].
    by rewrite map_map. }
  assert (length (slice_ids source_departure i ++ slice_ids source_arrival i)
          ≤ 2 * slicing_size) as Hlen.
  { unfold slice_ids. rewrite length_app, !length_map, !length_take. lia. }
  unfold TimeMapAlgorithm.processAlgorithmRemixData.
  destruct compute_union, compute_inter; cbn [orb];
    eexists; (split; [reflexivity|]);
    cbn [unions intersections departure_searches arrival_searches];
    rewrite ?Hdep, ?Harr; done.
Qed.

Section ClosedPayload.

Import TimeFilterAlgorithm.

Lemma remixed_searches_closed (own : Search → option string)
    (counterpart : Search → option (list string)) (ids all_ids : list string)
    (searches searches' : list Search) :
  Forall2 (remixed_from own counterpart ids) searches searches' →
  ids ⊆ all_ids →
  (∀ s, s ∈ searches → sd_id s ∈ all_ids) →
  Forall (closed_search own counterpart all_ids) searches'.
Proof.
  intros Hall Hids Hown. induction Hall as [|s s' l l' HR _ IH]; [constructor|].
  constructor.
  - destruct HR as (Hid & Hc & Ho & Hcp & _). unfold closed_search.
    rewrite Hid. split; [done|]. split; [done|].
    split; [apply Hown; left|]. by exists ids.
  - apply IH. intros x Hx. apply Hown. by right.
Qed.

Lemma location_ids_of_searches (searches : list Search) (s : Search) :
  Forall has_coords searches → s ∈ searches →
  sd_id s ∈ map loc_id (omap location_of_search searches).
Proof.
  intros Hall Hin. apply (proj1 (Forall_forall _ _) Hall) in Hin as Hc.
  destruct Hc as [c Hc].
  apply (list_elem_of_fmap_2' loc_id _ {| loc_id := sd_id s; loc_coords := c |}); [|done].
  apply list_elem_of_omap. exists s. split; [done|].
  unfold location_of_search. by rewrite Hc.
Qed.

(** X16. The payload the engine sends to the time-filter endpoint is
    closed, slice after slice: the remix never fails on a slice; the
    [locations] list it sends holds the whole locations layer again
    with every slice, followed by one location per search of the
    slice; and every search comes without coordinates and refers, by
    its own location id and by its list of counterparts, to ids of
    that list only. *)
Theorem time_filter_payload_is_closed (locations_source : Source)
    (source_departure source_arrival : option (list SearchFeature)) (i : nat) :
  let data := prepare_data source_departure source_arrival i in
  ∃ remixed locs,
    processAlgorithmRemixData locations_source data = inr remixed
    ∧ locations remixed = Some locs
    ∧ take (length (getFeatures locations_source)) (map loc_id locs)
      = map INPUT_LOCATIONS_ID (getFeatures locations_source)
    ∧ length locs
      = length (getFeatures locations_source)
        + length (searches_of (departure_searches data))
        + length (searches_of (arrival_searches data))
    ∧ Forall (closed_search departure_location_id arrival_location_ids (map loc_id locs))
        (searches_of (departure_searches remixed))
    ∧ Forall (closed_search arrival_location_id departure_location_ids (map loc_id locs))
        (searches_of (arrival_searches remixed)).
Proof.
  cbn zeta.
  destruct (prepare_data_has_coords source_departure source_arrival i) as [Hdep Harr].
  set (data := prepare_data source_departure source_arrival i) in *.
  unfold processAlgorithmRemixData.
  set (records := map (λ feature, {| loc_id := INPUT_LOCATIONS_ID feature;
                                     loc_coords := location_point feature |})
                      (getFeatures locations_source)).
  destruct (remix_side_run _ _ records (departure_searches data)
              (remix_departure_search_run (map loc_id records)) Hdep)
    as (deps' & -> & Hdeps').
  destruct (remix_side_run _ _
              (records ++ omap location_of_search (searches_of (departure_searches data)))
              (arrival_searches data)
              (remix_arrival_search_run (map loc_id records)) Harr)
    as (arrs' & -> & Harrs').
  assert (∀ l, Forall has_coords l → length (omap location_of_search l) = length l) as Hlen.
  { induction 1 as [|s l [c Hc] _ IH]; [done|].
    cbn. unfold location_of_search at 1. rewrite Hc. cbn. by rewrite IH. }
  assert (map loc_id records = map INPUT_LOCATIONS_ID (getFeatures locations_source))
    as Hrecords by (subst records; by rewrite map_map).
  eexists _, _. split; [reflexivity|]. cbn [locations departure_searches arrival_searches].
  split; [reflexivity|].
  set (locs := (records ++ omap location_of_search (searches_of (departure_searches data)))
               ++ omap location_of_search (searches_of (arrival_searches data))).
  assert (map loc_id records ⊆ map loc_id locs) as Hsub.
  { intros x Hx. subst locs. rewrite !map_app. apply elem_of_app. left.
    apply elem_of_app. by left. }
  split; [|split; [|split]].
  - subst locs. rewrite !map_app, <- app_assoc, <- Hrecords.
    replace (length (getFeatures locations_source)) with (length (map loc_id records))
      by (subst records; by rewrite !length_map).
    by rewrite take_app_length.
  - subst locs. rewrite !length_app, !Hlen by done. subst records. by rewrite length_map.
  - destruct Hdeps' as [l l' Hl|]; [|constructor]. cbn [searches_of default from_option id].
    apply (remixed_searches_closed _ _ _ _ _ _ Hl Hsub).
    intros s Hs. subst locs. rewrite !map_app. apply elem_of_app. left.
    apply elem_of_app. right.
    by apply location_ids_of_searches.
  - destruct Harrs' as [l l' Hl|]; [|constructor]. cbn [searches_of default from_option id].
    apply (remixed_searches_closed _ _ _ _ _ _ Hl Hsub).
    intros s Hs. subst locs. rewrite !map_app. apply elem_of_app. right.
    by apply location_ids_of_searches.
Qed.

End ClosedPayload.

(** ** The output stage of the time-map endpoint, further *)

Section TimeMapSinks.

Import TimeMapAlgorithm.

Lemma feature_of_result_cases r :
  feature_of_result r
  = match missing_entry r with
    | Some key => inl (KeyError key)
    | None => inr (geometry_feature r)
    end.
Proof.
  unfold feature_of_result, missing_entry, geometry_feature.
  by destruct (properties r), (shape r).
Qed.

Lemma add_features_count results sinks sinks' :
  add_features results sinks = inr sinks' →
  time_map_sink_count sinks' = time_map_sink_count sinks + length results
  ∧ Forall carries_geometry results.
Proof.
  revert sinks. induction results as [|r rest IH]; intros sinks.
  { intros [= <-]. split; [cbn [length]; lia|constructor]. }
  cbn [add_features]. rewrite feature_of_result_cases.
  destruct (missing_entry r) as [key|] eqn:Hmiss; [done|].
  assert (carries_geometry r) as Hr.
  { unfold missing_entry in Hmiss. unfold carries_geometry.
    by destruct (properties r), (shape r). }
  destruct (search_id r =? "union_all")%string;
    [|destruct (search_id r =? "intersection_all")%string];
    intros [Hcount Hall]%IH; (split; [|by constructor]);
    rewrite Hcount; unfold time_map_sink_count;
    cbn [OUTPUT_SEARCHES OUTPUT_UNION OUTPUT_INTER length];
    rewrite length_app; cbn [length]; lia.
Qed.

Lemma add_features_missing pre r post sinks key :
  Forall carries_geometry pre → missing_entry r = Some key →
  add_features (pre ++ r :: post) sinks = inl (KeyError key).
Proof.
  intros Hpre Hmiss. revert sinks.
  induction Hpre as [|p pre Hp _ IH]; intros sinks; cbn [app add_features].
  - by rewrite feature_of_result_cases, Hmiss.
  - rewrite (feature_of_result_run p Hp).
    destruct (search_id p =? "union_all")%string;
      [|destruct (search_id p =? "intersection_all")%string]; apply IH.
Qed.

(** X17. The output stage of the time-map endpoint keeps every result
    and duplicates none: when it returns, each result of the merged
    list carried a shape and properties, and the three sinks hold
    together as many features as there are results. *)
Theorem time_map_output_keeps_every_result (results : list ApiResult) (env : Env)
    (w : World) (sinks : Sinks) :
  run_result (processAlgorithmOutput results env w) = inr sinks →
  time_map_sink_count sinks = length results
  ∧ Forall carries_geometry results
  ∧ run_trace (processAlgorithmOutput results env w) = [pushDebugInfo "TimeMapAlgorithm done !"].
Proof.
  unfold processAlgorithmOutput, bind, lift, emit, ret, raise.
  destruct (add_features results empty_sinks) as [e|sinks'] eqn:Hadd; [done|].
  cbn. intros [= <-]. destruct (add_features_count _ _ _ Hadd) as [Hcount Hall].
  by rewrite Hcount.
Qed.

(** X18. A result that lacks [properties] or [shape] stops the output
    stage of the time-map endpoint with a [KeyError], of [properties]
    when both are missing since it is read first: the stage returns no
    sink identifier and does not say that it is done, though the
    results before the faulty one were well formed. *)
Theorem time_map_output_missing_entry (pre post : list ApiResult) (r : ApiResult)
    (key : string) (env : Env) (w : World) :
  Forall carries_geometry pre →
  missing_entry r = Some key →
  processAlgorithmOutput (pre ++ r :: post) env w = (inl (KeyError key), w, []).
Proof.
  intros Hpre Hmiss. unfold processAlgorithmOutput, bind, lift, raise.
  by rewrite (add_features_missing pre r post empty_sinks key Hpre Hmiss).
Qed.

End TimeMapSinks.

Lemma time_map_output_keeps_every_result_witness :
  ∃ sinks,
    run_result (TimeMapAlgorithm.processAlgorithmOutput
                  [Demo.shape_result "a"; Demo.shape_result "union_all"; Demo.shape_result "b"]
                  Demo.serving (Demo.world_of ∅)) = inr sinks
    ∧ time_map_sink_count sinks = 3
    ∧ length (TimeMapAlgorithm.OUTPUT_UNION sinks) = 1.
Proof.
  eexists. split; [vm_compute; reflexivity|].
  split; [|reflexivity].
  apply (time_map_output_keeps_every_result
           [Demo.shape_result "a"; Demo.shape_result "union_all"; Demo.shape_result "b"]
           Demo.serving (Demo.world_of ∅)).
  vm_compute. reflexivity.
Defined.

Lemma time_map_output_missing_entry_witness :
  TimeMapAlgorithm.processAlgorithmOutput
    [Demo.shape_result "a"; Demo.filter_result "l" "m"; Demo.shape_result "b"]
    Demo.serving (Demo.world_of ∅)
  = (inl (KeyError "properties"), Demo.world_of ∅, []).
Proof.
  apply (time_map_output_missing_entry [Demo.shape_result "a"] [Demo.shape_result "b"]
           (Demo.filter_result "l" "m") "properties" Demo.serving (Demo.world_of ∅)).
  - repeat constructor; by eexists.
  - reflexivity.
Defined.

(** ** The declared parameters *)

Lemma subseteq_check (l1 l2 : list string) :
  forallb (λ k, bool_decide (k ∈ l2)) l1 = true → l1 ⊆ l2.
Proof.
  intros Hall x Hx. apply list_elem_of_In in Hx.
  pose proof (proj1 (forallb_forall _ _) Hall x Hx) as Hin.
  by apply bool_decide_eq_true in Hin.
Qed.

Lemma NoDup_check (l : list string) : bool_decide (NoDup l) = true → NoDup l.
Proof. apply bool_decide_eq_true. Qed.

Section DeclaredParameters.

Import Declarations.

(** X19. No two parameters an advanced algorithm declares have the
    same name, whatever the time at which the algorithm is set up, so
    that none of the declarations is one that QGIS refuses as a
    duplicate; each side declares eleven parameters, six of them
    flagged as advanced. *)
Theorem declared_names_are_distinct (now_iso : string) :
  NoDup (map name (TimeMapAlgorithm_initAlgorithm now_iso))
  ∧ NoDup (map name (TimeFilterAlgorithm_initAlgorithm now_iso))
  ∧ ∀ DEPARR,
      length (searches_parameters now_iso DEPARR) = 11
      ∧ length (filter (λ p, FlagAdvanced p = true) (searches_parameters now_iso DEPARR)) = 6.
Proof.
  split; [|split].
  - apply NoDup_check. vm_compute. reflexivity.
  - apply NoDup_check. vm_compute. reflexivity.
  - intros DEPARR. split; reflexivity.
Qed.

(** X20. Every key the payload loop evaluates for a feature of a side
    is the name of an expression parameter the algorithm declares, and
    so is a key of [self.expressions]: [eval_expr] never fails with a
    [KeyError] there, in neither of the two advanced algorithms, and
    the same holds of [INPUT_LOCATIONS_ID] in the time-filter remix.
    The one expression the side declares and never evaluates is the
    search range width. *)
Theorem evaluated_keys_are_declared (now_iso DEPARR : string) :
  DEPARR ∈ ["DEPARTURE"; "ARRIVAL"] →
  evaluated DEPARR ⊆ expressions (TimeMapAlgorithm_initAlgorithm now_iso)
  ∧ evaluated DEPARR ⊆ expressions (TimeFilterAlgorithm_initAlgorithm now_iso)
  ∧ "INPUT_LOCATIONS_ID" ∈ expressions (TimeFilterAlgorithm_initAlgorithm now_iso)
  ∧ filter (λ key, key ∉ evaluated DEPARR) (expressions (searches_parameters now_iso DEPARR))
    = ["INPUT_" +:+ DEPARR +:+ "_RANGE_WIDTH"].
Proof.
  intros Hside.
  assert (DEPARR = "DEPARTURE" ∨ DEPARR = "ARRIVAL") as [-> | ->].
  { apply elem_of_cons in Hside as [?|Hside]; [by left|].
    apply elem_of_cons in Hside as [?|Hside]; [by right|]. by apply elem_of_nil in Hside. }
  - split; [apply subseteq_check; vm_compute; reflexivity|].
    split; [apply subseteq_check; vm_compute; reflexivity|].
    split; [apply (bool_decide_eq_true_1 _); vm_compute; reflexivity|].
    vm_compute. reflexivity.
  - split; [apply subseteq_check; vm_compute; reflexivity|].
    split; [apply subseteq_check; vm_compute; reflexivity|].
    split; [apply (bool_decide_eq_true_1 _); vm_compute; reflexivity|].
    vm_compute. reflexivity.
Qed.

End DeclaredParameters.

Lemma evaluated_keys_are_declared_witness :
  Declarations.evaluated "ARRIVAL"
  ⊆ Declarations.expressions (Declarations.TimeFilterAlgorithm_initAlgorithm "2020-01-01T12:00:00Z").
Proof.
  apply (evaluated_keys_are_declared "2020-01-01T12:00:00Z" "ARRIVAL").
  apply (bool_decide_eq_true_1 _). vm_compute. reflexivity.
Defined.

(** ** The simplified algorithms *)

Section SimplifiedAlgorithms.

Import Simplified.
Context {Layer : Type}.

Lemma mode_cases (mode : string) :
  mode ∈ ["DEPARTURE"; "ARRIVAL"] → mode = "DEPARTURE" ∨ mode = "ARRIVAL".
Proof.
  intros H. apply elem_of_cons in H as [?|H]; [by left|].
  apply elem_of_cons in H as [?|H]; [by right|]. by apply elem_of_nil in H.
Qed.

Lemma py_getitem_Some {A} (l : list A) (i : Z) (a : A) :
  py_getitem l i = Some a → a ∈ l ∧ (- Z.of_nat (length l) ≤ i < Z.of_nat (length l))%Z.
Proof.
  unfold py_getitem.
  destruct (Z.leb_spec 0 i); [|destruct (Z.leb_spec (- Z.of_nat (length l)) i); [|done]];
    intros Hl; (split; [by eapply list_elem_of_lookup_2|]);
    apply lookup_lt_Some in Hl; lia.
Qed.

Lemma py_getitem_None {A} (l : list A) (i : Z) :
  ¬ (- Z.of_nat (length l) ≤ i < Z.of_nat (length l))%Z → py_getitem l i = None.
Proof.
  intros Hout. destruct (py_getitem l i) as [a|] eqn:Hget; [|done].
  by apply py_getitem_Some in Hget as [_ ?].
Qed.

(** X21. What the simplified time-map algorithm hands to the
    advanced one fits its declarations, for either search type: the
    ten keys are distinct names of parameters the time-map algorithm
    declares; the searches layer goes to the side of the search type
    and the other side gets none; the travel time in minutes is passed
    in seconds, as a decimal literal, and the same value is passed as
    the walking time; each of the three sinks the time-map algorithm
    declares gets a destination; and the two aggregations are never
    requested together. *)
Theorem simple_time_map_sub_parameters
    (parameters : TimeMapSimpleAlgorithm.Inputs Layer)
    (mode trnspt_type result_type now_iso : string) :
  mode ∈ TimeMapSimpleAlgorithm.SEARCH_TYPES →
  let sub := TimeMapSimpleAlgorithm.sub_parameters parameters mode trnspt_type result_type in
  let seconds := VStr (pretty (TimeMapSimpleAlgorithm.INPUT_TRAVEL_TIME parameters * 60)%Z) in
  NoDup (map fst sub)
  ∧ map fst sub ⊆ map Declarations.name (Declarations.TimeMapAlgorithm_initAlgorithm now_iso)
  ∧ filter (λ key, key ∈ ["INPUT_DEPARTURE_SEARCHES"; "INPUT_ARRIVAL_SEARCHES"]) (map fst sub)
    = ["INPUT_" +:+ mode +:+ "_SEARCHES"]
  ∧ ("INPUT_" +:+ mode +:+ "_TRAVEL_TIME", seconds) ∈ sub
  ∧ ("INPUT_" +:+ mode +:+ "_TRNSPT_WALKING_TIME", seconds) ∈ sub
  ∧ (∀ p, p ∈ Declarations.TimeMapAlgorithm_initAlgorithm now_iso →
          Declarations.type p = "sink" → Declarations.name p ∈ map fst sub)
  ∧ ¬ (("INPUT_CALC_UNION", VBool true) ∈ sub ∧ ("INPUT_CALC_INTER", VBool true) ∈ sub).
Proof.
  intros Hmode. cbn zeta.
  assert (¬ ((result_type =? "UNION")%string = true
             ∧ (result_type =? "INTERSECTION")%string = true)) as Hflags.
  { intros [H1%String.eqb_eq H2%String.eqb_eq]. congruence. }
  assert (∀ p, p ∈ Declarations.TimeMapAlgorithm_initAlgorithm now_iso →
               Declarations.type p = "sink" →
               Declarations.name p ∈ ["OUTPUT_SEARCHES"; "OUTPUT_UNION"; "OUTPUT_INTER"])
    as Hsinks.
  { intros p Hp Htype. unfold Declarations.TimeMapAlgorithm_initAlgorithm,
      Declarations.AdvancedAlgorithmBase_initAlgorithm in Hp.
    cbn [map concat Declarations.searches_parameters app] in Hp.
    repeat (apply elem_of_cons in Hp as [->|Hp]; [try discriminate Htype|]);
      try (by apply elem_of_nil in Hp); cbn; in_list. }
  destruct (mode_cases mode Hmode) as [-> | ->];
    (split; [apply NoDup_check; vm_compute; reflexivity|]);
    (split; [apply subseteq_check; vm_compute; reflexivity|]);
    (split; [vm_compute; reflexivity|]);
    (split; [unfold TimeMapSimpleAlgorithm.sub_parameters; in_list|]);
    (split; [unfold TimeMapSimpleAlgorithm.sub_parameters; in_list|]);
    (split;
     [ intros p Hp Htype; specialize (Hsinks p Hp Htype);
       repeat (apply elem_of_cons in Hsinks as [->|Hsinks]; [cbn; in_list|]);
       by apply elem_of_nil in Hsinks
     | intros [Hu Hi]; apply Hflags;
       unfold TimeMapSimpleAlgorithm.sub_parameters in Hu, Hi;
       split; [flag_of Hu|flag_of Hi] ]).
Qed.

(** X22. The simplified time-map algorithm returns the layer of the
    aggregation it has asked for. When its three list lookups succeed
    it calls the sub-algorithm [ttp_v4:time_map] once, with the
    sub-parameters of its inputs; when that run returns, the layer
    copied to the output is the union layer exactly when the union was
    requested in the sub-parameters, the intersection layer exactly
    when the intersection was, and the searches layer otherwise; when
    that run fails, its exception is the one the algorithm ends with,
    and the trace stops with what the sub-run pushed, before any
    copy. *)
Theorem simple_time_map_returns_requested_layer
    (processing_run : string → list (string * value Layer)
                      → (exn + TimeMapSimpleAlgorithm.Results Layer) * list event)
    (str : list (string * value Layer) → string)
    (parameters : TimeMapSimpleAlgorithm.Inputs Layer)
    (mode trnspt_type result_type : string) :
  py_getitem TimeMapSimpleAlgorithm.SEARCH_TYPES
    (TimeMapSimpleAlgorithm.INPUT_SEARCH_TYPE parameters) = Some mode →
  py_getitem TRANSPORTATION_TYPES
    (TimeMapSimpleAlgorithm.INPUT_TRNSPT_TYPE parameters) = Some trnspt_type →
  py_getitem TimeMapSimpleAlgorithm.RESULT_TYPE
    (TimeMapSimpleAlgorithm.INPUT_RESULT_TYPE parameters) = Some result_type →
  let sub := TimeMapSimpleAlgorithm.sub_parameters parameters mode trnspt_type result_type in
  let before :=
    [pushDebugInfo "Starting TimeMapSimpleAlgorithm...";
     pushDebugInfo "Calling subcommand with following parameters...";
     pushDebugInfo (str sub)] in
  TimeMapSimpleAlgorithm.processAlgorithm processing_run str parameters
  = match processing_run "ttp_v4:time_map" sub with
    | (inl e, t) => (inl (Raised e), before ++ t)
    | (inr results, t) =>
        (inr (if passes_true "INPUT_CALC_UNION" sub
              then TimeMapSimpleAlgorithm.OUTPUT_UNION results
              else if passes_true "INPUT_CALC_INTER" sub
                   then TimeMapSimpleAlgorithm.OUTPUT_INTER results
                   else TimeMapSimpleAlgorithm.OUTPUT_SEARCHES results),
         before ++ t ++ [pushDebugInfo "Got results fom subcommand...";
                         pushDebugInfo "Copying results to layer...";
                         pushDebugInfo "TimeMapSimpleAlgorithm done !"])
    end.
Proof.
  intros Hmode Htrnspt Hresult. cbn zeta.
  unfold TimeMapSimpleAlgorithm.processAlgorithm, getitem.
  rewrite Hmode, Htrnspt, Hresult.
  unfold and_then, pushDebugInfo_, pure, fail. cbn [fst snd app].
  destruct (processing_run _ _) as [[e|results] t]; [done|].
  cbn [fst snd app]. do 2 f_equal.
  apply py_getitem_Some in Hmode as [Hside _].
  destruct (mode_cases mode Hside) as [-> | ->];
    unfold passes_true, TimeMapSimpleAlgorithm.sub_parameters;
    cbn [existsb fst snd String.eqb Ascii.eqb Bool.eqb String.append andb orb];
    by destruct (result_type =? "UNION")%string, (result_type =? "INTERSECTION")%string.
Qed.

(** X23. An index that is out of the range of its list stops a
    simplified algorithm before it calls anything: when the search
    type is not one of [-2, -1, 0, 1] the algorithm ends with the
    [IndexError] of the lookup, after its first message and nothing
    else, whatever the sub-algorithm would have done; the indices [-1]
    and [-2] are not errors, they count from the end of the list. *)
Theorem simple_algorithms_index_error
    (run_map : string → list (string * value Layer)
               → (exn + TimeMapSimpleAlgorithm.Results Layer) * list event)
    (run_filter : string → list (string * value Layer)
                  → (exn + TimeFilterSimpleAlgorithm.Results Layer) * list event)
    (str : list (string * value Layer) → string)
    (map_parameters : TimeMapSimpleAlgorithm.Inputs Layer)
    (filter_parameters : TimeFilterSimpleAlgorithm.Inputs Layer) :
  (¬ (-2 ≤ TimeMapSimpleAlgorithm.INPUT_SEARCH_TYPE map_parameters < 2)%Z →
   TimeMapSimpleAlgorithm.processAlgorithm run_map str map_parameters
   = (inl IndexError, [pushDebugInfo "Starting TimeMapSimpleAlgorithm..."]))
  ∧ (¬ (-2 ≤ TimeFilterSimpleAlgorithm.INPUT_SEARCH_TYPE filter_parameters < 2)%Z →
     TimeFilterSimpleAlgorithm.processAlgorithm run_filter str filter_parameters
     = (inl IndexError, [pushDebugInfo "Starting TimeFilterSimpleAlgorithm..."]))
  ∧ py_getitem TimeMapSimpleAlgorithm.SEARCH_TYPES (-1) = Some "ARRIVAL"
  ∧ py_getitem TimeMapSimpleAlgorithm.SEARCH_TYPES (-2) = Some "DEPARTURE".
Proof.
  split; [|split; [|done]]; intros Hout.
  - unfold TimeMapSimpleAlgorithm.processAlgorithm, getitem.
    by rewrite (py_getitem_None TimeMapSimpleAlgorithm.SEARCH_TYPES _ Hout).
  - unfold TimeFilterSimpleAlgorithm.processAlgorithm, getitem.
    by rewrite (py_getitem_None TimeFilterSimpleAlgorithm.SEARCH_TYPES _ Hout).
Qed.

(** X24. The simplified time-filter algorithm passes eight distinct
    keys, all of them names of parameters the time-filter algorithm
    declares, the locations layer among them; it returns the results
    layer of the sub-run and drops the layer of the unreachable
    locations, which the sub-run has computed all the same; its last
    message is the one of the time-map variant; and a failure of the
    sub-run is the failure of the algorithm. *)
Theorem simple_time_filter_delegation
    (processing_run : string → list (string * value Layer)
                      → (exn + TimeFilterSimpleAlgorithm.Results Layer) * list event)
    (str : list (string * value Layer) → string)
    (parameters : TimeFilterSimpleAlgorithm.Inputs Layer)
    (mode trnspt_type now_iso : string) :
  py_getitem TimeFilterSimpleAlgorithm.SEARCH_TYPES
    (TimeFilterSimpleAlgorithm.INPUT_SEARCH_TYPE parameters) = Some mode →
  py_getitem TRANSPORTATION_TYPES
    (TimeFilterSimpleAlgorithm.INPUT_TRNSPT_TYPE parameters) = Some trnspt_type →
  let sub := TimeFilterSimpleAlgorithm.sub_parameters parameters mode trnspt_type in
  NoDup (map fst sub)
  ∧ map fst sub ⊆ map Declarations.name (Declarations.TimeFilterAlgorithm_initAlgorithm now_iso)
  ∧ ("INPUT_LOCATIONS", VLayer (TimeFilterSimpleAlgorithm.INPUT_LOCATIONS parameters)) ∈ sub
  ∧ match processing_run "ttp_v4:time_filter" sub with
    | (inl e, t) =>
        fst (TimeFilterSimpleAlgorithm.processAlgorithm processing_run str parameters)
        = inl (Raised e)
    | (inr results, t) =>
        fst (TimeFilterSimpleAlgorithm.processAlgorithm processing_run str parameters)
        = inr (TimeFilterSimpleAlgorithm.OUTPUT_RESULTS results)
        ∧ last (snd (TimeFilterSimpleAlgorithm.processAlgorithm processing_run str parameters))
          = Some (pushDebugInfo "TimeMapSimpleAlgorithm done !")
    end.
Proof.
  intros Hmode Htrnspt. cbn zeta.
  apply py_getitem_Some in Hmode as Hside. destruct Hside as [Hside _].
  split; [|split; [|split; [|]]].
  - destruct (mode_cases mode Hside) as [-> | ->]; apply NoDup_check; vm_compute; reflexivity.
  - destruct (mode_cases mode Hside) as [-> | ->]; apply subseteq_check; vm_compute;
      reflexivity.
  - unfold TimeFilterSimpleAlgorithm.sub_parameters. in_list.
  - unfold TimeFilterSimpleAlgorithm.processAlgorithm, getitem.
    rewrite Hmode, Htrnspt.
    unfold and_then, pushDebugInfo_, pure, fail. cbn [fst snd app].
    destruct (processing_run _ _) as [[e|results] t]; [done|].
    cbn [fst snd app]. split; [done|].
    by rewrite !last_cons, last_app.
Qed.

End SimplifiedAlgorithms.

Lemma simple_time_map_sub_parameters_witness :
  ("INPUT_ARRIVAL_TRAVEL_TIME", Simplified.VStr "900")
  ∈ TimeMapSimpleAlgorithm.sub_parameters union_of_arrivals "ARRIVAL" "walking" "UNION".
Proof.
  destruct (simple_time_map_sub_parameters union_of_arrivals "ARRIVAL" "walking" "UNION" "now")
    as (_ & _ & _ & Htime & _).
  - apply (bool_decide_eq_true_1 _). vm_compute. reflexivity.
  - exact Htime.
Defined.

Lemma simple_time_map_returns_requested_layer_witness :
  fst (TimeMapSimpleAlgorithm.processAlgorithm named_layers (λ _, "{...}") union_of_arrivals)
  = inr "union".
Proof.
  rewrite (simple_time_map_returns_requested_layer named_layers (λ _, "{...}")
             union_of_arrivals "ARRIVAL" "walking" "UNION" eq_refl eq_refl eq_refl).
  vm_compute. reflexivity.
Defined.

Lemma simple_algorithms_index_error_witness :
  TimeFilterSimpleAlgorithm.processAlgorithm found_layers (λ _, "{...}")
    (filter_of_departures 2)
  = (inl Simplified.IndexError, [pushDebugInfo "Starting TimeFilterSimpleAlgorithm..."]).
Proof.
  apply (simple_algorithms_index_error named_layers found_layers (λ _, "{...}")
           union_of_arrivals (filter_of_departures 2)).
  vm_compute. intuition congruence.
Defined.

Lemma simple_time_filter_delegation_witness :
  fst (TimeFilterSimpleAlgorithm.processAlgorithm found_layers (λ _, "{...}")
         (filter_of_departures 0))
  = inr "results".
Proof.
  destruct (simple_time_filter_delegation found_layers (λ _, "{...}")
              (filter_of_departures 0) "DEPARTURE" "driving" "now" eq_refl eq_refl)
    as (_ & _ & _ & Hrun).
  apply Hrun.
Defined.

(** ** The helpers of [AlgorithmBase] *)

Lemma occurs_in_app_l x a b : occurs_in x a → occurs_in x (a +:+ b).
Proof.
  intros (p & q & ->). exists p, (q +:+ b). by rewrite !string_app_assoc.
Qed.

Section HelpTexts.

Import AlgorithmBaseHelpers.
Context {QVal : Type} (qgis : Qgis QVal).

Lemma odict_get_set {V} (key k : string) (v : V) (d : list (string * V)) :
  odict_get key (odict_set k v d) = if (k =? key)%string then Some v else odict_get key d.
Proof.
  induction d as [|[k0 v0] d IH]; cbn [odict_set odict_get]; [done|].
  destruct (String.eqb_spec k0 k) as [->|Hne]; cbn [odict_get].
  - by destruct (k =? key)%string.
  - rewrite IH. destruct (String.eqb_spec k0 key) as [->|]; [|done].
    by destruct (String.eqb_spec k key) as [->|].
Qed.

Lemma odict_set_keys {V} (k : string) (v : V) (d : list (string * V)) :
  map fst (odict_set k v d) = if bool_decide (k ∈ map fst d) then map fst d
                              else map fst d ++ [k].
Proof.
  induction d as [|[k0 v0] d IH]; cbn [odict_set map fst]; [done|].
  destruct (String.eqb_spec k0 k) as [->|Hne]; cbn [map fst].
  - rewrite bool_decide_eq_true_2 by left. done.
  - rewrite IH. case_bool_decide as Hin; case_bool_decide as Hin'; try done.
    + exfalso. apply Hin'. by right.
    + exfalso. apply elem_of_cons in Hin' as [?|?]; [congruence|done].
Qed.

Lemma odict_set_NoDup {V} (k : string) (v : V) (d : list (string * V)) :
  NoDup (map fst d) → NoDup (map fst (odict_set k v d)).
Proof.
  intros Hd. rewrite odict_set_keys. case_bool_decide as Hin; [done|].
  apply NoDup_app. split; [done|]. split; [|apply NoDup_singleton].
  intros x Hx ->%list_elem_of_singleton. done.
Qed.

Lemma odict_get_elem {V} (key : string) (v : V) (d : list (string * V)) :
  NoDup (map fst d) → (key, v) ∈ d → odict_get key d = Some v.
Proof.
  induction d as [|[k0 v0] d IH]; [by intros _ ?%elem_of_nil|].
  cbn [map fst odict_get]. intros [Hnotin Hd]%NoDup_cons [[= -> ->]|Hin]%elem_of_cons.
  - by rewrite String.eqb_refl.
  - destruct (String.eqb_spec k0 key) as [->|_]; [|by apply IH].
    exfalso. apply Hnotin. apply list_elem_of_fmap. by exists (key, v).
Qed.

Lemma addParameters_snoc calls call (self : Self QVal) :
  addParameters qgis (calls ++ [call]) self
  = (addParameter qgis call.1.1 call.1.2 call.2 (addParameters qgis calls self)).2.
Proof. unfold addParameters. by rewrite foldl_app. Qed.

Lemma help_texts_snoc calls call advanced key :
  help_texts (calls ++ [call]) advanced key
  = help_texts calls advanced key
    ++ (if Bool.eqb call.1.2 advanced && (description call.1.1 =? key)%string
        then [call.2] else []).
Proof.
  unfold help_texts. rewrite omap_app. f_equal. cbn.
  by destruct (Bool.eqb call.1.2 advanced && (description call.1.1 =? key)%string).
Qed.

(** X25. The help registry of an algorithm holds one entry per
    description and flag: after any sequence of [addParameter] calls
    on a new instance, the keys of each of the two registries are
    distinct, a description is registered exactly when a call has
    given it under that flag, and its entry is the help text of the
    last such call, whether QGIS has accepted the definition or not.
    Two parameters with the same description thus share one line of
    help, that of the later one; the text of the class is untouched. *)
Theorem help_registry_keeps_last_text
    (calls : list (QgsParameter * bool * option string)) (text : string) (advanced : bool) :
  let self := addParameters qgis calls (__init__ text) in
  NoDup (map fst (parameters_help self advanced))
  ∧ (∀ key, odict_get key (parameters_help self advanced)
            = last (help_texts calls advanced key))
  ∧ _shortHelpString self = text
  ∧ shortHelpString (__init__ (QVal:=QVal) text) = text.
Proof.
  cbn zeta. induction calls as [|call calls IH] using rev_ind.
  { split; [constructor|]. split; [done|]. split; [done|].
    unfold shortHelpString. cbn. by rewrite !string_app_nil_r. }
  destruct IH as (Hnodup & Hget & Htext & Hinit).
  rewrite addParameters_snoc.
  set (self := addParameters qgis calls (__init__ text)) in *.
  destruct call as [[p a] h]. unfold addParameter.
  cbn [fst snd parameters_help _shortHelpString].
  assert (description (if a then setFlags (Z.lor (flags p) (FlagAdvanced qgis)) p else p)
          = description p) as -> by (by destruct a).
  split; [|split; [|done]].
  - destruct a, advanced; cbn [Bool.eqb]; try done; by apply odict_set_NoDup.
  - intros key. rewrite help_texts_snoc. cbn [fst snd].
    destruct a, advanced; cbn [Bool.eqb andb]; rewrite ?app_nil_r; try done;
      rewrite odict_get_set;
      (destruct (description p =? key)%string; [by rewrite last_snoc|by rewrite app_nil_r]).
Qed.

(** X26. Every entry of a registry has its line in the help of the
    algorithm, under the heading of its registry: the line shows the
    description in bold and then the help text, or a dash when the
    text is [None] or empty; and the help begins with the text of the
    class. *)
Theorem help_string_shows_every_entry (self : Self QVal) (advanced : bool)
    (key : string) (val : option string) :
  (key, val) ∈ parameters_help self advanced →
  let shown := match val with
               | Some v => if (v =? "")%string then "-" else v
               | None => "-"
               end in
  occurs_in (NL +:+ "<b>" +:+ key +:+ "</b>: " +:+ shown) (shortHelpString self)
  ∧ occurs_in (if advanced then "<h2>Advanced parameters description</h2>"
               else "<h2>Parameters description</h2>") (shortHelpString self)
  ∧ ∃ rest, shortHelpString self = _shortHelpString self +:+ rest.
Proof.
  intros Hin. cbn zeta.
  assert (∀ title, occurs_in (help_line (key, val))
                     (help_section title (parameters_help self advanced))
                   ∧ occurs_in ("<h2>" +:+ title +:+ "</h2>")
                       (help_section title (parameters_help self advanced))) as Hsection.
  { intros title. unfold help_section.
    destruct (parameters_help self advanced) as [|entry d] eqn:Hd;
      [by apply elem_of_nil in Hin|].
    split.
    - rewrite <- !string_app_assoc. apply occurs_in_skip, occurs_in_concat.
      apply list_elem_of_fmap. by exists (key, val).
    - rewrite <- !string_app_assoc. apply occurs_in_here. }
  split; [|split].
  - unfold shortHelpString. destruct advanced.
    + apply occurs_in_skip, (Hsection "Advanced parameters description").
    + apply occurs_in_app_l, occurs_in_skip, (Hsection "Parameters description").
  - unfold shortHelpString. destruct advanced.
    + apply occurs_in_skip, (Hsection "Advanced parameters description").
    + apply occurs_in_app_l, occurs_in_skip, (Hsection "Parameters description").
  - unfold shortHelpString. eexists. by rewrite string_app_assoc.
Qed.

End HelpTexts.

Section ConfigureParams.

Import AlgorithmBaseHelpers.
Context {QVal : Type} (qgis : Qgis QVal).

Lemma configure_param_readable p :
  readable p →
  (type p = "sink" ∧ configure_param qgis p = inr None)
  ∨ (type p ≠ "sink" ∧ ∃ param, configure_param qgis p = inr (Some param)).
Proof.
  unfold readable, supported, configure_param. intros [Hin| ->]; [|by left].
  right. repeat (apply elem_of_cons in Hin as [->|Hin]; [split; [done|]; cbn; eauto|]).
  - destruct (dataType_is_Integer p); eauto.
  - by apply elem_of_nil in Hin.
Qed.

Lemma configure_param_unsupported p :
  type p ∉ supported → type p ≠ "sink" →
  configure_param qgis p
  = inl (Exception ("Parameter type " +:+ type p +:+ " not supported [" +:+ name p +:+ "]")).
Proof.
  unfold supported, configure_param. intros Hnot Hsink.
  repeat match goal with
         | |- context [(type p =? ?s)%string] =>
             destruct (String.eqb_spec (type p) s) as [Heq|_];
             [exfalso; first [by apply Hsink | apply Hnot; rewrite Heq; in_list]|]
         end.
  done.
Qed.

Lemma configured_keys definitions :
  Forall readable definitions →
  map fst (configured qgis definitions)
  = map name (filter (λ p, type p ≠ "sink") definitions).
Proof.
  induction 1 as [|p rest Hp _ IH]; [done|].
  unfold configured in *. rewrite filter_cons.
  change (omap ?f (p :: rest)) with (match f p with
                                     | Some y => y :: omap f rest
                                     | None => omap f rest
                                     end).
  destruct (configure_param_readable p Hp) as [[Hsink ->]|[Hsink [param ->]]].
  - rewrite decide_False by (by intros ?). done.
  - rewrite decide_True by done. cbn [map fst]. by rewrite IH.
Qed.

Lemma odict_set_new {V} (k : string) (v : V) (d : list (string * V)) :
  k ∉ map fst d → odict_set k v d = d ++ [(k, v)].
Proof.
  induction d as [|[k0 v0] d IH]; [done|]. cbn [map fst odict_set app].
  intros Hnot. destruct (String.eqb_spec k0 k) as [->|_].
  - exfalso. apply Hnot. left.
  - rewrite IH; [done|]. intros Hin. apply Hnot. by right.
Qed.

Lemma configure_loop_readable definitions params :
  Forall readable definitions →
  NoDup (map fst params ++ map name definitions) →
  configure_loop qgis definitions params = (inr tt, params ++ configured qgis definitions).
Proof.
  intros Hall. revert params. induction Hall as [|p rest Hp _ IH]; intros params Hnodup.
  { cbn. by rewrite app_nil_r. }
  cbn [configure_loop]. unfold configured.
  change (omap ?f (p :: rest)) with (match f p with
                                     | Some y => y :: omap f rest
                                     | None => omap f rest
                                     end).
  cbn [map] in Hnodup. apply NoDup_app in Hnodup as (Hp1 & Hdisj & Hp2).
  apply NoDup_cons in Hp2 as [Hfresh Hrest].
  destruct (configure_param_readable p Hp) as [[Hsink ->]|[Hsink [param ->]]].
  - apply IH. apply NoDup_app. split; [done|]. split; [|done].
    intros x Hx Hin. apply (Hdisj x Hx). by right.
  - rewrite odict_set_new by (intros Hin; apply (Hdisj _ Hin); left).
    rewrite IH.
    + by rewrite <- app_assoc.
    + rewrite map_app. cbn [map fst]. rewrite <- app_assoc. cbn [app].
      apply NoDup_app. split; [done|]. split; [|by apply NoDup_cons].
      intros x Hx [->|Hin]%elem_of_cons; [apply (Hdisj _ Hx); left|].
      apply (Hdisj x Hx). by right.
Qed.

Lemma configure_loop_keys definitions params :
  ∀ key, key ∈ map fst (configure_loop qgis definitions params).2
         → key ∈ map fst params ∨ ∃ q, q ∈ definitions ∧ type q ≠ "sink" ∧ name q = key.
Proof.
  revert params. induction definitions as [|p rest IH]; intros params key; [by left|].
  cbn [configure_loop].
  destruct (configure_param qgis p) as [e|[param|]] eqn:Hp.
  - by left.
  - intros [Hin|(q & Hq & Hsink & Hname)]%IH.
    + rewrite odict_set_keys in Hin. case_bool_decide; [by left|].
      apply elem_of_app in Hin as [?|Hin]; [by left|].
      apply list_elem_of_singleton in Hin as ->.
      right. exists p. split; [left|]. split; [|done].
      intros Hsink. unfold configure_param in Hp. rewrite Hsink in Hp. cbn in Hp. done.
    + right. exists q. split; [by right|done].
  - intros [Hin|(q & Hq & Hsink & Hname)]%IH; [by left|].
    right. exists q. split; [by right|done].
Qed.

Lemma configure_loop_stops pre p post params e :
  Forall readable pre → configure_param qgis p = inl e →
  (configure_loop qgis (pre ++ p :: post) params).1 = inl e
  ∧ (configure_loop qgis (pre ++ p :: post) params).2 = (configure_loop qgis pre params).2.
Proof.
  intros Hpre Hp. revert params. induction Hpre as [|q pre Hq _ IH]; intros params.
  { cbn. by rewrite Hp. }
  cbn [app configure_loop].
  destruct (configure_param_readable q Hq) as [[_ ->]|[_ [param ->]]]; apply IH.
Qed.

Lemma configured_cons p definitions :
  configured qgis (p :: definitions)
  = match configure_param qgis p with
    | inr (Some param) => (name p, param) :: configured qgis definitions
    | _ => configured qgis definitions
    end.
Proof.
  unfold configured.
  change (omap ?f (p :: definitions)) with (match f p with
                                            | Some y => y :: omap f definitions
                                            | None => omap f definitions
                                            end).
  cbv beta. by destruct (configure_param qgis p) as [?|[?|]].
Qed.

Lemma odict_get_configured_None key definitions :
  key ∉ map name definitions → odict_get key (configured qgis definitions) = None.
Proof.
  induction definitions as [|q rest IH]; [done|].
  cbn [map]. intros Hnot. rewrite configured_cons.
  assert (odict_get key (configured qgis rest) = None) as Hrest.
  { apply IH. intros Hin. apply Hnot. by right. }
  destruct (configure_param qgis q) as [?|[?|]]; [done| |done].
  cbn [odict_get]. destruct (String.eqb_spec (name q) key) as [Heq|_]; [|done].
  exfalso. apply Hnot. rewrite Heq. left.
Qed.

Lemma odict_get_configured definitions p :
  NoDup (map name definitions) → p ∈ definitions →
  odict_get (name p) (configured qgis definitions)
  = match configure_param qgis p with
    | inr (Some param) => Some param
    | _ => None
    end.
Proof.
  induction definitions as [|q rest IH]; [by intros _ ?%elem_of_nil|].
  cbn [map]. intros [Hfresh Hrest]%NoDup_cons Hin. rewrite configured_cons.
  apply elem_of_cons in Hin as [->|Hin].
  - pose proof (odict_get_configured_None (name q) rest Hfresh) as Hnone.
    destruct (configure_param qgis q) as [?|[?|]]; [done| |done].
    cbn [odict_get]. by rewrite String.eqb_refl.
  - assert ((name q =? name p)%string = false) as Hne.
    { apply String.eqb_neq. intros Heq. apply Hfresh. rewrite Heq.
      apply list_elem_of_fmap. by exists p. }
    destruct (configure_param qgis q) as [?|[?|]]; cbn [odict_get]; rewrite ?Hne;
      by apply IH.
Qed.

(** X27. When every definition is of a type the switch reads, or a
    sink, and the names are distinct, configuring the parameters
    succeeds and [self.params] holds one entry per definition that is
    not a sink, in the order of the definitions: the sinks, which the
    switch skips, are the only parameters without an entry. A
    [string] and a [ttp_datetime] are both read as strings, and a
    [number] as an integer or a double after its data type. *)
Theorem configure_params_reads_all_but_sinks (self : Self QVal) :
  Forall readable (parameterDefinitions self) →
  NoDup (map name (parameterDefinitions self)) →
  let run := processAlgorithmConfigureParams qgis self in
  run.1 = inr tt
  ∧ params run.2 = Some (configured qgis (parameterDefinitions self))
  ∧ map fst (configured qgis (parameterDefinitions self))
    = map name (filter (λ p, type p ≠ "sink") (parameterDefinitions self))
  ∧ parameterDefinitions run.2 = parameterDefinitions self
  ∧ (∀ p, type p = "string" ∨ type p = "ttp_datetime" →
          configure_param qgis p = inr (Some (parameterAs qgis parameterAsString (name p))))
  ∧ (∀ p, type p = "number" →
          configure_param qgis p
          = inr (Some (parameterAs qgis (if dataType_is_Integer p then parameterAsInt
                                         else parameterAsDouble) (name p)))).
Proof.
  intros Hall Hnodup. cbn zeta. unfold processAlgorithmConfigureParams.
  rewrite (configure_loop_readable _ [] Hall) by done. cbn [fst snd params app].
  split; [done|]. split; [done|]. split; [by apply configured_keys|]. split; [done|].
  split.
  - intros p [Ht|Ht]; unfold configure_param; by rewrite Ht.
  - intros p Ht. unfold configure_param. rewrite Ht. cbn.
    by destruct (dataType_is_Integer p).
Qed.

(** X28. A definition of a type the switch does not know stops the
    configuration with an [Exception] that names the type and the
    parameter; [self.params] is left half filled, with the entries of
    the definitions that come before the faulty one and none of those
    that come after. *)
Theorem configure_params_unsupported_type (self : Self QVal)
    (pre post : list QgsParameter) (p : QgsParameter) :
  parameterDefinitions self = pre ++ p :: post →
  Forall readable pre →
  type p ∉ supported → type p ≠ "sink" →
  let run := processAlgorithmConfigureParams qgis self in
  run.1 = inl (Exception ("Parameter type " +:+ type p +:+ " not supported ["
                          +:+ name p +:+ "]"))
  ∧ ∃ d, params run.2 = Some d
         ∧ ∀ key, key ∈ map fst d → ∃ q, q ∈ pre ∧ type q ≠ "sink" ∧ name q = key.
Proof.
  intros Hdefs Hpre Hnot Hsink. cbn zeta. unfold processAlgorithmConfigureParams.
  rewrite Hdefs.
  destruct (configure_loop_stops pre p post [] _ Hpre (configure_param_unsupported p Hnot Hsink))
    as [Hresult Hparams].
  cbn [fst snd params]. split; [done|]. eexists. split; [reflexivity|].
  intros key Hkey. rewrite Hparams in Hkey.
  apply configure_loop_keys in Hkey as [Hin|?]; [by apply elem_of_nil in Hin|done].
Qed.

(** X29. Once the parameters are configured, [eval_expr] tells a
    sink from an input: it returns [None] for a sink, though
    [has_param] holds of it, and for any key that is not the name of
    a definition; for an expression it returns what the prepared
    expression evaluates to; and for any other input it calls
    [evaluate] on a value that is not an expression. Before the
    configuration [self.params] does not exist and [eval_expr] fails
    with an [AttributeError]. *)
Theorem eval_expr_after_configuration (self : Self QVal) (key : string) :
  Forall readable (parameterDefinitions self) →
  NoDup (map name (parameterDefinitions self)) →
  let self' := (processAlgorithmConfigureParams qgis self).2 in
  (key ∉ map name (parameterDefinitions self) → eval_expr qgis key self' = inr None)
  ∧ (∀ p, p ∈ parameterDefinitions self → type p = "sink" →
          has_param (name p) self' = true ∧ eval_expr qgis (name p) self' = inr None)
  ∧ (∀ p, p ∈ parameterDefinitions self → type p ≠ "sink" →
          ∃ param, configure_param qgis p = inr (Some param)
                   ∧ eval_expr qgis (name p) self'
                     = match evaluate qgis param with
                       | Some v => inr (Some v)
                       | None => inl AttributeError
                       end)
  ∧ (params self = None → eval_expr qgis key self = inl AttributeError).
Proof.
  intros Hall Hnodup. cbn zeta. unfold processAlgorithmConfigureParams.
  rewrite (configure_loop_readable _ [] Hall) by done. cbn [fst snd app].
  split; [|split; [|split]].
  - intros Hnot. unfold eval_expr. cbn [params].
    destruct (odict_get key (configured qgis (parameterDefinitions self))) as [v|] eqn:Hget;
      [|done].
    exfalso. apply Hnot.
    assert (key ∈ map fst (configured qgis (parameterDefinitions self))) as Hin.
    { clear -Hget. induction (configured qgis (parameterDefinitions self)) as [|[k v'] d IH];
        [done|]. cbn [odict_get] in Hget. cbn [map fst].
      destruct (String.eqb_spec k key) as [->|_]; [left|right; by apply IH]. }
    rewrite (configured_keys _ Hall) in Hin.
    apply list_elem_of_fmap in Hin as (q & -> & Hq%list_elem_of_filter).
    apply list_elem_of_fmap. exists q. split; [done|]. by destruct Hq.
  - intros p Hp Hsink. split.
    + unfold has_param. cbn [parameterDefinitions]. apply existsb_exists.
      exists p. split; [by apply list_elem_of_In|apply String.eqb_refl].
    + unfold eval_expr. cbn [params]. rewrite (odict_get_configured _ _ Hnodup Hp).
      unfold configure_param. rewrite Hsink. done.
  - intros p Hp Hsink.
    destruct (configure_param_readable p (proj1 (Forall_forall _ _) Hall p Hp))
      as [[? _]|[_ [param Hparam]]]; [done|].
    exists param. split; [done|].
    unfold eval_expr. cbn [params]. by rewrite (odict_get_configured _ _ Hnodup Hp), Hparam.
  - intros Hunset. unfold eval_expr. by rewrite Hunset.
Qed.

End ConfigureParams.

Lemma routes_instance_readable :
  Forall readable (AlgorithmBaseHelpers.parameterDefinitions routes_instance)
  ∧ NoDup (map AlgorithmBaseHelpers.name
             (AlgorithmBaseHelpers.parameterDefinitions routes_instance)).
Proof.
  split; [|apply NoDup_check; vm_compute; reflexivity].
  repeat (apply Forall_cons; split;
          [first [by right | left; unfold AlgorithmBaseHelpers.supported; cbn; in_list]|]).
  apply Forall_nil_2.
Qed.

Lemma help_string_shows_every_entry_witness :
  occurs_in (NL +:+ "<b>Timeout</b>: -") (AlgorithmBaseHelpers.shortHelpString routes_instance)
  ∧ occurs_in (NL +:+ "<b>Searches ID</b>: -")
      (AlgorithmBaseHelpers.shortHelpString routes_instance).
Proof.
  split.
  - apply (help_string_shows_every_entry routes_instance true "Timeout" None).
    vm_compute. in_list.
  - apply (help_string_shows_every_entry routes_instance false "Searches ID" (Some "")).
    vm_compute. in_list.
Defined.

Lemma configure_params_reads_all_but_sinks_witness :
  (AlgorithmBaseHelpers.processAlgorithmConfigureParams echo routes_instance).1 = inr tt
  ∧ map fst (configured echo (AlgorithmBaseHelpers.parameterDefinitions routes_instance))
    = ["INPUT_SEARCHES"; "INPUT_ID"; "INPUT_TIMEOUT"].
Proof.
  destruct (configure_params_reads_all_but_sinks echo routes_instance
              (proj1 routes_instance_readable) (proj2 routes_instance_readable))
    as (Hrun & _ & Hkeys & _).
  split; [exact Hrun|]. rewrite Hkeys. vm_compute. reflexivity.
Defined.

Lemma configure_params_unsupported_type_witness :
  (AlgorithmBaseHelpers.processAlgorithmConfigureParams echo matrix_instance).1
  = inl (AlgorithmBaseHelpers.Exception "Parameter type matrix not supported [INPUT_MATRIX]").
Proof.
  destruct (configure_params_unsupported_type echo matrix_instance
              [parameter_of "INPUT_SEARCHES" "Searches" "source"]
              [parameter_of "INPUT_ID" "Searches ID" "expression"]
              (parameter_of "INPUT_MATRIX" "Matrix" "matrix")) as [Hrun _].
  - reflexivity.
  - apply Forall_cons. split; [|apply Forall_nil_2].
    left. unfold AlgorithmBaseHelpers.supported. cbn. in_list.
  - apply (bool_decide_eq_true_1 _). vm_compute. reflexivity.
  - cbn. discriminate.
  - exact Hrun.
Defined.

Lemma eval_expr_after_configuration_witness :
  let self' := (AlgorithmBaseHelpers.processAlgorithmConfigureParams echo routes_instance).2 in
  AlgorithmBaseHelpers.has_param "OUTPUT" self' = true
  ∧ AlgorithmBaseHelpers.eval_expr echo "OUTPUT" self' = inr None.
Proof.
  destruct (eval_expr_after_configuration echo routes_instance "OUTPUT"
              (proj1 routes_instance_readable) (proj2 routes_instance_readable))
    as (_ & Hsink & _).
  apply (Hsink (parameter_of "OUTPUT" "Output" "sink")); [|reflexivity].
  vm_compute. in_list.
Defined.

(** ** The output stage of the time-filter endpoint, further *)

Section TimeFilterSchema.

Import TimeFilterAlgorithm.
Context (lookup : Lookup) (locations_source : Source).

Lemma length_setAttribute i v feature :
  length (ft_attributes (setAttribute i v feature)) = length (ft_attributes feature).
Proof. unfold setAttribute. cbn [ft_attributes]. apply length_insert. Qed.

Lemma copy_attributes_schema base_ft feature :
  length (ft_attributes (copy_attributes locations_source base_ft feature))
  = length (ft_attributes feature)
  ∧ ft_geometry (copy_attributes locations_source base_ft feature) = ft_geometry feature.
Proof.
  unfold copy_attributes. generalize (seq 0 (length (fields locations_source))).
  intros l. revert feature. induction l as [|i l IH]; intros feature; [done|].
  cbn [foldl]. destruct (IH (setAttribute i (attributes base_ft !! i) feature)) as [-> ->].
  by rewrite length_setAttribute.
Qed.

Lemma reached_feature_schema result location feature :
  reached_feature lookup locations_source result location = inr feature →
  is_Some (ft_geometry feature)
  ∧ length (ft_attributes feature) = length (output_rslts_fields locations_source).
Proof.
  unfold reached_feature.
  destruct (get_location_feature lookup locations_source (lr_id location)) as [base_ft|];
    [|done].
  destruct (lr_properties location) as [props|]; [|done]. intros [= <-].
  rewrite !length_setAttribute.
  destruct (copy_attributes_schema base_ft
              (setGeometry (geometry base_ft)
                 (new_feature (length (output_rslts_fields locations_source))))) as [Hl Hg].
  split.
  - unfold setAttribute at 1 2. cbn [ft_geometry]. rewrite Hg. by eexists.
  - rewrite Hl. unfold setGeometry, new_feature. cbn [ft_attributes].
    apply length_replicate.
Qed.

Lemma unreachable_feature_schema result id_ feature :
  unreachable_feature lookup locations_source result id_ = inr feature →
  is_Some (ft_geometry feature)
  ∧ length (ft_attributes feature) = length (output_unrch_fields locations_source).
Proof.
  unfold unreachable_feature.
  destruct (get_location_feature lookup locations_source id_) as [base_ft|]; [|done].
  intros [= <-]. rewrite length_setAttribute.
  destruct (copy_attributes_schema base_ft
              (setGeometry (geometry base_ft)
                 (new_feature (length (output_unrch_fields locations_source))))) as [Hl Hg].
  split.
  - unfold setAttribute at 1. cbn [ft_geometry]. rewrite Hg. by eexists.
  - rewrite Hl. unfold setGeometry, new_feature. cbn [ft_attributes].
    apply length_replicate.
Qed.

Lemma add_each_schema {A} (make : A → exn + QgsFeature) (P : QgsFeature → Prop)
    (l : list A) (sink sink' : list QgsFeature) :
  (∀ a feature, make a = inr feature → P feature) →
  add_each make l sink = inr sink' →
  ∃ added, sink' = sink ++ added ∧ length added = length l ∧ Forall P added.
Proof.
  intros Hmake. revert sink. induction l as [|a l IH]; intros sink.
  { intros [= <-]. exists []. by rewrite app_nil_r. }
  cbn [add_each]. destruct (make a) as [e|feature] eqn:Ha; [done|].
  intros (added & -> & Hlen & Hall)%IH. exists (feature :: added).
  rewrite <- app_assoc. split; [done|]. split; [cbn [length]; by rewrite Hlen|].
  constructor; [by eapply Hmake|done].
Qed.

Lemma add_features_schema results sinks sinks' :
  add_features lookup locations_source results sinks = inr sinks' →
  ∃ fs us,
    OUTPUT_RESULTS sinks' = OUTPUT_RESULTS sinks ++ fs
    ∧ OUTPUT_UNREACHABLE sinks' = OUTPUT_UNREACHABLE sinks ++ us
    ∧ length fs = length (reached_entries results)
    ∧ length us = length (unreachable_entries results)
    ∧ Forall (λ f, is_Some (ft_geometry f)
                   ∧ length (ft_attributes f) = length (output_rslts_fields locations_source))
        fs
    ∧ Forall (λ f, is_Some (ft_geometry f)
                   ∧ length (ft_attributes f) = length (output_unrch_fields locations_source))
        us.
Proof.
  revert sinks. induction results as [|r rest IH]; intros sinks.
  { intros [= <-]. exists [], []. rewrite !app_nil_r. by repeat split. }
  cbn [add_features]. destruct (res_locations r) as [ls|] eqn:Hl; [|done].
  destruct (add_each _ ls _) as [e|sink] eqn:Hreached; [done|].
  destruct (unreachable r) as [ids|] eqn:Hu; [|done].
  destruct (add_each _ ids _) as [e|unreachable_sink] eqn:Hunreached; [done|].
  intros (fs & us & Hfs & Hus & Hlf & Hlu & Hallf & Hallu)%IH.
  cbn [OUTPUT_RESULTS OUTPUT_UNREACHABLE] in Hfs, Hus.
  apply (add_each_schema _ _ _ _ _ (reached_feature_schema r)) in Hreached
    as (fs1 & -> & Hl1 & Hall1).
  apply (add_each_schema _ _ _ _ _ (unreachable_feature_schema r)) in Hunreached
    as (us1 & -> & Hl2 & Hall2).
  exists (fs1 ++ fs), (us1 ++ us). rewrite Hfs, Hus, <- !app_assoc.
  split; [done|]. split; [done|].
  unfold reached_entries, unreachable_entries. cbn [map concat]. rewrite Hl, Hu.
  cbn [default from_option id].
  rewrite !length_app, !length_map.
  split; [unfold reached_entries in Hlf; lia|].
  split; [unfold unreachable_entries in Hlu; lia|].
  split; by apply Forall_app.
Qed.

(** X30. The features of the time-filter output fit the fields of
    their sink, whatever the locations layer and the lookup: when the
    stage returns, every feature of the results sink has a geometry
    and as many attributes as the sink has fields, which are those of
    the layer with [search_id] and [properties] appended where the
    layer has no field of that name; likewise for the unreachable
    sink with [search_id]; and the sinks hold one feature per reached
    entry and per unreachable id of the results, a location reached
    by several searches being written once for each. On a layer
    without such fields the counts are the number of its fields plus
    two, and plus one. *)
Theorem time_filter_output_fits_fields (results : list ApiResult) (env : Env) (w : World)
    (sinks : Sinks) :
  run_result (processAlgorithmOutput lookup locations_source results env w) = inr sinks →
  length (OUTPUT_RESULTS sinks) = length (reached_entries results)
  ∧ length (OUTPUT_UNREACHABLE sinks) = length (unreachable_entries results)
  ∧ Forall (λ f, is_Some (ft_geometry f)
                 ∧ length (ft_attributes f) = length (output_rslts_fields locations_source))
      (OUTPUT_RESULTS sinks)
  ∧ Forall (λ f, is_Some (ft_geometry f)
                 ∧ length (ft_attributes f) = length (output_unrch_fields locations_source))
      (OUTPUT_UNREACHABLE sinks)
  ∧ length (fields locations_source) ≤ length (output_unrch_fields locations_source)
    ≤ length (output_rslts_fields locations_source) ≤ length (fields locations_source) + 2
  ∧ (free_names locations_source →
     length (output_rslts_fields locations_source) = length (fields locations_source) + 2
     ∧ length (output_unrch_fields locations_source) = length (fields locations_source) + 1).
Proof.
  unfold processAlgorithmOutput, bind, lift, emit, ret, raise.
  destruct (add_features lookup locations_source results empty_sinks) as [e|sinks'] eqn:Hadd;
    [done|].
  cbn. intros [= <-].
  destruct (add_features_schema _ _ _ Hadd) as (fs & us & -> & -> & Hlf & Hlu & Hallf & Hallu).
  cbn [OUTPUT_RESULTS OUTPUT_UNREACHABLE empty_sinks app].
  split; [done|]. split; [done|]. split; [done|]. split; [done|]. split.
  - unfold output_rslts_fields, output_unrch_fields, QgsFields_append.
    repeat case_bool_decide; rewrite ?length_app; cbn [length]; lia.
  - intros [-> ->]%(output_fields_free locations_source). rewrite !length_app. cbn [length].
    lia.
Qed.

End TimeFilterSchema.

(** On a locations layer that has a field named [search_id] already,
    the features of the results sink have three attributes, one more
    than the layer has fields, and [search_id] is written over the
    attribute of the layer. *)
Lemma time_filter_output_fits_fields_witness :
  ∃ sinks,
    run_result (TimeFilterAlgorithm.processAlgorithmOutput Demo.lookup tagged_locations
                  [Demo.filter_result "l" "m"; Demo.filter_result "l" "l"]
                  Demo.serving (Demo.world_of ∅)) = inr sinks
    ∧ TimeFilterAlgorithm.output_rslts_fields tagged_locations
      = ["name"; "search_id"; "properties"]
    ∧ ft_attributes <$> TimeFilterAlgorithm.OUTPUT_RESULTS sinks
      = [[Some "L"; Some "a"; Some "{}"]; [Some "L"; Some "a"; Some "{}"]]
    ∧ length (TimeFilterAlgorithm.OUTPUT_RESULTS sinks) = 2
    ∧ Forall (λ f, is_Some (ft_geometry f) ∧ length (ft_attributes f) = 3)
        (TimeFilterAlgorithm.OUTPUT_RESULTS sinks).
Proof.
  eexists. split; [vm_compute; reflexivity|].
  split; [vm_compute; reflexivity|]. split; [vm_compute; reflexivity|].
  destruct (time_filter_output_fits_fields Demo.lookup tagged_locations
              [Demo.filter_result "l" "m"; Demo.filter_result "l" "l"]
              Demo.serving (Demo.world_of ∅) _
              ltac:(vm_compute; reflexivity)) as (Hlen & _ & Hall & _).
  split; [exact Hlen|exact Hall].
Defined.

Lemma rate_guard_writes_nothing_witness :
  let run := AdvancedAlgorithmBase.api_limit_loop (seq 0 AdvancedAlgorithmBase.retries)
               Demo.serving (Demo.world_of (Demo.limits true 5 5)) in
  sleeps_of (run_trace run) ≤ 10
  ∧ settings (run_world run) = Demo.limits true 5 5.
Proof.
  destruct (rate_guard_writes_nothing (seq 0 AdvancedAlgorithmBase.retries) Demo.serving
              (Demo.world_of (Demo.limits true 5 5))) as (_ & Hle & Hsettings).
  split; [exact Hle|]. apply Hsettings. intros k s. reflexivity.
Defined.
